(** * roboeval_bot: the experiment bot's store, progress resolver and handlers

    A shallow embedding of [src/tg_bot.py] and [src/read_db.py].

    - The SQLite database is a record of four finite maps, one per table,
      keyed by the table's primary key.
    - Every database utility of the source opens its own connection and
      commits once at its end: it is one transaction.  Handlers run in a
      small state-and-exception monad whose state also records the list of
      committed snapshots, so that what a crash between two commits would
      leave behind can be stated.
    - [context.user_data] is a record of the three keys the source uses.
    - [random.choice] and [random.shuffle] read their draws from the
      inbound event, so every run of the code is a run of the model for
      some draws.
    - Outbound messages are kept as tags, not as their Russian text.
    - A string is the UTF-8 bytes of the text.  Python's [str.strip], [int]
      and [\d] depend on the interpreter's Unicode tables; the handlers are
      modelled over every interpretation of the three (class [Python]), and
      only the sample runs fix one.
    - Failures of the Telegram calls themselves are not modelled; an
      update whose [message] is [None] is. *)

From Stdlib Require Import ZArith List Ascii String Permutation Sorted Lia.
From stdpp Require Import gmap strings list fin_maps.

Local Open Scope string_scope.
Local Open Scope Z_scope.

(** ** Experiment constants *)

Definition SCENARIOS : list string :=
  ["Пицца"; "Наперстки"; "Детали"; "Шахматы"].

Definition VIDEO_CONDITIONS : list string := ["без"; "с"].

Definition VIDEO_FILES : gmap string (gmap string string) :=
  list_to_map
    [ ("без", list_to_map
        [ ("Пицца", "BAACAgIAAxkBAAMDaR3tILxQxDadmZUPnNfLMYKDklYAAuKGAAK3mfBIUqHZvFT5t4k2BA");
          ("Наперстки", "BAACAgIAAxkBAAMHaR3tTeFefOgTqLVzPGWVfq0HqMYAAuWGAAK3mfBInbE1O9rwros2BA");
          ("Детали", "BAACAgIAAxkBAAMLaR3tr3EhNtwKcDD4G-MQ6CSg12wAAumGAAK3mfBIhZdSRIOeY9Y2BA");
          ("Шахматы", "BAACAgIAAxkBAAMPaR3t020V9VOwPFXHjjcMSLTB1C0AAuuGAAK3mfBIaIB8oId19Wc2BA") ]);
      ("с", list_to_map
        [ ("Пицца", "BAACAgIAAxkBAAMFaR3tP22-guoJN43uoEp3wNG8O7IAAuOGAAK3mfBIzJd2fp1Quv42BA");
          ("Наперстки", "BAACAgIAAxkBAAMJaR3tl8kAAYky84H0z-zVin07co-0AALohgACt5nwSPu4xsh4TUauNgQ");
          ("Детали", "BAACAgIAAxkBAAMNaR3twWb_7p9gokCji027ULfVxrsAAuqGAAK3mfBIbLKHzk9zTIU2BA");
          ("Шахматы", "BAACAgIAAxkBAAMRaR3t7KdwvysGkOElyJnc_lgQitQAAu2GAAK3mfBImFgME8KSjbs2BA") ]) ].

(** The keys of [SCENARIO_QUESTIONS]; the two statements of each pair are
    only ever printed. *)
Definition SCENARIO_QUESTIONS : list string :=
  ["Пицца"; "Наперстки"; "Детали"; "Шахматы"].

(** ** The database *)

(** A row of [participants].  [completed] is the 0/1 integer column; the
    code tests it for truth, that is for being non-zero. *)
Record participant := mkParticipant {
  tg_username : string;
  first_name : string;
  participant_name : option string;
  gender : option string;
  age : option Z;
  condition : option string;
  current_video_idx : Z;
  total_videos : Z;
  completed : Z;
  created_at : string
}.

Record video_row := mkVideo {
  v_condition : string;
  v_scenario : string;
  v_file_id : string
}.

Record answer := mkAnswer {
  a_scenario : string;
  a_file_id : string;
  description : option string;
  adv_behavior : option string;
  adv_choice : option string;
  scenario_rating : option Z
}.

Record DB := mkDB {
  users : gmap Z (string * string);
  participants : gmap Z participant;
  video_sequence : gmap (Z * Z) video_row;
  answers : gmap (Z * Z) answer
}.

Definition empty_db : DB := mkDB ∅ ∅ ∅ ∅.

(** Python's [x or EMPTY] on an optional string, EMPTY the empty string: an
    empty [x] is falsy and yields the empty string all the same. *)
Definition or_empty (o : option string) : string :=
  match o with Some s => s | None => "" end.

(** Python truth of an integer column. *)
Definition truthy (z : Z) : bool := negb (Z.eqb z 0).

Definition ensure_user (user_id : Z) (username first : string) (d : DB) : DB :=
  mkDB (<[user_id := (username, first)]> (users d))
       (participants d) (video_sequence d) (answers d).

Definition get_participant (d : DB) (user_id : Z) : option participant :=
  participants d !! user_id.

(** The [INSERT ... ON CONFLICT(user_id) DO UPDATE] of [create_participant]:
    a new row takes the column defaults ([current_video_idx] 0,
    [total_videos] 4, [completed] 0, [created_at] the clock), an old one
    only has its two Telegram names replaced. *)
Definition upsert_participant_row (now uname fname : string)
    (o : option participant) : participant :=
  match o with
  | None => mkParticipant uname fname None None None None 0 4 0 now
  | Some p =>
      mkParticipant uname fname (participant_name p) (gender p) (age p)
        (condition p) (current_video_idx p) (total_videos p) (completed p)
        (created_at p)
  end.

(** [UPDATE participants SET col = ?] of a column, run only when the
    argument is not [None]. *)
Definition set_if {A} (new : option A) (old : option A) : option A :=
  match new with Some v => Some v | None => old end.

Definition create_participant (now : string) (user_id : Z)
    (uname fname : option string)
    (pname : option string) (gen : option string) (ag : option Z)
    (cond : option string) (total : option Z) (d : DB) : DB :=
  let p := upsert_participant_row now (or_empty uname) (or_empty fname)
             (participants d !! user_id) in
  let p' :=
    mkParticipant (tg_username p) (first_name p)
      (set_if pname (participant_name p))
      (set_if gen (gender p))
      (set_if ag (age p))
      (set_if cond (condition p))
      (current_video_idx p)
      (match total with Some t => t | None => total_videos p end)
      (completed p) (created_at p) in
  mkDB (users d) (<[user_id := p']> (participants d))
       (video_sequence d) (answers d).

(** One [UPDATE participants SET ... WHERE user_id = ?] carrying whichever of
    the two columns was given; no row, no change. *)
Definition progress_row (idx : option Z) (compl : option bool)
    (p : participant) : participant :=
  mkParticipant (tg_username p) (first_name p) (participant_name p)
    (gender p) (age p) (condition p)
    (match idx with Some i => i | None => current_video_idx p end)
    (total_videos p)
    (match compl with
     | Some c => if c then 1 else 0
     | None => completed p
     end)
    (created_at p).

Definition update_participant_progress (user_id : Z) (idx : option Z)
    (compl : option bool) (d : DB) : DB :=
  mkDB (users d) (alter (progress_row idx compl) user_id (participants d))
       (video_sequence d) (answers d).

Definition get_video_by_position (d : DB) (user_id position : Z)
    : option video_row :=
  video_sequence d !! (user_id, position).

Definition get_answer (d : DB) (user_id position : Z) : option answer :=
  answers d !! (user_id, position).

(** The field names [upsert_answer_field] accepts, each with the value
    written; any other name raises before the store is touched, and no call
    in the source passes one. *)
Inductive field_write :=
| W_description (v : string)
| W_adv_behavior (v : string)
| W_adv_choice (v : string)
| W_scenario_rating (v : Z).

Definition upsert_answer_row (scenario file_id : string) (o : option answer)
    : answer :=
  match o with
  | None => mkAnswer scenario file_id None None None None
  | Some a =>
      mkAnswer scenario file_id (description a) (adv_behavior a)
        (adv_choice a) (scenario_rating a)
  end.

Definition write_field (w : field_write) (a : answer) : answer :=
  match w with
  | W_description v =>
      mkAnswer (a_scenario a) (a_file_id a) (Some v) (adv_behavior a)
        (adv_choice a) (scenario_rating a)
  | W_adv_behavior v =>
      mkAnswer (a_scenario a) (a_file_id a) (description a) (Some v)
        (adv_choice a) (scenario_rating a)
  | W_adv_choice v =>
      mkAnswer (a_scenario a) (a_file_id a) (description a) (adv_behavior a)
        (Some v) (scenario_rating a)
  | W_scenario_rating v =>
      mkAnswer (a_scenario a) (a_file_id a) (description a) (adv_behavior a)
        (adv_choice a) (Some v)
  end.

Definition upsert_answer_field (user_id position : Z)
    (scenario file_id : string) (w : field_write) (d : DB) : DB :=
  let a := upsert_answer_row scenario file_id
             (answers d !! (user_id, position)) in
  mkDB (users d) (participants d) (video_sequence d)
       (<[(user_id, position) := write_field w a]> (answers d)).

(** ** Strings

    A string is the UTF-8 bytes of a Python [str].  [str.startswith],
    [str.split] and [in] compare code points, which on UTF-8 is comparing
    bytes; they are functions here.

    [str.strip], [int] and the regular expression class [\d] go by the
    interpreter's Unicode tables of whitespace and of decimal digits.  The
    handlers take the three as given: what is proved of them holds for
    every interpretation, the interpreter's included. *)

Class Python := {
  (** [s.strip()] *)
  strip : string → string;
  (** [int(s)]; [None] stands for [ValueError] *)
  parse_int : string → option Z;
  (** whether [\d+$] matches at the start of [s] *)
  re_digits : string → bool
}.

(** *** The built-ins on ASCII text

    What the three compute when the whitespace and the digits of the text
    are ASCII (the interpreter's limit on the length of a numeral left
    aside); the sample runs are run with them, on texts of that kind. *)

(** [str.isspace] of an ASCII character. *)
Definition is_space (c : ascii) : bool :=
  let n := nat_of_ascii c in
  (((9 <=? n)%nat && (n <=? 13)%nat) || ((28 <=? n)%nat && (n <=? 32)%nat))%bool.

(** The whitespace that [int] skips around an ASCII numeral: C's
    [isspace], which leaves the separators 28 to 31 out. *)
Definition is_c_space (c : ascii) : bool :=
  let n := nat_of_ascii c in
  (((9 <=? n)%nat && (n <=? 13)%nat) || (n =? 32)%nat)%bool.

Fixpoint lstrip (sp : ascii → bool) (s : string) : string :=
  match s with
  | EmptyString => EmptyString
  | String c s' => if sp c then lstrip sp s' else s
  end.

Fixpoint rstrip (sp : ascii → bool) (s : string) : string :=
  match s with
  | EmptyString => EmptyString
  | String c s' =>
      match rstrip sp s' with
      | EmptyString => if sp c then EmptyString else String c EmptyString
      | r => String c r
      end
  end.

Definition ascii_strip (s : string) : string :=
  rstrip is_space (lstrip is_space s).

Definition is_digit (c : ascii) : bool :=
  let n := nat_of_ascii c in ((48 <=? n)%nat && (n <=? 57)%nat)%bool.

Definition digit_val (c : ascii) : Z := Z.of_nat (nat_of_ascii c) - 48.

(** Decimal digits, single underscores allowed between two digits. *)
Fixpoint int_digits (acc : Z) (after_digit : bool) (s : string) : option Z :=
  match s with
  | EmptyString => if after_digit then Some acc else None
  | String c s' =>
      if is_digit c then int_digits (10 * acc + digit_val c) true s'
      else if (Ascii.eqb c "_" && after_digit)%bool then int_digits acc false s'
      else None
  end.

Definition ascii_int (text : string) : option Z :=
  match rstrip is_c_space (lstrip is_c_space text) with
  | String "-" s' => Z.opp <$> int_digits 0 false s'
  | String "+" s' => int_digits 0 false s'
  | s => int_digits 0 false s
  end.

(** The rest of [^likert_\d+$] on ASCII digits: one digit or more, then
    the end of the string or a last newline. *)
Fixpoint digits_to_end (seen : bool) (s : string) : bool :=
  match s with
  | EmptyString => seen
  | String c s' =>
      if is_digit c then digits_to_end true s'
      else (seen && Ascii.eqb c "010" && String.eqb s' "")%bool
  end.

#[global] Instance ascii_python : Python := {|
  strip := ascii_strip;
  parse_int := ascii_int;
  re_digits := digits_to_end false
|}.

Fixpoint startswith (s pre : string) : bool :=
  match pre, s with
  | EmptyString, _ => true
  | String p pre', String c s' => (Ascii.eqb c p && startswith s' pre')%bool
  | String _ _, EmptyString => false
  end.

(** [s.split(sep, 1)[1]]: what follows the first separator; [None] when
    there is none (the list then has one element and the index raises). *)
Fixpoint after_first (sep : ascii) (s : string) : option string :=
  match s with
  | EmptyString => None
  | String c s' => if Ascii.eqb c sep then Some s' else after_first sep s'
  end.

(** ** Randomness

    [random.shuffle(x)] is CPython's loop
    [for i in reversed(range(1, len(x))): j = randbelow(i + 1);
     x[i], x[j] = x[j], x[i]];
    the draw used at index [i] is [draws i], reduced below [i + 1]. *)

Definition swap {A} (i j : nat) (x : list A) : list A :=
  match x !! i, x !! j with
  | Some a, Some b => <[i := b]> (<[j := a]> x)
  | _, _ => x
  end.

Fixpoint shuffle_from {A} (draws : nat → nat) (i : nat) (x : list A) : list A :=
  match i with
  | O => x
  | S i' => shuffle_from draws i' (swap i (draws i mod (i + 1))%nat x)
  end.

Definition shuffle {A} (draws : nat → nat) (x : list A) : list A :=
  shuffle_from draws (length x - 1)%nat x.

(** [random.choice(seq)] is [seq[randbelow(len(seq))]]. *)
Definition choice (draw : nat) (seq : list string) : option string :=
  seq !! (draw mod length seq)%nat.

(** ** Sessions, replies and the handler monad *)

(** The values the [stage] key of [user_data] and [determine_next_stage]
    range over; each constructor is the source's string of that name. *)
Inductive stage_t :=
| ask_name | ask_gender | ask_age
| expect_description | expect_adv_behavior | expect_adv_choice | expect_rating
| finished | no_participant.

(** [context.user_data]: a missing key and a key holding [None] read the
    same through [.get]. *)
Record user_data := mkUD {
  stage : option stage_t;
  ud_participant_name : option string;
  ud_gender : option string
}.

Definition ud_clear : user_data := mkUD None None None.

(** Outbound messages, one tag per message text of the source. *)
Inductive reply :=
| R_press_start
| R_instruction
| R_ask_name
| R_ask_gender
| R_ask_age
| R_ask_age_again
| R_gender_recorded (g : string)
| R_intake_done
| R_thanks_already
| R_resuming
| R_session_missing
| R_session_missing_or_done
| R_no_video
| R_video (file_id : string) (idx total : Z)
| R_ask_description
| R_ask_adv_behavior
| R_ask_adv_choice
| R_rating_question (scenario : string)
| R_use_buttons
| R_next_video
| R_final (name : string)
| R_step_error
| R_restore_error
| R_unexpected_error
| R_file_id
| R_send_video
| R_handler_error.

Inductive exn := ValueError | KeyError | IndexError | AttributeError.

Inductive outcome (A : Type) :=
| Ok (a : A)
| Raise (e : exn).
Arguments Ok {A} a.
Arguments Raise {A} e.

(** What a handler works on: the store, the snapshots committed so far
    (newest first), the user's session data and the messages sent (newest
    first). *)
Record hstate := mkH {
  st_db : DB;
  st_commits : list DB;
  st_ud : user_data;
  st_sent : list reply
}.

Definition M (A : Type) : Type := hstate → outcome A * hstate.

Definition ret {A} (a : A) : M A := λ s, (Ok a, s).

Definition bind {A B} (m : M A) (k : A → M B) : M B :=
  λ s, match m s with
       | (Ok a, s') => k a s'
       | (Raise e, s') => (Raise e, s')
       end.

Definition raise {A} (e : exn) : M A := λ s, (Raise e, s).

(** [try: m except Exception: h] *)
Definition try_except {A} (m : M A) (h : exn → M A) : M A :=
  λ s, match m s with
       | (Ok a, s') => (Ok a, s')
       | (Raise e, s') => h e s'
       end.

Notation "x <- m ;; k" := (bind m (λ x, k))
  (at level 20, m at level 99, k at level 200, only parsing).
Notation "m ;; k" := (bind m (λ _, k))
  (at level 100, k at level 200, only parsing, right associativity).

(** A read-only utility, and a writing one with its [db.commit()]. *)
Definition query {A} (f : DB → A) : M A := λ s, (Ok (f (st_db s)), s).

Definition commit (f : DB → DB) : M unit :=
  λ s, let d := f (st_db s) in
       (Ok tt, mkH d (d :: st_commits s) (st_ud s) (st_sent s)).

Definition send (r : reply) : M unit :=
  λ s, (Ok tt, mkH (st_db s) (st_commits s) (st_ud s) (r :: st_sent s)).

Definition get_ud : M user_data := λ s, (Ok (st_ud s), s).

Definition put_ud (u : user_data) : M unit :=
  λ s, (Ok tt, mkH (st_db s) (st_commits s) u (st_sent s)).

Definition set_stage (o : option stage_t) : M unit :=
  u <- get_ud ;; put_ud (mkUD o (ud_participant_name u) (ud_gender u)).

(** ** The Sequence Generator *)

(** The loop over [SCENARIOS] looking up [VIDEO_FILES[condition][scenario]];
    [None] is the [KeyError] turned into [ValueError]. *)
Fixpoint collect_videos (files : gmap string string) (scen : list string)
    : option (list (string * string)) :=
  match scen with
  | [] => Some []
  | scenario :: rest =>
      match files !! scenario with
      | None => None
      | Some file_id =>
          match collect_videos files rest with
          | None => None
          | Some vs => Some ((scenario, file_id) :: vs)
          end
      end
  end.

(** [DELETE FROM video_sequence WHERE user_id = ?] *)
Definition delete_sequence (user_id : Z) (m : gmap (Z * Z) video_row)
    : gmap (Z * Z) video_row :=
  filter (λ kv, kv.1.1 ≠ user_id) m.

(** The [INSERT]s of [for pos, (scenario, file_id) in enumerate(videos)],
    [pos] being the counter. *)
Fixpoint insert_sequence (user_id : Z) (cond : string) (pos : Z)
    (videos : list (string * string)) (m : gmap (Z * Z) video_row)
    : gmap (Z * Z) video_row :=
  match videos with
  | [] => m
  | (scenario, file_id) :: rest =>
      insert_sequence user_id cond (pos + 1) rest
        (<[(user_id, pos) := mkVideo cond scenario file_id]> m)
  end.

Definition replace_sequence (user_id : Z) (cond : string)
    (videos : list (string * string)) (d : DB) : DB :=
  mkDB (users d) (participants d)
       (insert_sequence user_id cond 0 videos
          (delete_sequence user_id (video_sequence d)))
       (answers d).

(** [create_video_sequence_for_participant], over the two tables it reads. *)
Definition create_video_sequence_with
    (table : gmap string (gmap string string)) (scen : list string)
    (draws : nat → nat) (user_id : Z) (cond : string) : M unit :=
  match table !! cond with
  | None => raise ValueError
  | Some files =>
      match collect_videos files scen with
      | None => raise ValueError
      | Some videos =>
          commit (replace_sequence user_id cond (shuffle draws videos))
      end
  end.

Definition create_video_sequence_for_participant :=
  create_video_sequence_with VIDEO_FILES SCENARIOS.

(** ** The Progress Resolver *)

Definition determine_next_stage (d : DB) (user_id : Z) : stage_t :=
  match get_participant d user_id with
  | None => no_participant
  | Some participant =>
      if truthy (completed participant) then finished
      else
        let idx := current_video_idx participant in
        let total := total_videos participant in
        if idx >=? total then finished
        else
          match get_answer d user_id idx with
          | None => expect_description
          | Some ans =>
              match description ans with
              | None => expect_description
              | Some _ =>
                  match adv_behavior ans with
                  | None => expect_adv_behavior
                  | Some _ =>
                      match adv_choice ans with
                      | None => expect_adv_choice
                      | Some _ =>
                          match scenario_rating ans with
                          | None => expect_rating
                          | Some _ => expect_description
                          end
                      end
                  end
              end
          end
  end.

(** ** The Interaction Controller *)

(** What the handlers read of an inbound [Update] and of their
    environment: the Telegram user, the database clock and the draws the
    two [random] calls would make. *)
Record update := mkUpdate {
  u_id : Z;
  u_username : option string;
  u_first_name : option string;
  u_now : string;
  u_choice : nat;
  u_shuffle : nat → nat
}.

Definition clear_ud : M unit := put_ud ud_clear.

(** Python truth of an optional string: [None] and the empty string are
    falsy. *)
Definition str_truthy (o : option string) : bool :=
  match o with
  | None => false
  | Some s => negb (String.eqb s "")
  end.

Definition send_final_message (p : participant) : M unit :=
  send (R_final (if str_truthy (participant_name p)
                 then or_empty (participant_name p)
                 else "ваше имя/псевдоним")).

Definition send_scenario_rating_question (scenario : string) : M unit :=
  if bool_decide (scenario ∈ SCENARIO_QUESTIONS)
  then send (R_rating_question scenario)
  else raise KeyError.

Definition continue_experiment (u : update) : M unit :=
  let user_id := u_id u in
  participant <- query (λ d, get_participant d user_id) ;;
  match participant with
  | None => send R_session_missing ;; clear_ud
  | Some participant =>
      if truthy (completed participant)
      then send_final_message participant ;; clear_ud
      else
        let idx := current_video_idx participant in
        let total := total_videos participant in
        video_info <- query (λ d, get_video_by_position d user_id idx) ;;
        match video_info with
        | None => send R_no_video
        | Some video_info =>
            stg <- query (λ d, determine_next_stage d user_id) ;;
            set_stage (Some stg) ;;
            let scenario := v_scenario video_info in
            let file_id := v_file_id video_info in
            match stg with
            | expect_description =>
                send (R_video file_id (idx + 1) total) ;;
                send R_ask_description
            | expect_adv_behavior => send R_ask_adv_behavior
            | expect_adv_choice => send R_ask_adv_choice
            | expect_rating => send_scenario_rating_question scenario
            | finished => send_final_message participant ;; clear_ud
            | _ => send R_restore_error ;; clear_ud
            end
        end
  end.

(** [update.message.reply_text]: [update.message] is [None] on an update
    that carries an edited message, and the attribute access raises
    [AttributeError]. *)
Definition reply_text (message : bool) (r : reply) : M unit :=
  if message then send r else raise AttributeError.

(** [start], on an update whose [message] is there ([message = true]) or
    is [None]. *)
Definition start_on (message : bool) (u : update) : M unit :=
  let user_id := u_id u in
  commit (ensure_user user_id (or_empty (u_username u))
            (or_empty (u_first_name u))) ;;
  participant <- query (λ d, get_participant d user_id) ;;
  match participant with
  | Some participant =>
      if truthy (completed participant)
      then reply_text message R_thanks_already ;;
           send_final_message participant
      else if negb (str_truthy (participant_name participant))
      then set_stage (Some ask_name) ;; reply_text message R_ask_name
      else if negb (str_truthy (gender participant))
      then set_stage (Some ask_gender) ;; reply_text message R_ask_gender
      else
        match age participant with
        | None => set_stage (Some ask_age) ;; reply_text message R_ask_age
        | Some _ => reply_text message R_resuming ;; continue_experiment u
        end
  | None =>
      reply_text message R_instruction ;; clear_ud ;;
      set_stage (Some ask_name)
  end.

(** [start] on a [/start] message. *)
Definition start (u : update) : M unit := start_on true u.

Definition handle_text {py : Python}
    (u : update) (message : option string) : M unit :=
  match message with
  | None => ret tt
  | Some message_text =>
  let user_id := u_id u in
  let text := strip message_text in
  ud <- get_ud ;;
  match stage ud with
  | None => send R_press_start
  | Some ask_name =>
      put_ud (mkUD (stage ud) (Some text) (ud_gender ud)) ;;
      commit (create_participant (u_now u) user_id (u_username u)
                (u_first_name u) (Some text) None None None None) ;;
      set_stage (Some ask_gender) ;;
      send R_ask_gender
  | Some stg =>
      commit (create_participant (u_now u) user_id
                (Some (or_empty (u_username u)))
                (Some (or_empty (u_first_name u)))
                (Some text) None None None None) ;;
      match stg with
      | ask_gender =>
          ud <- get_ud ;;
          put_ud (mkUD (Some ask_age) (ud_participant_name ud) (Some text)) ;;
          send R_ask_age
      | ask_age =>
          match parse_int text with
          | None => send R_ask_age_again
          | Some age =>
              if ((age <=? 0) || (age >? 120))%bool
              then send R_ask_age_again
              else
                ud <- get_ud ;;
                let participant_name :=
                  strip (or_empty (ud_participant_name ud)) in
                let gender := strip (or_empty (ud_gender ud)) in
                commit (create_participant (u_now u) user_id (u_username u)
                          (u_first_name u) (Some participant_name)
                          (Some gender) (Some age) None None) ;;
                match choice (u_choice u) VIDEO_CONDITIONS with
                | None => raise IndexError
                | Some condition =>
                    let total_videos := Z.of_nat (length SCENARIOS) in
                    commit (create_participant (u_now u) user_id
                              (u_username u) (u_first_name u) None None None
                              (Some condition) (Some total_videos)) ;;
                    create_video_sequence_for_participant (u_shuffle u)
                      user_id condition ;;
                    send R_intake_done ;;
                    set_stage None ;;
                    continue_experiment u
                end
          end
      | _ =>
          participant <- query (λ d, get_participant d user_id) ;;
          match participant with
          | None => send R_session_missing_or_done ;; clear_ud
          | Some participant =>
              if truthy (completed participant)
              then send R_session_missing_or_done ;; clear_ud
              else
                let idx := current_video_idx participant in
                video_info <-
                  query (λ d, get_video_by_position d user_id idx) ;;
                match video_info with
                | None => send R_no_video
                | Some video_info =>
                    let scenario := v_scenario video_info in
                    let file_id := v_file_id video_info in
                    match stg with
                    | expect_description =>
                        commit (upsert_answer_field user_id idx scenario
                                  file_id (W_description text)) ;;
                        set_stage (Some expect_adv_behavior) ;;
                        send R_ask_adv_behavior
                    | expect_adv_behavior =>
                        commit (upsert_answer_field user_id idx scenario
                                  file_id (W_adv_behavior text)) ;;
                        set_stage (Some expect_adv_choice) ;;
                        send R_ask_adv_choice
                    | expect_adv_choice =>
                        commit (upsert_answer_field user_id idx scenario
                                  file_id (W_adv_choice text)) ;;
                        set_stage (Some expect_rating) ;;
                        continue_experiment u
                    | expect_rating => send R_use_buttons
                    | _ => send R_step_error ;; clear_ud
                    end
                end
          end
      end
  end
  end.

(** [sub in s] *)
Fixpoint contains (s sub : string) : bool :=
  (startswith s sub
   || match s with
      | EmptyString => false
      | String _ s' => contains s' sub
      end)%bool.

Definition handle_gender_choice (u : update) (data : string) : M unit :=
  let user_id := u_id u in
  let gender := if contains data "female" then "Женский" else "Мужской" in
  ud <- get_ud ;;
  put_ud (mkUD (Some ask_age) (ud_participant_name ud) (Some gender)) ;;
  commit (create_participant (u_now u) user_id (u_username u)
            (u_first_name u) (ud_participant_name ud) (Some gender)
            None None None) ;;
  send (R_gender_recorded gender).

(** The body of the [try] of [handle_likert]; Telegram's [BadRequest] is a
    transport failure and is not modelled. *)
Definition handle_likert_body {py : Python}
    (u : update) (data : string) : M unit :=
  if negb (startswith data "likert_") then ret tt
  else
    match after_first "_" data with
    | None => raise IndexError
    | Some digits =>
        match parse_int digits with
        | None => raise ValueError
        | Some score =>
            if ((score <? 1) || (score >? 10))%bool then raise ValueError
            else
              let user_id := u_id u in
              participant <- query (λ d, get_participant d user_id) ;;
              match participant with
              | None => send R_session_missing_or_done ;; clear_ud
              | Some participant =>
                  if truthy (completed participant)
                  then send R_session_missing_or_done ;; clear_ud
                  else
                    let idx := current_video_idx participant in
                    let total := total_videos participant in
                    video_info <-
                      query (λ d, get_video_by_position d user_id idx) ;;
                    match video_info with
                    | None => send R_no_video
                    | Some video_info =>
                        let scenario := v_scenario video_info in
                        let file_id := v_file_id video_info in
                        commit (upsert_answer_field user_id idx scenario
                                  file_id (W_scenario_rating score)) ;;
                        let next_idx := idx + 1 in
                        if next_idx >=? total
                        then
                          commit (update_participant_progress user_id
                                    (Some next_idx) (Some true)) ;;
                          participant <-
                            query (λ d, get_participant d user_id) ;;
                          match participant with
                          | None => raise AttributeError
                          | Some participant =>
                              send_final_message participant ;; clear_ud
                          end
                        else
                          commit (update_participant_progress user_id
                                    (Some next_idx) None) ;;
                          send R_next_video ;;
                          set_stage None ;;
                          continue_experiment u
                    end
              end
        end
    end.

Definition handle_likert {py : Python} (u : update) (data : string) : M unit :=
  try_except (handle_likert_body u data) (λ _, send R_unexpected_error).

(** [handle_video]: [message] is [None] when [update.message] is, and
    otherwise tells whether the message has a video.  With no message the
    [else] branch is taken, and its [message.reply_text] raises. *)
Definition handle_video (u : update) (message : option bool) : M unit :=
  match message with
  | Some true => send R_file_id
  | Some false => send R_send_video
  | None => raise AttributeError
  end.

(** ** Dispatch and the event loop *)

(** The updates the registered handlers take.  The two message handlers
    and the command handler also take updates that carry an edited message;
    [update.message] is then [None].

    - [Ev_start message]: the command [/start]; [message] tells whether
      [update.message] is there.
    - [Ev_text message]: a text that is no command; [None] when
      [update.message] is [None].
    - [Ev_callback data]: a button of one of the bot's messages pressed.
    - [Ev_video message]: a video; [None] when [update.message] is [None],
      and otherwise whether that message has a video. *)
Inductive event :=
| Ev_start (message : bool)
| Ev_text (message : option string)
| Ev_callback (data : string)
| Ev_video (message : option bool).

(** [^likert_\d+$], as [re.match] applies it: the prefix, then [\d+$]. *)
Definition likert_pattern {py : Python} (data : string) : bool :=
  (startswith data "likert_"
   && match after_first "_" data with
      | Some rest => re_digits rest
      | None => false
      end)%bool.

(** The handlers in the order [main] registers them. *)
Definition dispatch {py : Python} (u : update) (e : event) : M unit :=
  match e with
  | Ev_start message => start_on message u
  | Ev_callback data =>
      if startswith data "gender_" then handle_gender_choice u data
      else if likert_pattern data then handle_likert u data
      else ret tt
  | Ev_text message => handle_text u message
  | Ev_video message => handle_video u message
  end.

(** The store and every user's [user_data]. *)
Record world := mkWorld {
  w_db : DB;
  w_user_data : gmap Z user_data
}.

Definition session_of (w : world) (user_id : Z) : user_data :=
  default ud_clear (w_user_data w !! user_id).

Definition enter (w : world) (u : update) : hstate :=
  mkH (w_db w) [] (session_of w (u_id u)) [].

(** An exception leaving a handler reaches [error_handler], which only
    sends a message: what was committed stays. *)
Definition leave (w : world) (u : update) (r : outcome unit * hstate)
    : world * list reply :=
  (mkWorld (st_db r.2) (<[u_id u := st_ud r.2]> (w_user_data w)),
   match r.1 with
   | Ok _ => st_sent r.2
   | Raise _ => R_handler_error :: st_sent r.2
   end).

Definition step {py : Python} (w : world) (x : update * event) : world :=
  (leave w x.1 (dispatch x.1 x.2 (enter w x.1))).1.

Definition run_events {py : Python}
    (w : world) (l : list (update * event)) : world :=
  foldl step w l.

Definition initial_world : world := mkWorld empty_db ∅.

(** The states the bot can be in between two events: it starts on an empty
    database, handles events one at a time, and may be restarted, which
    loses every [user_data] and keeps the database.  The snapshots
    committed while one event is handled are the [event_commits] of the
    step; [observable] collects them. *)
Inductive reachable {py : Python} : world → Prop :=
| reach_init : reachable initial_world
| reach_step w x : reachable w → reachable (step w x)
| reach_restart w : reachable w → reachable (mkWorld (w_db w) ∅).

(** ** The export script ([read_db.py]) *)

Fixpoint insert_sorted (x : Z) (l : list Z) : list Z :=
  match l with
  | [] => [x]
  | y :: l' => if x <=? y then x :: l else y :: insert_sorted x l'
  end.

Definition sort_Z (l : list Z) : list Z := foldr insert_sorted [] l.

(** The columns [load_participants] selects. *)
Record participant_export := mkPE {
  pe_user_id : Z;
  pe_tg_username : string;
  pe_first_name : string;
  pe_participant_name : option string;
  pe_gender : option string;
  pe_age : option Z;
  pe_condition : option string;
  pe_completed : Z;
  pe_created_at : string
}.

Definition participant_export_row (user_id : Z) (p : participant)
    : participant_export :=
  mkPE user_id (tg_username p) (first_name p) (participant_name p)
       (gender p) (age p) (condition p) (completed p) (created_at p).

(** [FROM participants ... ORDER BY user_id] *)
Definition participant_ids (d : DB) : list Z :=
  sort_Z (elements (dom (participants d))).

Definition load_participants (d : DB) : list participant_export :=
  omap (λ user_id, participant_export_row user_id <$> participants d !! user_id)
       (participant_ids d).

(** The columns [load_answers] selects; the columns of the two joined
    tables are null where the left join found no row. *)
Record answer_export := mkAE {
  ae_user_id : Z;
  ae_tg_username : string;
  ae_first_name : string;
  ae_participant_name : option string;
  ae_gender : option string;
  ae_age : option Z;
  ae_condition : option string;
  ae_video_position : option Z;
  ae_video_scenario : option string;
  ae_answer_description : option string;
  ae_answer_adv_behavior : option string;
  ae_answer_adv_choice : option string;
  ae_answer_scenario_rating : option Z
}.

Definition answer_export_row (user_id : Z) (p : participant)
    (v : option (Z * video_row)) (a : option answer) : answer_export :=
  mkAE user_id (tg_username p) (first_name p) (participant_name p)
       (gender p) (age p) (condition p)
       (fst <$> v) (v_scenario ∘ snd <$> v)
       (a ≫= description) (a ≫= adv_behavior) (a ≫= adv_choice)
       (a ≫= scenario_rating).

(** The positions of the rows of [video_sequence] of one user, in
    [ORDER BY v.position]. *)
Definition positions_of (d : DB) (user_id : Z) : list Z :=
  sort_Z (snd <$> filter (λ k, k.1 = user_id)
                    (elements (dom (video_sequence d)))).

(** [participants p LEFT JOIN video_sequence v ON v.user_id = p.user_id
     LEFT JOIN answers a ON a.user_id = p.user_id AND a.position = v.position]
    for one participant. *)
Definition joined_rows (d : DB) (user_id : Z) (p : participant)
    : list answer_export :=
  match positions_of d user_id with
  | [] => [answer_export_row user_id p None None]
  | ps =>
      omap (λ pos,
              (λ v, answer_export_row user_id p (Some (pos, v))
                      (answers d !! (user_id, pos)))
              <$> video_sequence d !! (user_id, pos))
           ps
  end.

Definition load_answers (d : DB) : list answer_export :=
  participant_ids d ≫=
    (λ user_id,
       match participants d !! user_id with
       | Some p => joined_rows d user_id p
       | None => []
       end).

(** ** The rule of the specification

    Section 4.3 of the specification, in its words and its order; the
    resolver of the source is compared with it below. *)

Definition unset {A} (o : option A) : bool :=
  match o with None => true | Some _ => false end.

Definition resolve (participant : option participant)
    (answer_for_current_position : option answer) : stage_t :=
  match participant with
  | None => no_participant
  | Some p =>
      if truthy (completed p) then finished
      else if current_video_idx p >=? total_videos p then finished
      else
        let row := answer_for_current_position in
        if (unset row || unset (row ≫= description))%bool
        then expect_description
        else if unset (row ≫= adv_behavior) then expect_adv_behavior
        else if unset (row ≫= adv_choice) then expect_adv_choice
        else if unset (row ≫= scenario_rating) then expect_rating
        else expect_description
  end.

(** The media reference of a scenario under a condition. *)
Definition file_of (cond scenario : string) : option string :=
  VIDEO_FILES !! cond ≫= (λ files, files !! scenario).

(** ** What the export may not depend on

    [forget_progress] blanks the two progress counters of a participant
    row; [scrub] blanks, in the whole store, the media references and the
    three progress columns. *)

Definition forget_progress (p : participant) : participant :=
  mkParticipant (tg_username p) (first_name p) (participant_name p)
    (gender p) (age p) (condition p) 0 0 (completed p) (created_at p).

Definition scrub_participant (p : participant) : participant :=
  mkParticipant (tg_username p) (first_name p) (participant_name p)
    (gender p) (age p) (condition p) 0 0 0 (created_at p).

Definition scrub_video (v : video_row) : video_row :=
  mkVideo (v_condition v) (v_scenario v) "".

Definition scrub_answer (a : answer) : answer :=
  mkAnswer (a_scenario a) "" (description a) (adv_behavior a) (adv_choice a)
    (scenario_rating a).

Definition scrub (d : DB) : DB :=
  mkDB (users d) (scrub_participant <$> participants d)
       (scrub_video <$> video_sequence d) (scrub_answer <$> answers d).

(** Two stores with one participant, who differs in the position only. *)
Definition export_db (idx : Z) : DB :=
  mkDB ∅
       {[ 1 := mkParticipant "alex_tg" "Al" (Some "Alex") (Some "Женский")
                 (Some 29) (Some "с") idx 4 0 "2025-01-01 10:00:00" ]}
       ∅ ∅.

(** ** How a handler may touch the store *)

(** A computation that leaves the store and the commit list alone. *)
Definition read_only {A} (m : M A) : Prop :=
  ∀ s, st_db (m s).2 = st_db s ∧ st_commits (m s).2 = st_commits s.

(** A row as [create_participant] inserts it. *)
Definition fresh_row (p : participant) : Prop :=
  current_video_idx p = 0 ∧ completed p = 0 ∧ total_videos p = 4.

(** The two ways one handler run changes the progress columns of a row:
    not at all (the total may be set to the number of scenarios), or by one
    advance of a participant who has not completed. *)
Definition row_kept (p p' : participant) : Prop :=
  current_video_idx p' = current_video_idx p ∧
  completed p' = completed p ∧
  (total_videos p' = total_videos p ∨ total_videos p' = 4).

Definition row_advanced (p p' : participant) : Prop :=
  completed p = 0 ∧
  total_videos p' = total_videos p ∧
  current_video_idx p' = current_video_idx p + 1 ∧
  completed p' =
    (if current_video_idx p + 1 >=? total_videos p then 1 else 0).

Definition rows_related (R : participant → participant → Prop)
    (d d' : DB) : Prop :=
  ∀ user_id,
    match participants d !! user_id with
    | Some p => ∃ p', participants d' !! user_id = Some p' ∧ R p p'
    | None =>
        participants d' !! user_id = None ∨
        ∃ p', participants d' !! user_id = Some p' ∧ fresh_row p'
    end.

Definition keeps_progress : DB → DB → Prop := rows_related row_kept.

Definition db_step : DB → DB → Prop :=
  rows_related (λ p p', row_kept p p' ∨ row_advanced p p').

Definition M_keeps {A} (m : M A) : Prop :=
  ∀ s, keeps_progress (st_db s) (st_db (m s).2).

(** The invariant of a participant row. *)
Definition row_ok (p : participant) : Prop :=
  total_videos p = 4 ∧
  ((completed p = 0 ∧ 0 ≤ current_video_idx p < 4) ∨
   (completed p = 1 ∧ current_video_idx p = 4)).

Definition db_ok (d : DB) : Prop :=
  ∀ user_id p, participants d !! user_id = Some p → row_ok p.

(** The score a callback carries when [handle_likert] accepts it. *)
Definition likert_score {py : Python} (data : string) : option Z :=
  if startswith data "likert_" then
    match after_first "_" data ≫= parse_int with
    | Some score =>
        if ((score <? 1) || (score >? 10))%bool then None else Some score
    | None => None
    end
  else None.

(** The snapshots a run of [handle_likert] commits, newest first: the
    rating, then the progress. *)
Definition likert_commits {py : Python}
    (user_id : Z) (data : string) (d : DB) : list DB :=
  match likert_score data with
  | None => []
  | Some score =>
      match get_participant d user_id with
      | None => []
      | Some p =>
          if truthy (completed p) then []
          else
            let idx := current_video_idx p in
            match get_video_by_position d user_id idx with
            | None => []
            | Some v =>
                let d1 :=
                  upsert_answer_field user_id idx (v_scenario v) (v_file_id v)
                    (W_scenario_rating score) d in
                let d2 :=
                  update_participant_progress user_id (Some (idx + 1))
                    (if idx + 1 >=? total_videos p then Some true else None)
                    d1 in
                [d2; d1]
            end
      end
  end.

(** ** Sample runs *)

Definition alex : update :=
  mkUpdate 7 (Some "alex_tg") (Some "Al") "2025-01-01 10:00:00" 1%nat
    (λ _, 0%nat).

(** Intake with the gender given by button. *)
Definition intake_by_button : list (update * event) :=
  [(alex, Ev_start true); (alex, Ev_text (Some "Alex"));
   (alex, Ev_callback "gender_female")].

(** The answers to one video, the rating apart. *)
Definition three_answers : list (update * event) :=
  [(alex, Ev_text (Some "робот берёт пиццу"));
   (alex, Ev_text (Some "уверенно"));
   (alex, Ev_text (Some "быстро"))].

Definition one_video : list (update * event) :=
  (three_answers ++ [(alex, Ev_callback "likert_7")])%list.

(** Intake done, the first video shown. *)
Definition world_at_video_0 : world :=
  run_events initial_world
    (intake_by_button ++ [(alex, Ev_text (Some "29"))])%list.

(** Three videos rated, the fourth answered up to the rating. *)
Definition world_at_last_rating : world :=
  run_events world_at_video_0
    (one_video ++ one_video ++ one_video ++ three_answers)%list.

(** The participant row and the assigned video in [world_at_last_rating]. *)
Definition alex_at_last_rating : participant :=
  mkParticipant "alex_tg" "Al" (Some "быстро") (Some "Женский") (Some 29)
    (Some "с") 3 4 0 "2025-01-01 10:00:00".

Definition alex_last_video : video_row :=
  mkVideo "с" "Пицца"
    "BAACAgIAAxkBAAMFaR3tP22-guoJN43uoEp3wNG8O7IAAuOGAAK3mfBIzJd2fp1Quv42BA".

(** The name given, the gender asked. *)
Definition world_at_gender : world :=
  run_events initial_world [(alex, Ev_start true); (alex, Ev_text (Some "Alex"))].

(** Intake by button up to the age question. *)
Definition world_at_age : world := run_events initial_world intake_by_button.

(** ** Relations between the store before and after a computation *)

Definition M_rel (R : DB → DB → Prop) {A} (m : M A) : Prop :=
  ∀ s, R (st_db s) (st_db (m s).2).

(** Nothing of another user than [user_id] differs: participant rows,
    assignment rows and answer rows. *)
Definition same_elsewhere (user_id : Z) (d d' : DB) : Prop :=
  ∀ other, other ≠ user_id →
    participants d' !! other = participants d !! other ∧
    (∀ pos, video_sequence d' !! (other, pos) = video_sequence d !! (other, pos)) ∧
    (∀ pos, answers d' !! (other, pos) = answers d !! (other, pos)).

(** An answer row that lost no field: what was filled is still filled. *)
Definition answer_grows (a a' : answer) : Prop :=
  (is_Some (description a) → is_Some (description a')) ∧
  (is_Some (adv_behavior a) → is_Some (adv_behavior a')) ∧
  (is_Some (adv_choice a) → is_Some (adv_choice a')) ∧
  (is_Some (scenario_rating a) → is_Some (scenario_rating a')).

Definition answers_grow (d d' : DB) : Prop :=
  ∀ k a, answers d !! k = Some a →
    ∃ a', answers d' !! k = Some a' ∧ answer_grows a a'.

(** The assignment of a user is absent or whole: one row at each of the
    positions 0 to 3 and none elsewhere, the scenarios a permutation of the
    scenario set, every row with one recognized condition and the media
    reference of its scenario under it. *)
Definition assignment_row (cond : string) (order : list string) (pos : Z)
    : option video_row :=
  if decide (0 ≤ pos < 4) then
    scenario ← order !! Z.to_nat pos;
    file_id ← file_of cond scenario;
    Some (mkVideo cond scenario file_id)
  else None.

Definition assignment_ok (d : DB) (user_id : Z) : Prop :=
  (∀ pos, video_sequence d !! (user_id, pos) = None) ∨
  ∃ cond order,
    cond ∈ VIDEO_CONDITIONS ∧ order ≡ₚ SCENARIOS ∧
    ∀ pos, video_sequence d !! (user_id, pos) = assignment_row cond order pos.

Definition assignments_ok (d : DB) : Prop := ∀ user_id, assignment_ok d user_id.

(** The answer field a text fills at a stage of the per-video questions. *)
Definition text_field (stg : stage_t) (text : string) : option field_write :=
  match stg with
  | expect_description => Some (W_description text)
  | expect_adv_behavior => Some (W_adv_behavior text)
  | expect_adv_choice => Some (W_adv_choice text)
  | _ => None
  end.

(** The participant row and the first assigned video in [world_at_video_0]. *)
Definition alex_at_video_0 : participant :=
  mkParticipant "alex_tg" "Al" (Some "Alex") (Some "Женский") (Some 29)
    (Some "с") 0 4 0 "2025-01-01 10:00:00".

Definition alex_first_video : video_row :=
  mkVideo "с" "Наперстки"
    "BAACAgIAAxkBAAMJaR3tl8kAAYky84H0z-zVin07co-0AALohgACt5nwSPu4xsh4TUauNgQ".

(** The store after the [create_participant] that [handle_text] runs for
    every text past the name question. *)
Definition after_text_upsert {py : Python}
    (u : update) (text : string) (d : DB) : DB :=
  create_participant (u_now u) (u_id u) (Some (or_empty (u_username u)))
    (Some (or_empty (u_first_name u))) (Some (strip text)) None None None None
    d.

(** The sample run completed: the last rating given. *)
Definition world_completed : world :=
  step world_at_last_rating (alex, Ev_callback "likert_7").

Definition alex_completed : participant :=
  mkParticipant "alex_tg" "Al" (Some "быстро") (Some "Женский") (Some 29)
    (Some "с") 4 4 1 "2025-01-01 10:00:00".

(** A second user. *)
Definition bea : update :=
  mkUpdate 8 None (Some "Bea") "2025-01-02 09:30:00" 0%nat (λ i, i).

(** The age question reached, then the bot restarted: the sessions are
    gone, the store is kept. *)
Definition world_restarted_at_age : world := mkWorld (w_db world_at_age) ∅.

(** The store after the three writes of the age branch of [handle_text]
    that precede the assignment: the upsert every text runs, the intake
    fields, the condition with the total. *)
Definition after_age_writes {py : Python}
    (u : update) (text : string) (ud : user_data)
    (age : Z) (cond : string) (d : DB) : DB :=
  create_participant (u_now u) (u_id u) (u_username u) (u_first_name u)
    None None None (Some cond) (Some (Z.of_nat (length SCENARIOS)))
    (create_participant (u_now u) (u_id u) (u_username u) (u_first_name u)
       (Some (strip (or_empty (ud_participant_name ud))))
       (Some (strip (or_empty (ud_gender ud)))) (Some age) None None
       (after_text_upsert u text d)).

(** The condition stored for a user, if any. *)
Definition condition_of (d : DB) (user_id : Z) : option string :=
  get_participant d user_id ≫= condition.

(** The stored condition and the assignment of a user agree: neither is
    there, or the assignment is whole under the stored condition. *)
Definition condition_assigned (d : DB) (user_id : Z) : Prop :=
  (condition_of d user_id = None ∧
   ∀ pos, video_sequence d !! (user_id, pos) = None) ∨
  ∃ cond order,
    condition_of d user_id = Some cond ∧
    cond ∈ VIDEO_CONDITIONS ∧ order ≡ₚ SCENARIOS ∧
    ∀ pos, video_sequence d !! (user_id, pos) = assignment_row cond order pos.

(** The order of the answers sheet, [ORDER BY p.user_id, v.position]: by
    user, and for one user by position. *)
Definition answer_row_before (r1 r2 : answer_export) : Prop :=
  ae_user_id r1 < ae_user_id r2 ∨
  (ae_user_id r1 = ae_user_id r2 ∧
   ∃ pos1 pos2, ae_video_position r1 = Some pos1 ∧
                ae_video_position r2 = Some pos2 ∧ pos1 < pos2).

(** ** The rating keyboard

    [str(i)] of an integer: its decimal digits, a minus sign before them
    when it is negative.  The fuel bounds the number of digits. *)

Definition digit_char (n : Z) : ascii := ascii_of_nat (Z.to_nat (48 + n)).

Fixpoint str_digits (fuel : nat) (n : Z) (acc : string) : string :=
  match fuel with
  | O => acc
  | S fuel' =>
      let acc' := String (digit_char (n mod 10)) acc in
      if n / 10 =? 0 then acc' else str_digits fuel' (n / 10) acc'
  end.

Definition str_int (n : Z) : string :=
  if n <? 0 then String "-" (str_digits (Z.to_nat (- n)) (- n) EmptyString)
  else str_digits (S (Z.to_nat n)) n EmptyString.

(** [range(start, stop)] *)
Definition range (start stop : Z) : list Z :=
  (λ i, start + Z.of_nat i) <$> seq 0 (Z.to_nat (stop - start)).

(** A button: its label and its callback data. *)
Definition button : Type := string * string.

(** The loop of [send_scenario_rating_question] that lays the buttons out
    in rows of five, with the [if row:] after it. *)
Fixpoint keyboard_rows (items : list Z) (row : list button)
    (keyboard : list (list button)) : list (list button) :=
  match items with
  | [] =>
      match row with
      | [] => keyboard
      | _ => (keyboard ++ [row])%list
      end
  | i :: rest =>
      let row := (row ++ [(str_int i, String.append "likert_" (str_int i))])%list in
      if (length row =? 5)%nat
      then keyboard_rows rest [] (keyboard ++ [row])%list
      else keyboard_rows rest row keyboard
  end.

Definition rating_keyboard : list (list button) :=
  keyboard_rows (range 1 11) [] [].

(** The first video answered up to the rating. *)
Definition world_at_first_rating : world :=
  run_events world_at_video_0 three_answers.

Definition alex_at_first_rating : participant :=
  mkParticipant "alex_tg" "Al" (Some "быстро") (Some "Женский") (Some 29)
    (Some "с") 0 4 0 "2025-01-01 10:00:00".

(** The answer row at the last position in [world_at_last_rating]. *)
Definition alex_last_answer : answer :=
  mkAnswer "Пицца"
    "BAACAgIAAxkBAAMFaR3tP22-guoJN43uoEp3wNG8O7IAAuOGAAK3mfBIzJd2fp1Quv42BA"
    (Some "робот берёт пиццу") (Some "уверенно") (Some "быстро") None.

(** The updates whose handler reads [update.message] without a guard
    while there is none. *)
Definition message_missing (e : event) : bool :=
  match e with
  | Ev_start false | Ev_video None => true
  | _ => false
  end.

(** The snapshots that handling one event commits, newest first. *)
Definition event_commits {py : Python} (w : world) (x : update * event)
    : list DB :=
  st_commits (dispatch x.1 x.2 (enter w x.1)).2.

(** The stores a reader of the database file can meet, the export script
    among them: the store of a reachable state, and every snapshot
    committed while an event is handled in one. *)
Definition observable {py : Python} (d : DB) : Prop :=
  ∃ w, reachable w ∧ (d = w_db w ∨ ∃ x, d ∈ event_commits w x).

(** No user's stored condition and no assignment row differs. *)
Definition same_assignment (d d' : DB) : Prop :=
  ∀ user_id,
    condition_of d' user_id = condition_of d user_id ∧
    ∀ pos, video_sequence d' !! (user_id, pos)
           = video_sequence d !! (user_id, pos).

(** What holds of a user's condition and assignment in every snapshot: the
    assignment is absent or whole, and where there are rows a recognized
    condition is stored. *)
Definition condition_before_rows (d : DB) (user_id : Z) : Prop :=
  assignment_ok d user_id ∧
  ((∃ pos, is_Some (video_sequence d !! (user_id, pos))) →
   ∃ cond, condition_of d user_id = Some cond ∧ cond ∈ VIDEO_CONDITIONS).

(** The third snapshot of the sample intake's age step: the condition is
    stored, the assignment is not yet. *)
Definition alex_condition_stored : DB :=
  after_age_writes alex "29" (session_of world_at_age 7) 29 "с"
    (w_db world_at_age).

(** * Properties *)

Example ascii_int_29 : ascii_int " 29 " = Some 29.
Proof. reflexivity. Qed.

Example ascii_int_double_underscore : ascii_int "1__0" = None.
Proof. reflexivity. Qed.

Example shuffle_zero_draws :
  shuffle (λ _, 0%nat) [1; 2; 3; 4] = [2; 3; 4; 1].
Proof. reflexivity. Qed.

(** ** The Progress Resolver *)

(** C1. For every store and user, [determine_next_stage] returns the stage
    the fixed-order rule of the specification gives for the participant row
    and the answer row at the participant's current position. *)
Theorem determine_next_stage_rule (d : DB) (user_id : Z) :
  determine_next_stage d user_id =
  resolve (get_participant d user_id)
          (get_participant d user_id ≫=
             λ p, get_answer d user_id (current_video_idx p)).
Proof.
  unfold determine_next_stage, resolve.
  destruct (get_participant d user_id) as [p|]; simpl; [|reflexivity].
  destruct (truthy (completed p)); [reflexivity|].
  destruct (current_video_idx p >=? total_videos p); [reflexivity|].
  destruct (get_answer d user_id (current_video_idx p)) as [a|]; simpl;
    [|reflexivity].
  destruct (description a), (adv_behavior a), (adv_choice a),
    (scenario_rating a); reflexivity.
Qed.

(** ** The Sequence Generator *)

Section Shuffle.
Context {A : Type}.

Lemma swap_perm (i j : nat) (x : list A) : swap i j x ≡ₚ x.
Proof.
  unfold swap.
  destruct (x !! i) as [a|] eqn:Hi; [|reflexivity].
  destruct (x !! j) as [b|] eqn:Hj; [|reflexivity].
  by apply Permutation_insert_swap.
Qed.

Lemma shuffle_from_perm (draws : nat → nat) (i : nat) (x : list A) :
  shuffle_from draws i x ≡ₚ x.
Proof.
  revert x. induction i as [|i IH]; intros x; simpl; [reflexivity|].
  rewrite IH. apply swap_perm.
Qed.

Lemma shuffle_perm (draws : nat → nat) (x : list A) : shuffle draws x ≡ₚ x.
Proof. apply shuffle_from_perm. Qed.

End Shuffle.

Lemma collect_videos_fst files scen videos :
  collect_videos files scen = Some videos → videos.*1 = scen.
Proof.
  revert videos. induction scen as [|sc scen IH]; intros videos; simpl.
  - by intros [= <-].
  - destruct (files !! sc) as [f|]; [|done].
    destruct (collect_videos files scen) as [vs|]; [|done].
    intros [= <-]. simpl. f_equal. by apply IH.
Qed.

Lemma collect_videos_file files scen videos sc f :
  collect_videos files scen = Some videos →
  (sc, f) ∈ videos → files !! sc = Some f.
Proof.
  revert videos. induction scen as [|sc' scen IH]; intros videos; simpl.
  - intros [= <-]. by intros ?%elem_of_nil.
  - destruct (files !! sc') as [f'|] eqn:Hf; [|done].
    destruct (collect_videos files scen) as [vs|]; [|done].
    intros [= <-] [Heq|Hin]%elem_of_cons.
    + by simplify_eq.
    + by eapply IH.
Qed.

Lemma collect_videos_None files scen :
  collect_videos files scen = None ↔ ∃ sc, sc ∈ scen ∧ files !! sc = None.
Proof.
  induction scen as [|sc scen IH]; simpl.
  - split; [done|]. by intros (? & ?%elem_of_nil & _).
  - destruct (files !! sc) as [f|] eqn:Hf.
    + destruct (collect_videos files scen) as [vs|].
      * split; [done|]. intros (sc' & [->|Hin]%elem_of_cons & Hn).
        -- congruence.
        -- assert (@None (list (string * string)) = Some vs) as Habs; [|done].
           symmetry. apply IH. eauto.
      * split; [|done]. intros _.
        destruct IH as [IH _]. destruct (IH eq_refl) as (sc' & ? & ?).
        exists sc'. split; [by right|done].
    + split; [|done]. intros _. exists sc. split; [by left|done].
Qed.

Lemma delete_sequence_lookup_same user_id m pos :
  delete_sequence user_id m !! (user_id, pos) = None.
Proof.
  unfold delete_sequence. apply map_lookup_filter_None.
  right. intros x _. simpl. by intros H.
Qed.

Lemma delete_sequence_lookup_other user_id m uid' pos :
  uid' ≠ user_id →
  delete_sequence user_id m !! (uid', pos) = m !! (uid', pos).
Proof.
  intros Hne. unfold delete_sequence. rewrite map_lookup_filter.
  destruct (m !! (uid', pos)); simpl; [|done].
  by rewrite option_guard_True.
Qed.

Lemma insert_sequence_lookup_other user_id cond start videos m uid' pos :
  uid' ≠ user_id →
  insert_sequence user_id cond start videos m !! (uid', pos) = m !! (uid', pos).
Proof.
  intros Hne. revert start m.
  induction videos as [|[sc f] videos IH]; intros start m; simpl; [done|].
  rewrite IH. apply lookup_insert_ne. congruence.
Qed.

Lemma insert_sequence_lookup user_id cond start videos m pos :
  insert_sequence user_id cond start videos m !! (user_id, pos) =
  if decide (start ≤ pos < start + Z.of_nat (length videos))
  then (λ v, mkVideo cond v.1 v.2) <$> videos !! Z.to_nat (pos - start)
  else m !! (user_id, pos).
Proof.
  revert start m.
  induction videos as [|[sc f] videos IH]; intros start m; simpl length.
  - simpl. case_decide; [lia|done].
  - simpl insert_sequence. rewrite IH.
    destruct (decide (pos = start)) as [->|Hne].
    + rewrite decide_False by lia. rewrite lookup_insert_eq.
      rewrite decide_True by lia. by rewrite Z.sub_diag.
    + rewrite lookup_insert_ne by congruence.
      repeat case_decide; try lia; try done.
      replace (Z.to_nat (pos - start)) with (S (Z.to_nat (pos - (start + 1))))
        by lia.
      done.
Qed.

Lemma create_video_sequence_with_ok table scen draws user_id cond files videos s :
  table !! cond = Some files →
  collect_videos files scen = Some videos →
  create_video_sequence_with table scen draws user_id cond s =
  let d' := replace_sequence user_id cond (shuffle draws videos) (st_db s) in
  (Ok tt, mkH d' (d' :: st_commits s) (st_ud s) (st_sent s)).
Proof.
  intros Ht Hc. unfold create_video_sequence_with. by rewrite Ht, Hc.
Qed.

(** Lookups in the literal tables, by the insertions that build them. *)
Ltac table_lookup :=
  cbn [list_to_map foldr uncurry curry fst snd collect_videos];
  repeat (rewrite lookup_insert_eq || rewrite lookup_insert_ne by done).

Lemma recognized_condition_videos cond :
  cond ∈ VIDEO_CONDITIONS →
  ∃ files videos,
    VIDEO_FILES !! cond = Some files ∧
    collect_videos files SCENARIOS = Some videos.
Proof.
  unfold VIDEO_CONDITIONS.
  intros [->|[->|[]%elem_of_nil]%elem_of_cons]%elem_of_cons;
    unfold VIDEO_FILES, SCENARIOS; table_lookup;
    eexists; eexists; (split; [reflexivity|]); table_lookup; reflexivity.
Qed.

Lemma SCENARIOS_NoDup : NoDup SCENARIOS.
Proof. apply (bool_decide_unpack _). by vm_compute. Qed.

(** C7. For a recognized condition the Sequence Generator succeeds with one
    commit, in which the participant's old rows are gone and the new rows
    sit at the positions 0 to 3 and nowhere else; their scenarios, read in
    position order, are a duplicate-free permutation of the scenario set,
    and each row carries the given condition and the media reference of its
    scenario under it.  The rows of other participants and the other tables
    are as before. *)
Theorem sequence_generator_permutation
    (draws : nat → nat) (user_id : Z) (cond : string) (s : hstate) :
  cond ∈ VIDEO_CONDITIONS →
  ∃ order : list string,
    order ≡ₚ SCENARIOS ∧ NoDup order ∧
    let r := create_video_sequence_for_participant draws user_id cond s in
    let d := st_db s in
    let d' := st_db r.2 in
    r.1 = Ok tt ∧
    st_commits r.2 = d' :: st_commits s ∧
    (∀ pos, is_Some (video_sequence d' !! (user_id, pos)) ↔ 0 ≤ pos < 4) ∧
    (∀ pos, 0 ≤ pos < 4 →
       ∃ scenario file_id,
         order !! Z.to_nat pos = Some scenario ∧
         file_of cond scenario = Some file_id ∧
         video_sequence d' !! (user_id, pos) =
           Some (mkVideo cond scenario file_id)) ∧
    (∀ uid' pos, uid' ≠ user_id →
       video_sequence d' !! (uid', pos) = video_sequence d !! (uid', pos)) ∧
    users d' = users d ∧ participants d' = participants d ∧
    answers d' = answers d.
Proof.
  intros Hcond.
  destruct (recognized_condition_videos cond Hcond)
    as (files & videos & Hfiles & Hvideos).
  pose proof (shuffle_perm draws videos) as Hperm.
  pose proof (collect_videos_fst _ _ _ Hvideos) as Hfst.
  assert (Horder : (shuffle draws videos).*1 ≡ₚ SCENARIOS).
  { rewrite <- Hfst. by apply fmap_Permutation. }
  assert (Hlen : length (shuffle draws videos) = 4%nat).
  { rewrite <- (length_fmap fst). by rewrite Horder. }
  exists ((shuffle draws videos).*1).
  split; [done|]. split; [rewrite Horder; apply SCENARIOS_NoDup|].
  unfold create_video_sequence_for_participant.
  rewrite (create_video_sequence_with_ok _ _ _ _ _ _ _ _ Hfiles Hvideos).
  cbn -[shuffle SCENARIOS].
  split; [done|]. split; [done|].
  assert (Hrow : ∀ pos,
    insert_sequence user_id cond 0 (shuffle draws videos)
      (delete_sequence user_id (video_sequence (st_db s))) !! (user_id, pos) =
    if decide (0 ≤ pos < 4)
    then (λ v, mkVideo cond v.1 v.2) <$> shuffle draws videos !! Z.to_nat pos
    else None).
  { intros pos. rewrite insert_sequence_lookup, Hlen, Z.sub_0_r.
    case_decide; case_decide; try lia; try done.
    apply delete_sequence_lookup_same. }
  split; [|split; [|split]].
  - intros pos. rewrite Hrow. case_decide as Hpos.
    + split; [done|]. intros _.
      destruct (lookup_lt_is_Some_2 (shuffle draws videos) (Z.to_nat pos))
        as [v Hv]; [lia|].
      rewrite Hv. by eexists.
    + split; [by intros [? ?]|done].
  - intros pos Hpos. rewrite Hrow, decide_True by done.
    destruct (lookup_lt_is_Some_2 (shuffle draws videos) (Z.to_nat pos))
      as [[sc f] Hv]; [lia|].
    exists sc, f. rewrite list_lookup_fmap, Hv. simpl.
    split; [done|]. split; [|done].
    unfold file_of. rewrite Hfiles. simpl.
    eapply collect_videos_file; [done|].
    rewrite <- Hperm. by eapply list_elem_of_lookup_2.
  - intros uid' pos Hne.
    rewrite insert_sequence_lookup_other by done.
    by apply delete_sequence_lookup_other.
  - done.
Qed.

(** The generator run for user 7 under the second condition, on an empty
    store, with every draw 0. *)
Lemma sequence_generator_permutation_witness :
  "с" ∈ VIDEO_CONDITIONS ∧
  ∃ order : list string,
    order ≡ₚ SCENARIOS ∧ NoDup order ∧
    let s := mkH empty_db [] ud_clear [] in
    let r := create_video_sequence_for_participant (λ _, 0%nat) 7 "с" s in
    let d := st_db s in
    let d' := st_db r.2 in
    r.1 = Ok tt ∧
    st_commits r.2 = d' :: st_commits s ∧
    (∀ pos, is_Some (video_sequence d' !! (7, pos)) ↔ 0 ≤ pos < 4) ∧
    (∀ pos, 0 ≤ pos < 4 →
       ∃ scenario file_id,
         order !! Z.to_nat pos = Some scenario ∧
         file_of "с" scenario = Some file_id ∧
         video_sequence d' !! (7, pos) =
           Some (mkVideo "с" scenario file_id)) ∧
    (∀ uid' pos, uid' ≠ 7 →
       video_sequence d' !! (uid', pos) = video_sequence d !! (uid', pos)) ∧
    users d' = users d ∧ participants d' = participants d ∧
    answers d' = answers d.
Proof.
  assert (H : "с" ∈ VIDEO_CONDITIONS)
    by (apply (bool_decide_unpack _); by vm_compute).
  split; [exact H|].
  exact (sequence_generator_permutation (λ _, 0%nat) 7 "с"
           (mkH empty_db [] ud_clear []) H).
Defined.

(** C8. The Sequence Generator raises exactly when the condition is no key
    of the media table or some scenario of the scenario set has no media
    reference under it; it then raises [ValueError] with the handler state,
    store and commit list included, exactly as it was.  With the tables of
    the source, this is exactly when the condition is not one of the two
    recognized values. *)
Theorem sequence_generator_failure
    (table : gmap string (gmap string string)) (scen : list string)
    (draws : nat → nat) (user_id : Z) (cond : string) (s : hstate) :
  let r := create_video_sequence_with table scen draws user_id cond s in
  ((∃ e, r.1 = Raise e) ↔
     (table !! cond = None ∨
      ∃ scenario, scenario ∈ scen ∧
        table !! cond ≫= (λ files, files !! scenario) = None)) ∧
  ((∃ e, r.1 = Raise e) → r = (Raise ValueError, s)) ∧
  ((∃ e, (create_video_sequence_for_participant draws user_id cond s).1
         = Raise e) ↔ cond ∉ VIDEO_CONDITIONS).
Proof.
  assert (Hgen : ∀ table scen,
    let r := create_video_sequence_with table scen draws user_id cond s in
    ((∃ e, r.1 = Raise e) ↔
       (table !! cond = None ∨
        ∃ scenario, scenario ∈ scen ∧
          table !! cond ≫= (λ files, files !! scenario) = None)) ∧
    ((∃ e, r.1 = Raise e) → r = (Raise ValueError, s))).
  { clear table scen. intros table scen. unfold create_video_sequence_with.
    destruct (table !! cond) as [files|] eqn:Ht; simpl.
    - destruct (collect_videos files scen) as [videos|] eqn:Hc; simpl.
      + split.
        * split; [by intros [? ?]|].
          intros [?|(sc & Hin & Hsc)]; [done|].
          assert (collect_videos files scen = None) as Habs
            by (apply collect_videos_None; eauto).
          congruence.
        * by intros [? ?].
      + split; [|done]. split; [|by eexists].
        intros _. right. by apply collect_videos_None.
    - split; [|done]. split; [by left|by eexists]. }
  simpl. split; [apply Hgen|]. split; [apply Hgen|].
  unfold create_video_sequence_for_participant.
  destruct (Hgen VIDEO_FILES SCENARIOS) as [-> _].
  split.
  - intros Hfail Hin.
    destruct (recognized_condition_videos cond Hin)
      as (files & videos & Hfiles & Hvideos).
    destruct Hfail as [Hn|(sc & Hsc & Hn)]; [congruence|].
    rewrite Hfiles in Hn. simpl in Hn.
    assert (collect_videos files SCENARIOS = None) as Habs
      by (apply collect_videos_None; eauto).
    congruence.
  - intros Hnot. left.
    apply not_elem_of_list_to_map. exact Hnot.
Qed.

(** ** The export *)

Lemma insert_sorted_perm x l : insert_sorted x l ≡ₚ x :: l.
Proof.
  induction l as [|y l IH]; simpl; [done|].
  destruct (x <=? y); [done|]. rewrite IH. apply perm_swap.
Qed.

Lemma sort_Z_perm l : sort_Z l ≡ₚ l.
Proof.
  induction l as [|x l IH]; simpl; [done|].
  rewrite insert_sorted_perm. by rewrite IH.
Qed.

Lemma elem_of_participant_ids d user_id :
  user_id ∈ participant_ids d ↔ is_Some (participants d !! user_id).
Proof.
  unfold participant_ids. rewrite sort_Z_perm, elem_of_elements.
  apply elem_of_dom.
Qed.

Lemma elem_of_positions_of d user_id pos :
  pos ∈ positions_of d user_id ↔ is_Some (video_sequence d !! (user_id, pos)).
Proof.
  unfold positions_of. rewrite sort_Z_perm, list_elem_of_fmap.
  split.
  - intros ([uid' pos'] & -> & [Hk Hin]%list_elem_of_filter).
    simpl in *. subst uid'. by apply elem_of_dom, elem_of_elements.
  - intros His. exists (user_id, pos). split; [done|].
    apply list_elem_of_filter. split; [done|].
    by apply elem_of_elements, elem_of_dom.
Qed.

Lemma elem_of_load_participants d row :
  row ∈ load_participants d ↔
  ∃ user_id p, participants d !! user_id = Some p ∧
               row = participant_export_row user_id p.
Proof.
  unfold load_participants. rewrite list_elem_of_omap. split.
  - intros (uid & _ & Hrow).
    destruct (participants d !! uid) as [p|] eqn:Hp; [|done].
    exists uid, p. by simplify_eq/=.
  - intros (uid & p & Hp & ->). exists uid. split.
    + apply elem_of_participant_ids. by eexists.
    + by rewrite Hp.
Qed.

Lemma elem_of_load_answers d row :
  row ∈ load_answers d ↔
  ∃ user_id p, participants d !! user_id = Some p ∧
               row ∈ joined_rows d user_id p.
Proof.
  unfold load_answers. rewrite list_elem_of_bind. split.
  - intros (uid & Hrow & _).
    destruct (participants d !! uid) as [p|] eqn:Hp.
    + by exists uid, p.
    + by apply elem_of_nil in Hrow.
  - intros (uid & p & Hp & Hrow). exists uid. rewrite Hp. split; [done|].
    apply elem_of_participant_ids. by eexists.
Qed.

Lemma elem_of_joined_rows d user_id p row :
  row ∈ joined_rows d user_id p ↔
  (positions_of d user_id = [] ∧ row = answer_export_row user_id p None None)
  ∨ ∃ pos v, video_sequence d !! (user_id, pos) = Some v ∧
             row = answer_export_row user_id p (Some (pos, v))
                     (answers d !! (user_id, pos)).
Proof.
  unfold joined_rows.
  destruct (positions_of d user_id) as [|pos0 ps] eqn:Hps.
  - rewrite list_elem_of_singleton. split; [by left|].
    intros [[_ ->]|(pos & v & Hv & _)]; [done|].
    assert (pos ∈ positions_of d user_id) as Hin
      by (apply elem_of_positions_of; by eexists).
    rewrite Hps in Hin. by apply elem_of_nil in Hin.
  - rewrite list_elem_of_omap. split.
    + intros (pos & _ & Hrow). right.
      destruct (video_sequence d !! (user_id, pos)) as [v|] eqn:Hv; [|done].
      exists pos, v. by simplify_eq/=.
    + intros [[? _]|(pos & v & Hv & ->)]; [done|].
      exists pos. rewrite <- Hps. split.
      * apply elem_of_positions_of. by eexists.
      * by rewrite Hv.
Qed.

Lemma participant_ids_scrub d : participant_ids (scrub d) = participant_ids d.
Proof. unfold participant_ids, scrub. simpl. by rewrite dom_fmap_L. Qed.

Lemma positions_of_scrub d user_id :
  positions_of (scrub d) user_id = positions_of d user_id.
Proof. unfold positions_of, scrub. simpl. by rewrite dom_fmap_L. Qed.

Lemma joined_rows_scrub d user_id p :
  joined_rows (scrub d) user_id (scrub_participant p) = joined_rows d user_id p.
Proof.
  unfold joined_rows. rewrite positions_of_scrub.
  destruct (positions_of d user_id) as [|pos0 ps]; [done|].
  apply list_omap_ext, Forall2_same_length_lookup_2; [done|].
  intros i pos pos' Hi Hi'. simplify_eq. unfold scrub. simpl.
  rewrite !lookup_fmap.
  destruct (video_sequence d !! (user_id, pos)) as [v|]; [|done].
  by destruct (answers d !! (user_id, pos)).
Qed.

Lemma load_answers_scrub d : load_answers (scrub d) = load_answers d.
Proof.
  unfold load_answers. rewrite participant_ids_scrub.
  apply list_bind_ext; [|done]. intros uid.
  unfold scrub at 1. simpl. rewrite lookup_fmap.
  destruct (participants d !! uid) as [p|]; simpl; [|done].
  apply joined_rows_scrub.
Qed.

Lemma load_participants_forget d :
  load_participants
    (mkDB (users d) (forget_progress <$> participants d)
          (video_sequence d) (answers d)) = load_participants d.
Proof.
  unfold load_participants, participant_ids. simpl. rewrite dom_fmap_L.
  apply list_omap_ext, Forall2_same_length_lookup_2; [done|].
  intros i uid uid' Hi Hi'. simplify_eq. rewrite lookup_fmap.
  by destruct (participants d !! uid).
Qed.

(** C9, as the specification states it: the participants projection holds
    every Participant field.  It does not: two stores whose only participant
    differs in the current position export the same participants sheet. *)
Lemma participants_projection_drops_position :
  load_participants (export_db 0) = load_participants (export_db 2) ∧
  (current_video_idx <$> get_participant (export_db 0) 1) = Some 0 ∧
  (current_video_idx <$> get_participant (export_db 2) 1) = Some 2.
Proof. vm_compute. done. Qed.

(** C9, amended.  The participants projection has one row per participant
    with the nine columns user_id, tg_username, first_name,
    participant_name, gender, age, condition, completed and created_at, and
    does not depend on the current position and the total.  The answers
    projection left-joins: every participant has a row; a row is either the
    null-padded row of a participant without assignment or the row of one
    assignment row, with the four answer columns of the answer row at that
    position, null where there is none; and it does not depend on any media
    reference nor on the position, the total or the completed flag. *)
Theorem export_projections (d : DB) :
  (∀ row, row ∈ load_participants d ↔
     ∃ user_id p, participants d !! user_id = Some p ∧
                  row = participant_export_row user_id p) ∧
  (∀ d', forget_progress <$> participants d' = forget_progress <$> participants d →
     load_participants d' = load_participants d) ∧
  (∀ user_id p, participants d !! user_id = Some p →
     ∃ row, row ∈ load_answers d ∧ ae_user_id row = user_id ∧
            ae_participant_name row = participant_name p ∧
            ae_gender row = gender p ∧ ae_age row = age p ∧
            ae_condition row = condition p) ∧
  (∀ row, row ∈ load_answers d →
     ∃ p, participants d !! ae_user_id row = Some p ∧
       match ae_video_position row with
       | None =>
           (∀ pos, video_sequence d !! (ae_user_id row, pos) = None) ∧
           row = answer_export_row (ae_user_id row) p None None
       | Some pos =>
           ∃ v, video_sequence d !! (ae_user_id row, pos) = Some v ∧
             ae_video_scenario row = Some (v_scenario v) ∧
             let a := answers d !! (ae_user_id row, pos) in
             ae_answer_description row = a ≫= description ∧
             ae_answer_adv_behavior row = a ≫= adv_behavior ∧
             ae_answer_adv_choice row = a ≫= adv_choice ∧
             ae_answer_scenario_rating row = a ≫= scenario_rating
       end) ∧
  (∀ d', scrub d' = scrub d → load_answers d' = load_answers d).
Proof.
  split; [apply elem_of_load_participants|].
  split.
  { intros d' Heq.
    rewrite <- (load_participants_forget d'), <- (load_participants_forget d).
    unfold load_participants, participant_ids. simpl. by rewrite Heq. }
  split.
  { intros uid p Hp.
    destruct (positions_of d uid) as [|pos ps] eqn:Hps.
    - exists (answer_export_row uid p None None). split; [|done].
      apply elem_of_load_answers. exists uid, p. split; [done|].
      apply elem_of_joined_rows. by left.
    - assert (pos ∈ positions_of d uid) as [v Hv]%elem_of_positions_of
        by (rewrite Hps; by left).
      exists (answer_export_row uid p (Some (pos, v)) (answers d !! (uid, pos))).
      split; [|done].
      apply elem_of_load_answers. exists uid, p. split; [done|].
      apply elem_of_joined_rows. right. by exists pos, v. }
  split.
  { intros row (uid & p & Hp & Hrow)%elem_of_load_answers.
    apply elem_of_joined_rows in Hrow as [[Hps ->]|(pos & v & Hv & ->)];
      simpl; exists p; (split; [done|]).
    - split; [|done]. intros pos.
      destruct (video_sequence d !! (uid, pos)) as [v|] eqn:Hv; [|done].
      assert (pos ∈ positions_of d uid) as Hin
        by (apply elem_of_positions_of; by eexists).
      rewrite Hps in Hin. by apply elem_of_nil in Hin.
    - by exists v. }
  intros d' Heq.
  by rewrite <- (load_answers_scrub d'), <- (load_answers_scrub d), Heq.
Qed.

(** ** Handlers and the store *)

Lemma read_only_ret {A} (a : A) : read_only (ret a).
Proof. by intros s. Qed.

Lemma read_only_raise {A} (e : exn) : read_only (@raise A e).
Proof. by intros s. Qed.

Lemma read_only_query {A} (f : DB → A) : read_only (query f).
Proof. by intros s. Qed.

Lemma read_only_send r : read_only (send r).
Proof. by intros s. Qed.

Lemma read_only_get_ud : read_only get_ud.
Proof. by intros s. Qed.

Lemma read_only_put_ud u : read_only (put_ud u).
Proof. by intros s. Qed.

Lemma read_only_bind {A B} (m : M A) (k : A → M B) :
  read_only m → (∀ a, read_only (k a)) → read_only (bind m k).
Proof.
  intros Hm Hk s. unfold bind. specialize (Hm s).
  destruct (m s) as [[a|e] s1]; simpl in *.
  - destruct (Hk a s1) as [-> ->]. done.
  - done.
Qed.

Ltac read_only_step :=
  first
    [ apply read_only_ret | apply read_only_raise | apply read_only_query
    | apply read_only_send | apply read_only_get_ud | apply read_only_put_ud
    | apply read_only_bind; [|intros ?; cbv beta]
    | match goal with
      | |- read_only (match ?x with _ => _ end) => destruct x
      end ].

Lemma read_only_set_stage o : read_only (set_stage o).
Proof. unfold set_stage. repeat read_only_step. Qed.

Lemma read_only_clear_ud : read_only clear_ud.
Proof. apply read_only_put_ud. Qed.

Lemma read_only_send_final_message p : read_only (send_final_message p).
Proof. apply read_only_send. Qed.

Lemma read_only_send_scenario_rating_question sc :
  read_only (send_scenario_rating_question sc).
Proof. unfold send_scenario_rating_question. repeat read_only_step. Qed.

Lemma read_only_continue_experiment u : read_only (continue_experiment u).
Proof.
  unfold continue_experiment. cbv zeta.
  repeat first
    [ apply read_only_set_stage | apply read_only_clear_ud
    | apply read_only_send_final_message
    | apply read_only_send_scenario_rating_question
    | read_only_step ].
Qed.

Lemma keeps_progress_refl d : keeps_progress d d.
Proof.
  intros uid. destruct (participants d !! uid) as [p|] eqn:Hp.
  - exists p. split; [done|]. repeat split. by left.
  - by left.
Qed.

Lemma keeps_progress_trans d1 d2 d3 :
  keeps_progress d1 d2 → keeps_progress d2 d3 → keeps_progress d1 d3.
Proof.
  intros H12 H23 uid. specialize (H12 uid). specialize (H23 uid).
  destruct (participants d1 !! uid) as [p1|].
  - destruct H12 as (p2 & Hp2 & Hi & Hc & Ht). rewrite Hp2 in H23.
    destruct H23 as (p3 & Hp3 & Hi' & Hc' & Ht').
    exists p3. split; [done|]. unfold row_kept.
    split; [congruence|]. split; [congruence|].
    destruct Ht, Ht'; [left|right|right|right]; congruence.
  - destruct H12 as [Hn|(p2 & Hp2 & Hi & Hc & Ht)].
    + by rewrite Hn in H23.
    + rewrite Hp2 in H23. destruct H23 as (p3 & Hp3 & Hi' & Hc' & Ht').
      right. exists p3. split; [done|]. unfold fresh_row.
      split; [congruence|]. split; [congruence|].
      destruct Ht'; congruence.
Qed.

Lemma keeps_read_only {A} (m : M A) : read_only m → M_keeps m.
Proof. intros H s. destruct (H s) as [-> _]. apply keeps_progress_refl. Qed.

Lemma keeps_bind {A B} (m : M A) (k : A → M B) :
  M_keeps m → (∀ a, M_keeps (k a)) → M_keeps (bind m k).
Proof.
  intros Hm Hk s. unfold bind. specialize (Hm s).
  destruct (m s) as [[a|e] s1]; simpl in *; [|done].
  eapply keeps_progress_trans; [exact Hm|apply Hk].
Qed.

Lemma keeps_commit (f : DB → DB) :
  (∀ d, keeps_progress d (f d)) → M_keeps (commit f).
Proof. intros H s. apply H. Qed.

Lemma create_participant_keeps now uid un fn pn g a c t d :
  t = None ∨ t = Some 4 →
  keeps_progress d (create_participant now uid un fn pn g a c t d).
Proof.
  intros Ht uid'. unfold create_participant. simpl.
  destruct (decide (uid' = uid)) as [->|Hne].
  - rewrite lookup_insert_eq.
    destruct (participants d !! uid) as [p|] eqn:Hp; simpl.
    + eexists. split; [done|]. unfold row_kept. simpl.
      repeat split. destruct Ht as [->| ->]; auto.
    + right. eexists. split; [done|]. unfold fresh_row. simpl.
      repeat split. by destruct Ht as [->| ->].
  - rewrite lookup_insert_ne by done.
    destruct (participants d !! uid') as [p|] eqn:Hp.
    + exists p. split; [done|]. repeat split. by left.
    + by left.
Qed.

Lemma same_participants_keeps d d' :
  participants d' = participants d → keeps_progress d d'.
Proof.
  intros Heq uid. rewrite Heq.
  destruct (participants d !! uid) as [p|].
  - exists p. split; [done|]. repeat split. by left.
  - by left.
Qed.

Lemma keeps_create_video_sequence draws uid cond :
  M_keeps (create_video_sequence_for_participant draws uid cond).
Proof.
  unfold create_video_sequence_for_participant, create_video_sequence_with.
  destruct (VIDEO_FILES !! cond) as [files|];
    [|apply keeps_read_only, read_only_raise].
  destruct (collect_videos files SCENARIOS) as [videos|];
    [|apply keeps_read_only, read_only_raise].
  apply keeps_commit. intros d. by apply same_participants_keeps.
Qed.

Ltac keeps_step :=
  first
    [ apply keeps_read_only;
      first [ apply read_only_ret | apply read_only_raise
            | apply read_only_query | apply read_only_send
            | apply read_only_get_ud | apply read_only_put_ud
            | apply read_only_set_stage | apply read_only_clear_ud
            | apply read_only_send_final_message
            | apply read_only_continue_experiment ]
    | apply keeps_create_video_sequence
    | apply keeps_commit; intros ?;
      first [ apply create_participant_keeps; auto
            | by apply same_participants_keeps ]
    | apply keeps_bind; [|intros ?; cbv beta]
    | match goal with
      | |- M_keeps (match ?x with _ => _ end) => destruct x
      end ].

Lemma keeps_start_on message u : M_keeps (start_on message u).
Proof. unfold start_on, reply_text. cbv zeta. repeat keeps_step. Qed.

Lemma keeps_handle_text {py : Python}
    u message : M_keeps (handle_text u message).
Proof. unfold handle_text. cbv zeta. repeat keeps_step. Qed.

Lemma keeps_handle_gender_choice u data : M_keeps (handle_gender_choice u data).
Proof. unfold handle_gender_choice. cbv zeta. repeat keeps_step. Qed.

Lemma keeps_handle_video u message : M_keeps (handle_video u message).
Proof. unfold handle_video. repeat keeps_step. Qed.

(** Unfolds the monad operations of a handler run. *)
Ltac run_monad :=
  unfold send_final_message, clear_ud, set_stage;
  unfold try_except, bind, ret, raise, query, commit, send, get_ud, put_ud;
  cbn [st_db st_commits st_ud st_sent fst snd].

Lemma handle_likert_commits {py : Python} u data s :
  let s' := (handle_likert u data s).2 in
  st_commits s' = (likert_commits (u_id u) data (st_db s) ++ st_commits s)%list ∧
  st_db s' = hd (st_db s) (likert_commits (u_id u) data (st_db s)).
Proof.
  unfold handle_likert, handle_likert_body, likert_commits, likert_score.
  cbv zeta.
  destruct (startswith data "likert_"); simpl; [|done].
  destruct (after_first "_" data) as [digits|]; simpl; [|done].
  destruct (parse_int digits) as [score|]; simpl; [|done].
  destruct ((score <? 1) || (score >? 10))%bool; simpl; [done|].
  run_monad.
  destruct (get_participant (st_db s) (u_id u)) as [p|] eqn:Hp; [|done].
  destruct (truthy (completed p)); [done|].
  destruct (get_video_by_position (st_db s) (u_id u) (current_video_idx p))
    as [v|] eqn:Hv; [|done].
  destruct (current_video_idx p + 1 >=? total_videos p) eqn:Hlast.
  - cbn [st_db st_commits st_ud st_sent fst snd].
    match goal with
    | |- context [get_participant (update_participant_progress ?a ?b ?c ?d) ?e] =>
        destruct (get_participant (update_participant_progress a b c d) e)
    end; simpl; done.
  - cbn [st_db st_commits st_ud st_sent fst snd].
    match goal with
    | |- context [continue_experiment u ?s0] =>
        destruct (read_only_continue_experiment u s0) as [Hd Hc];
        destruct (continue_experiment u s0) as [[[]|e] s1]
    end; simpl in *; by rewrite Hd, Hc.
Qed.

Lemma truthy_false z : truthy z = false ↔ z = 0.
Proof. unfold truthy. destruct (Z.eqb_spec z 0); naive_solver. Qed.

Lemma truthy_true z : truthy z = true ↔ z ≠ 0.
Proof. unfold truthy. destruct (Z.eqb_spec z 0); naive_solver. Qed.

Lemma keeps_db_step d d' : keeps_progress d d' → db_step d d'.
Proof.
  intros H uid. specialize (H uid).
  destruct (participants d !! uid); [|done].
  destruct H as (p' & ? & ?). exists p'. auto.
Qed.

Lemma likert_db_step {py : Python} user_id data d :
  db_step d (hd d (likert_commits user_id data d)).
Proof.
  unfold likert_commits.
  destruct (likert_score data) as [score|];
    [|apply keeps_db_step, keeps_progress_refl].
  destruct (get_participant d user_id) as [p|] eqn:Hp;
    [|apply keeps_db_step, keeps_progress_refl].
  destruct (truthy (completed p)) eqn:Hc;
    [apply keeps_db_step, keeps_progress_refl|].
  destruct (get_video_by_position d user_id (current_video_idx p)) as [v|];
    [|apply keeps_db_step, keeps_progress_refl].
  apply truthy_false in Hc. unfold get_participant in Hp.
  cbn [hd]. intros uid. unfold update_participant_progress, upsert_answer_field.
  cbn [participants].
  destruct (decide (uid = user_id)) as [->|Hne].
  - rewrite Hp, lookup_alter_eq, Hp. simpl.
    eexists. split; [done|]. right. unfold row_advanced. simpl.
    repeat split; [done|].
    by destruct (current_video_idx p + 1 >=? total_videos p).
  - rewrite lookup_alter_ne by done.
    destruct (participants d !! uid) as [q|].
    + exists q. split; [done|]. left. repeat split. by left.
    + by left.
Qed.

Lemma step_db_step {py : Python} w x : db_step (w_db w) (w_db (step w x)).
Proof.
  destruct x as [u e]. unfold step, leave. cbn [fst snd w_db].
  change (w_db w) with (st_db (enter w u)) at 1.
  destruct e as [message|message|data|message]; cbn [dispatch].
  - apply keeps_db_step, keeps_start_on.
  - apply keeps_db_step, keeps_handle_text.
  - destruct (startswith data "gender_").
    + apply keeps_db_step, keeps_handle_gender_choice.
    + destruct (likert_pattern data).
      * destruct (handle_likert_commits u data (enter w u)) as [_ ->].
        apply likert_db_step.
      * apply keeps_db_step, keeps_progress_refl.
  - apply keeps_db_step, keeps_handle_video.
Qed.

Lemma row_step_ok p p' :
  row_ok p → row_kept p p' ∨ row_advanced p p' → row_ok p'.
Proof.
  unfold row_ok, row_kept, row_advanced.
  intros [Ht Hp] [(Hi & Hc & Ht')|(Hc & Ht' & Hi & Hc')].
  - split; [destruct Ht'; congruence|]. rewrite Hi, Hc. exact Hp.
  - split; [congruence|]. rewrite Hi, Hc'.
    destruct (Z.geb_spec (current_video_idx p + 1) (total_videos p)); lia.
Qed.

Lemma fresh_row_ok p : fresh_row p → row_ok p.
Proof. unfold fresh_row, row_ok. intros (-> & -> & ->). split; [done|]. lia. Qed.

Lemma db_step_ok d d' : db_ok d → db_step d d' → db_ok d'.
Proof.
  intros Hok Hstep uid p' Hp'. specialize (Hstep uid).
  destruct (participants d !! uid) as [p|] eqn:Hp.
  - destruct Hstep as (q & Hq & HR). simplify_eq.
    eapply row_step_ok; [by eapply Hok|done].
  - destruct Hstep as [Hn|(q & Hq & Hf)]; [congruence|].
    simplify_eq. by apply fresh_row_ok.
Qed.

Lemma reachable_ok {py : Python} w : reachable w → db_ok (w_db w).
Proof.
  induction 1 as [|w x _ IH|w _ IH].
  - intros uid p. simpl. by rewrite lookup_empty.
  - eapply db_step_ok; [exact IH|apply step_db_step].
  - exact IH.
Qed.

Lemma reachable_run_events {py : Python}
    w l : reachable w → reachable (run_events w l).
Proof.
  revert w. induction l as [|x l IH]; intros w Hw; [done|].
  apply IH. by constructor.
Qed.

(** C2. In every reachable state and for every participant row, the
    position is between 0 and the total, and equals the total when the
    completed flag is set; after any further event the row is still there
    and its position is not smaller.  A row that an event creates starts at
    position 0 with the flag unset. *)
Theorem progress_invariant {py : Python}
    (w : world) (x : update * event) (user_id : Z) :
  reachable w →
  match participants (w_db w) !! user_id with
  | Some p =>
      0 ≤ current_video_idx p ≤ total_videos p ∧
      (truthy (completed p) = true → current_video_idx p = total_videos p) ∧
      ∃ p', participants (w_db (step w x)) !! user_id = Some p' ∧
            current_video_idx p ≤ current_video_idx p'
  | None =>
      ∀ p', participants (w_db (step w x)) !! user_id = Some p' →
            current_video_idx p' = 0 ∧ completed p' = 0
  end.
Proof.
  intros Hw. pose proof (reachable_ok w Hw) as Hok.
  pose proof (step_db_step w x user_id) as Hstep.
  destruct (participants (w_db w) !! user_id) as [p|] eqn:Hp.
  - destruct (Hok user_id p Hp) as [Ht Hrow].
    split; [lia|]. split.
    + intros Hc%truthy_true. lia.
    + destruct Hstep as (p' & Hp' & [(Hi & _)|(_ & _ & Hi & _)]);
        exists p'; (split; [done|]); lia.
  - intros p' Hp'. destruct Hstep as [Hn|(q & Hq & Hi & Hc & _)].
    + congruence.
    + by simplify_eq.
Qed.

(** The invariant at the state before the last rating, and the step that
    rates. *)
Lemma progress_invariant_witness :
  reachable world_at_last_rating ∧
  match participants (w_db world_at_last_rating) !! 7 with
  | Some p =>
      0 ≤ current_video_idx p ≤ total_videos p ∧
      (truthy (completed p) = true → current_video_idx p = total_videos p) ∧
      ∃ p', participants
              (w_db (step world_at_last_rating (alex, Ev_callback "likert_7")))
              !! 7 = Some p' ∧
            current_video_idx p ≤ current_video_idx p'
  | None =>
      ∀ p', participants
              (w_db (step world_at_last_rating (alex, Ev_callback "likert_7")))
              !! 7 = Some p' →
            current_video_idx p' = 0 ∧ completed p' = 0
  end.
Proof.
  assert (H : reachable world_at_last_rating)
    by (do 2 apply reachable_run_events; apply reach_init).
  split; [exact H|].
  exact (progress_invariant world_at_last_rating
           (alex, Ev_callback "likert_7") 7 H).
Defined.

Lemma step_completed {py : Python} w x user_id p :
  get_participant (w_db w) user_id = Some p →
  truthy (completed p) = true →
  ∃ p', get_participant (w_db (step w x)) user_id = Some p' ∧
        truthy (completed p') = true.
Proof.
  unfold get_participant. intros Hp Hc.
  pose proof (step_db_step w x user_id) as Hstep. rewrite Hp in Hstep.
  destruct Hstep as (p' & Hp' & [(_ & Hc' & _)|(Hc' & _)]).
  - exists p'. split; [done|]. by rewrite Hc'.
  - apply truthy_true in Hc. done.
Qed.

Lemma run_events_completed {py : Python} events w user_id p :
  get_participant (w_db w) user_id = Some p →
  truthy (completed p) = true →
  ∃ p', get_participant (w_db (run_events w events)) user_id = Some p' ∧
        truthy (completed p') = true.
Proof.
  revert w p. induction events as [|x events IH]; intros w p Hp Hc.
  - by exists p.
  - destruct (step_completed w x user_id p Hp Hc) as (p1 & Hp1 & Hc1).
    simpl. by eapply IH.
Qed.

(** C3. In a reachable state, let a participant who has not completed and
    whose current video is assigned press a valid rating.  The rating is
    stored at the current position.  At the last position the run commits
    twice: after the first commit the rating is stored and the participant
    row is untouched, and the second sets the completed flag and moves the
    position to the total together; from then on the resolver answers
    [finished] after any further events.  At any other position the
    position grows by one and the flag stays unset. *)
Theorem rating_advances {py : Python}
    (w : world) (u : update) (data : string) (score : Z)
    (p : participant) (v : video_row) :
  reachable w →
  likert_score data = Some score →
  get_participant (w_db w) (u_id u) = Some p →
  truthy (completed p) = false →
  get_video_by_position (w_db w) (u_id u) (current_video_idx p) = Some v →
  let r := handle_likert u data (enter w u) in
  let d' := st_db r.2 in
  let idx := current_video_idx p in
  get_answer d' (u_id u) idx ≫= scenario_rating = Some score ∧
  if decide (idx + 1 = total_videos p) then
    (∃ d1 p',
       st_commits r.2 = [d'; d1] ∧
       get_answer d1 (u_id u) idx ≫= scenario_rating = Some score ∧
       get_participant d1 (u_id u) = Some p ∧
       get_participant d' (u_id u) = Some p' ∧
       completed p' = 1 ∧ current_video_idx p' = total_videos p ∧
       total_videos p' = total_videos p) ∧
    (∀ events,
       determine_next_stage (w_db (run_events (leave w u r).1 events)) (u_id u)
       = finished)
  else
    ∃ p', get_participant d' (u_id u) = Some p' ∧
          current_video_idx p' = idx + 1 ∧ completed p' = 0.
Proof.
  intros Hw Hscore Hp Hc Hv. cbv zeta.
  destruct (reachable_ok w Hw (u_id u) p Hp) as [Ht Hrow].
  apply truthy_false in Hc as Hc0.
  destruct (handle_likert_commits u data (enter w u)) as [Hcommits Hdb].
  unfold likert_commits in Hcommits, Hdb. cbn [enter st_db st_commits] in *.
  rewrite Hscore, Hp, Hc, Hv in Hcommits, Hdb. cbn [hd app] in *.
  rewrite Hdb, Hcommits. clear Hdb Hcommits.
  set (d1 := upsert_answer_field (u_id u) (current_video_idx p) (v_scenario v)
               (v_file_id v) (W_scenario_rating score) (w_db w)).
  assert (Hrating : get_answer d1 (u_id u) (current_video_idx p)
                      ≫= scenario_rating = Some score).
  { unfold get_answer, d1, upsert_answer_field. cbn [answers].
    by rewrite lookup_insert_eq. }
  assert (Hp1 : get_participant d1 (u_id u) = Some p) by exact Hp.
  split; [exact Hrating|].
  case_decide as Hlast.
  - destruct (Z.geb_spec (current_video_idx p + 1) (total_videos p)); [|lia].
    set (d2 := update_participant_progress _ _ _ d1).
    assert (Hp2 : get_participant d2 (u_id u) =
                  Some (progress_row (Some (current_video_idx p + 1))
                          (Some true) p)).
    { unfold get_participant, d2, update_participant_progress.
      cbn [participants]. rewrite lookup_alter_eq.
      unfold get_participant in Hp1. by rewrite Hp1. }
    split.
    + exists d1, (progress_row (Some (current_video_idx p + 1)) (Some true) p).
      repeat split; try done; simpl; lia.
    + intros events.
      destruct (run_events_completed events
                  (leave w u (handle_likert u data (enter w u))).1 (u_id u)
                  (progress_row (Some (current_video_idx p + 1)) (Some true) p))
        as (q & Hq & Hqc).
      * unfold leave. cbn [fst w_db].
        destruct (handle_likert_commits u data (enter w u)) as [_ Hdb].
        rewrite Hdb. unfold likert_commits. cbn [enter st_db].
        rewrite Hscore, Hp, Hc, Hv. cbn [hd].
        destruct (Z.geb_spec (current_video_idx p + 1) (total_videos p));
          [exact Hp2|lia].
      * done.
      * unfold determine_next_stage. by rewrite Hq, Hqc.
  - destruct (Z.geb_spec (current_video_idx p + 1) (total_videos p)); [lia|].
    exists (progress_row (Some (current_video_idx p + 1)) None p).
    split; [|by split].
    unfold get_participant, update_participant_progress.
    cbn [participants]. rewrite lookup_alter_eq.
    unfold get_participant in Hp1. by rewrite Hp1.
Qed.

(** The last rating of the sample run: position 3 of 4. *)
Lemma rating_advances_witness :
  reachable world_at_last_rating ∧
  likert_score "likert_7" = Some 7 ∧
  get_participant (w_db world_at_last_rating) (u_id alex)
    = Some alex_at_last_rating ∧
  truthy (completed alex_at_last_rating) = false ∧
  get_video_by_position (w_db world_at_last_rating) (u_id alex)
    (current_video_idx alex_at_last_rating) = Some alex_last_video ∧
  let w := world_at_last_rating in
  let p := alex_at_last_rating in
  let r := handle_likert alex "likert_7" (enter w alex) in
  let d' := st_db r.2 in
  let idx := current_video_idx p in
  get_answer d' (u_id alex) idx ≫= scenario_rating = Some 7 ∧
  if decide (idx + 1 = total_videos p) then
    (∃ d1 p',
       st_commits r.2 = [d'; d1] ∧
       get_answer d1 (u_id alex) idx ≫= scenario_rating = Some 7 ∧
       get_participant d1 (u_id alex) = Some p ∧
       get_participant d' (u_id alex) = Some p' ∧
       completed p' = 1 ∧ current_video_idx p' = total_videos p ∧
       total_videos p' = total_videos p) ∧
    (∀ events,
       determine_next_stage (w_db (run_events (leave w alex r).1 events))
         (u_id alex) = finished)
  else
    ∃ p', get_participant d' (u_id alex) = Some p' ∧
          current_video_idx p' = idx + 1 ∧ completed p' = 0.
Proof.
  assert (H1 : reachable world_at_last_rating)
    by (do 2 apply reachable_run_events; apply reach_init).
  assert (H2 : likert_score "likert_7" = Some 7) by reflexivity.
  assert (H3 : get_participant (w_db world_at_last_rating) (u_id alex)
               = Some alex_at_last_rating) by (vm_compute; reflexivity).
  assert (H4 : truthy (completed alex_at_last_rating) = false) by reflexivity.
  assert (H5 : get_video_by_position (w_db world_at_last_rating) (u_id alex)
                 (current_video_idx alex_at_last_rating) = Some alex_last_video)
    by (vm_compute; reflexivity).
  split; [exact H1|]. split; [exact H2|]. split; [exact H3|].
  split; [exact H4|]. split; [exact H5|].
  exact (rating_advances world_at_last_rating alex "likert_7" 7
           alex_at_last_rating alex_last_video H1 H2 H3 H4 H5).
Defined.

(** ** Rejected input *)

Lemma handle_likert_rejects {py : Python} u data s :
  likert_score data = None →
  let r := handle_likert u data s in
  r.1 = Ok tt ∧ st_db r.2 = st_db s ∧ st_commits r.2 = st_commits s ∧
  st_ud r.2 = st_ud s.
Proof.
  unfold likert_score, handle_likert, handle_likert_body. cbv zeta.
  destruct (startswith data "likert_"); simpl; [|done].
  destruct (after_first "_" data) as [digits|]; simpl; [|done].
  destruct (parse_int digits) as [score|]; simpl; [|done].
  by destruct ((score <? 1) || (score >? 10))%bool.
Qed.

Lemma out_of_range_score {py : Python} data v :
  after_first "_" data ≫= parse_int = Some v → v < 1 ∨ 10 < v →
  likert_score data = None.
Proof.
  intros Hv Hrange. unfold likert_score. rewrite Hv.
  destruct (startswith data "likert_"); [|done].
  destruct (Z.ltb_spec v 1), (Z.gtb_spec v 10); simpl; try done; lia.
Qed.

(** What a text does to the store while a rating is expected: the one
    [create_participant] every text past the name question runs. *)
Lemma handle_text_expect_rating {py : Python} u text s :
  stage (st_ud s) = Some expect_rating →
  let r := handle_text u (Some text) s in
  r.1 = Ok tt ∧
  st_db r.2 =
    create_participant (u_now u) (u_id u) (Some (or_empty (u_username u)))
      (Some (or_empty (u_first_name u))) (Some (strip text)) None None None
      None (st_db s).
Proof.
  intros Hstage. unfold handle_text. cbv zeta. run_monad. rewrite Hstage.
  cbn [st_db st_commits st_ud st_sent fst snd].
  match goal with
  | |- context [get_participant ?d ?i] => destruct (get_participant d i) as [p|]
  end; [|done].
  destruct (truthy (completed p)); [done|].
  match goal with
  | |- context [get_video_by_position ?d ?i ?j] =>
      destruct (get_video_by_position d i j)
  end; done.
Qed.

(** C6. A rating callback whose number is below 1 or above 10 is answered
    without an exception and leaves the whole store, the commit list and
    the session as they were.  A text sent while a rating is expected is
    answered without an exception too; it leaves the answers table as it
    was, and the participant's position and completed flag with it. *)
Theorem out_of_range_rating_rejected {py : Python} (u : update) (s : hstate) :
  (∀ data v,
     after_first "_" data ≫= parse_int = Some v → v < 1 ∨ 10 < v →
     let r := handle_likert u data s in
     r.1 = Ok tt ∧ st_db r.2 = st_db s ∧ st_commits r.2 = st_commits s) ∧
  (∀ text,
     stage (st_ud s) = Some expect_rating →
     let r := handle_text u (Some text) s in
     r.1 = Ok tt ∧
     answers (st_db r.2) = answers (st_db s) ∧
     ∀ p, get_participant (st_db s) (u_id u) = Some p →
       ∃ p', get_participant (st_db r.2) (u_id u) = Some p' ∧
             current_video_idx p' = current_video_idx p ∧
             completed p' = completed p).
Proof.
  split.
  - intros data v Hv Hrange.
    destruct (handle_likert_rejects u data s (out_of_range_score _ _ Hv Hrange))
      as (? & ? & ? & _).
    done.
  - intros text Hstage.
    destruct (handle_text_expect_rating u text s Hstage) as [Hok Hdb].
    cbv zeta. rewrite Hdb. split; [done|]. split; [done|].
    intros p Hp. unfold get_participant in *.
    pose proof (create_participant_keeps (u_now u) (u_id u)
                  (Some (or_empty (u_username u)))
                  (Some (or_empty (u_first_name u))) (Some (strip text))
                  None None None None (st_db s) (or_introl eq_refl) (u_id u))
      as Hk.
    rewrite Hp in Hk. destruct Hk as (p' & Hp' & Hi & Hc & _).
    by exists p'.
Qed.

Example rating_11_rejected :
  likert_pattern "likert_11" = true ∧
  w_db (step world_at_last_rating (alex, Ev_callback "likert_11"))
  = w_db world_at_last_rating.
Proof.
  split; [reflexivity|].
  unfold step, leave, dispatch. cbn [fst snd w_db].
  change (startswith "likert_11" "gender_") with false.
  change (likert_pattern "likert_11") with true. cbv iota.
  by destruct (@handle_likert_rejects ascii_python alex "likert_11"
                 (enter world_at_last_rating alex) eq_refl) as (_ & -> & _).
Qed.

(** ** Intake: the gender given as text *)

Lemma create_video_sequence_participants draws user_id cond s :
  participants (st_db (create_video_sequence_for_participant draws user_id cond s).2)
  = participants (st_db s).
Proof.
  unfold create_video_sequence_for_participant, create_video_sequence_with.
  destruct (VIDEO_FILES !! cond) as [files|]; [|done].
  by destruct (collect_videos files SCENARIOS).
Qed.

Lemma choice_condition draw :
  ∃ cond, choice draw VIDEO_CONDITIONS = Some cond.
Proof.
  unfold choice. apply lookup_lt_is_Some_2.
  apply Nat.mod_upper_bound. done.
Qed.

(** The store after a text while the gender is asked. *)
Lemma handle_text_ask_gender {py : Python} u text s :
  stage (st_ud s) = Some ask_gender →
  handle_text u (Some text) s =
  let d := create_participant (u_now u) (u_id u)
             (Some (or_empty (u_username u)))
             (Some (or_empty (u_first_name u))) (Some (strip text)) None None
             None None (st_db s) in
  (Ok tt,
   mkH d (d :: st_commits s)
     (mkUD (Some ask_age) (ud_participant_name (st_ud s)) (Some (strip text)))
     (R_ask_age :: st_sent s)).
Proof. intros Hstage. unfold handle_text. run_monad. by rewrite Hstage. Qed.

(** The stored gender after a valid age. *)
Lemma handle_text_valid_age {py : Python} u text s age :
  stage (st_ud s) = Some ask_age →
  parse_int (strip text) = Some age → 1 ≤ age ≤ 120 →
  get_participant (st_db (handle_text u (Some text) s).2) (u_id u) ≫= gender
  = Some (strip (or_empty (ud_gender (st_ud s)))).
Proof.
  intros Hstage Hage Hrange. unfold handle_text. cbv zeta. run_monad.
  rewrite Hstage, Hage.
  destruct (Z.leb_spec age 0), (Z.gtb_spec age 120); try lia.
  cbn [orb st_db st_commits st_ud st_sent fst snd].
  destruct (choice_condition (u_choice u)) as [cond ->].
  cbn [st_db st_commits st_ud st_sent fst snd].
  match goal with
  | |- context [create_video_sequence_for_participant ?a ?b ?c ?s0] =>
      pose proof (create_video_sequence_participants a b c s0) as Hseq;
      destruct (create_video_sequence_for_participant a b c s0)
        as [[[]|e] s1]
  end; cbn [st_db st_commits st_ud st_sent fst snd] in *.
  - match goal with
    | |- context [continue_experiment u ?s0] =>
        destruct (read_only_continue_experiment u s0) as [Hd _];
        destruct (continue_experiment u s0) as [[[]|e] s2]
    end; cbn [st_db fst snd] in *; rewrite Hd; unfold get_participant;
      rewrite Hseq; cbn [create_participant participants];
      by rewrite !lookup_insert_eq.
  - unfold get_participant. rewrite Hseq.
    cbn [create_participant participants]. by rewrite !lookup_insert_eq.
Qed.

Lemma handle_text_invalid_age {py : Python} u text s :
  stage (st_ud s) = Some ask_age →
  (∀ age, parse_int (strip text) = Some age → age < 1 ∨ 120 < age) →
  handle_text u (Some text) s =
  let d := create_participant (u_now u) (u_id u)
             (Some (or_empty (u_username u)))
             (Some (or_empty (u_first_name u))) (Some (strip text)) None None
             None None (st_db s) in
  (Ok tt, mkH d (d :: st_commits s) (st_ud s) (R_ask_age_again :: st_sent s)).
Proof.
  intros Hstage Hbad. unfold handle_text. cbv zeta. run_monad.
  rewrite Hstage.
  destruct (parse_int (strip text)) as [age|]; [|done].
  destruct (Hbad age eq_refl);
    destruct (Z.leb_spec age 0), (Z.gtb_spec age 120); simpl; try done; lia.
Qed.

Lemma create_participant_gender_kept now uid un fn pn a c t d :
  get_participant (create_participant now uid un fn pn None a c t d) uid
    ≫= gender
  = get_participant d uid ≫= gender.
Proof.
  unfold get_participant, create_participant. cbn [participants].
  rewrite lookup_insert_eq. by destruct (participants d !! uid).
Qed.

(** C10. A text sent while the gender is asked puts the stripped text under
    the session's gender key, moves the session to the age question and
    leaves the stored gender of the participant as it was (null when it was
    null or when the row is new).  A later text of the same session that
    [int] reads as an age from 1 to 120 stores the session's gender,
    stripped once more as the code does; a text that [int] rejects, or
    reads as a number outside that range, leaves the stored gender as it
    was. *)
Theorem gender_by_text_is_stored_with_age {py : Python}
    (u : update) (text : string)
    (s : hstate) :
  stage (st_ud s) = Some ask_gender →
  let r := handle_text u (Some text) s in
  ud_gender (st_ud r.2) = Some (strip text) ∧
  stage (st_ud r.2) = Some ask_age ∧
  get_participant (st_db r.2) (u_id u) ≫= gender
    = get_participant (st_db s) (u_id u) ≫= gender ∧
  ∀ u' age_text,
    u_id u' = u_id u →
    let r' := handle_text u' (Some age_text) r.2 in
    match parse_int (strip age_text) with
    | Some age =>
        if decide (1 ≤ age ≤ 120)
        then get_participant (st_db r'.2) (u_id u) ≫= gender
             = Some (strip (strip text))
        else get_participant (st_db r'.2) (u_id u) ≫= gender
             = get_participant (st_db s) (u_id u) ≫= gender
    | None =>
        get_participant (st_db r'.2) (u_id u) ≫= gender
        = get_participant (st_db s) (u_id u) ≫= gender
    end.
Proof.
  intros Hstage. cbv zeta.
  rewrite (handle_text_ask_gender u text s Hstage). cbv zeta.
  cbn [st_db st_ud fst snd ud_gender stage].
  split; [done|]. split; [done|].
  split; [apply create_participant_gender_kept|].
  intros u' age_text Hid.
  set (s1 := mkH _ _ _ _).
  assert (Hs1 : stage (st_ud s1) = Some ask_age) by done.
  destruct (parse_int (strip age_text)) as [age|] eqn:Hage.
  - case_decide as Hrange.
    + rewrite <- Hid.
      rewrite (handle_text_valid_age u' age_text s1 age Hs1 Hage Hrange).
      subst s1. by cbn [st_ud ud_gender or_empty].
    + rewrite (handle_text_invalid_age u' age_text s1 Hs1).
      * cbv zeta. cbn [st_db snd]. rewrite <- Hid at 1.
        rewrite create_participant_gender_kept. subst s1. cbn [st_db].
        rewrite Hid. apply create_participant_gender_kept.
      * intros age' Hage'. rewrite Hage in Hage'. simplify_eq. lia.
  - rewrite (handle_text_invalid_age u' age_text s1 Hs1).
    + cbv zeta. cbn [st_db snd]. rewrite <- Hid at 1.
      rewrite create_participant_gender_kept. subst s1. cbn [st_db].
      rewrite Hid. apply create_participant_gender_kept.
    + intros age' Hage'. by rewrite Hage in Hage'.
Qed.

(** The gender typed, with blanks around it, after the name was given. *)
Lemma gender_by_text_is_stored_with_age_witness :
  let u := alex in
  let text := " Женский " in
  let s := enter world_at_gender alex in
  stage (st_ud s) = Some ask_gender ∧
  let r := handle_text u (Some text) s in
  ud_gender (st_ud r.2) = Some (strip text) ∧
  stage (st_ud r.2) = Some ask_age ∧
  get_participant (st_db r.2) (u_id u) ≫= gender
    = get_participant (st_db s) (u_id u) ≫= gender ∧
  ∀ u' age_text,
    u_id u' = u_id u →
    let r' := handle_text u' (Some age_text) r.2 in
    match parse_int (strip age_text) with
    | Some age =>
        if decide (1 ≤ age ≤ 120)
        then get_participant (st_db r'.2) (u_id u) ≫= gender
             = Some (strip (strip text))
        else get_participant (st_db r'.2) (u_id u) ≫= gender
             = get_participant (st_db s) (u_id u) ≫= gender
    | None =>
        get_participant (st_db r'.2) (u_id u) ≫= gender
        = get_participant (st_db s) (u_id u) ≫= gender
    end.
Proof.
  assert (H : stage (st_ud (enter world_at_gender alex)) = Some ask_gender)
    by (vm_compute; reflexivity).
  split; [exact H|].
  exact (gender_by_text_is_stored_with_age alex " Женский "
           (enter world_at_gender alex) H).
Defined.

Example gender_by_text_not_stored :
  let w := step world_at_gender (alex, Ev_text (Some "Женский")) in
  ud_gender (session_of w 7) = Some "Женский" ∧
  gender <$> get_participant (w_db w) 7 = Some None.
Proof. vm_compute. done. Qed.

(** ** The stored name and later texts *)

(** C4, on the code.  With the first video shown and the name Alex stored, a
    description sent as text replaces the stored name. *)
Lemma description_overwrites_name :
  let w := world_at_video_0 in
  let w' := step w (alex, Ev_text (Some "робот берёт пиццу")) in
  stage (session_of w 7) = Some expect_description ∧
  participant_name <$> get_participant (w_db w) 7 = Some (Some "Alex") ∧
  participant_name <$> get_participant (w_db w') 7
    = Some (Some "робот берёт пиццу").
Proof. vm_compute. done. Qed.

(** C5, on the code.  With the age asked and the name Alex stored, a text
    that is no number is answered by asking again, and replaces the stored
    name. *)
Lemma invalid_age_overwrites_name :
  let w := world_at_age in
  let r := leave w alex (handle_text alex (Some "abc") (enter w alex)) in
  stage (session_of w 7) = Some ask_age ∧
  parse_int "abc" = None ∧
  r.2 = [R_ask_age_again] ∧
  participant_name <$> get_participant (w_db w) 7 = Some (Some "Alex") ∧
  participant_name <$> get_participant (w_db r.1) 7 = Some (Some "abc").
Proof. vm_compute. done. Qed.

(** * Further properties of the handlers *)

(** ** Handlers and preorders on the store *)

Section Rel.
Context (R : DB → DB → Prop).
Context (R_refl : ∀ d, R d d).
Context (R_trans : ∀ d1 d2 d3, R d1 d2 → R d2 d3 → R d1 d3).

Lemma rel_read_only {A} (m : M A) : read_only m → M_rel R m.
Proof. intros H s. destruct (H s) as [-> _]. apply R_refl. Qed.

Lemma rel_bind {A B} (m : M A) (k : A → M B) :
  M_rel R m → (∀ a, M_rel R (k a)) → M_rel R (bind m k).
Proof.
  intros Hm Hk s. unfold bind. specialize (Hm s).
  destruct (m s) as [[a|e] s1]; simpl in *; [|done].
  eapply R_trans; [exact Hm|apply Hk].
Qed.

Lemma rel_try_except {A} (m : M A) (h : exn → M A) :
  M_rel R m → (∀ e, M_rel R (h e)) → M_rel R (try_except m h).
Proof.
  intros Hm Hh s. unfold try_except. specialize (Hm s).
  destruct (m s) as [[a|e] s1]; simpl in *; [done|].
  eapply R_trans; [exact Hm|apply Hh].
Qed.

Lemma rel_commit (f : DB → DB) : (∀ d, R d (f d)) → M_rel R (commit f).
Proof. intros H s. apply H. Qed.

Context (user_id : Z).
Context (R_user : ∀ a b d, R d (ensure_user user_id a b d)).
Context (R_participant : ∀ now un fn pn g a c t d,
  t = None ∨ t = Some 4 →
  R d (create_participant now user_id un fn pn g a c t d)).
Context (R_answer : ∀ pos sc f w d,
  R d (upsert_answer_field user_id pos sc f w d)).
Context (R_progress : ∀ i c d,
  R d (update_participant_progress user_id i c d)).
Context (R_sequence : ∀ cond files vs draws d,
  VIDEO_FILES !! cond = Some files →
  collect_videos files SCENARIOS = Some vs →
  R d (replace_sequence user_id cond (shuffle draws vs) d)).

Lemma rel_create_video_sequence draws cond :
  M_rel R (create_video_sequence_for_participant draws user_id cond).
Proof.
  unfold create_video_sequence_for_participant, create_video_sequence_with.
  destruct (VIDEO_FILES !! cond) as [files|] eqn:Hf;
    [|apply rel_read_only, read_only_raise].
  destruct (collect_videos files SCENARIOS) as [vs|] eqn:Hv;
    [|apply rel_read_only, read_only_raise].
  apply rel_commit. intros d. by eapply R_sequence.
Qed.

Ltac rel_step :=
  first
    [ apply rel_read_only;
      first [ apply read_only_ret | apply read_only_raise
            | apply read_only_query | apply read_only_send
            | apply read_only_get_ud | apply read_only_put_ud
            | apply read_only_set_stage | apply read_only_clear_ud
            | apply read_only_send_final_message
            | apply read_only_continue_experiment ]
    | apply rel_create_video_sequence
    | apply rel_commit; intros ?;
      first [ apply R_user | apply R_participant; auto
            | apply R_answer | apply R_progress ]
    | apply rel_bind; [|intros ?; cbv beta]
    | apply rel_try_except; [|intros ?; cbv beta]
    | match goal with
      | |- M_rel R (match ?x with _ => _ end) => destruct x
      end ].

Lemma rel_start_on message u :
  u_id u = user_id → M_rel R (start_on message u).
Proof.
  intros Hu. unfold start_on, reply_text. cbv zeta. rewrite Hu.
  repeat rel_step.
Qed.

Lemma rel_handle_text {py : Python} u message :
  u_id u = user_id → M_rel R (handle_text u message).
Proof. intros Hu. unfold handle_text. cbv zeta. rewrite Hu. repeat rel_step. Qed.

Lemma rel_handle_gender_choice u data :
  u_id u = user_id → M_rel R (handle_gender_choice u data).
Proof.
  intros Hu. unfold handle_gender_choice. cbv zeta. rewrite Hu.
  repeat rel_step.
Qed.

Lemma rel_handle_likert {py : Python} u data :
  u_id u = user_id → M_rel R (handle_likert u data).
Proof.
  intros Hu. unfold handle_likert, handle_likert_body. cbv zeta. rewrite Hu.
  repeat rel_step.
Qed.

Lemma rel_dispatch {py : Python}
    u e : u_id u = user_id → M_rel R (dispatch u e).
Proof.
  intros Hu. destruct e as [message|message|data|message]; cbn [dispatch].
  - by apply rel_start_on.
  - by apply rel_handle_text.
  - destruct (startswith data "gender_"); [by apply rel_handle_gender_choice|].
    destruct (likert_pattern data); [|apply rel_read_only, read_only_ret].
    by apply rel_handle_likert.
  - unfold handle_video. repeat rel_step.
Qed.

End Rel.

(** ** One user's events and the other users *)

Lemma same_elsewhere_refl user_id d : same_elsewhere user_id d d.
Proof. by intros other _. Qed.

Lemma same_elsewhere_trans user_id d1 d2 d3 :
  same_elsewhere user_id d1 d2 → same_elsewhere user_id d2 d3 →
  same_elsewhere user_id d1 d3.
Proof.
  intros H12 H23 other Hne.
  destruct (H12 other Hne) as (Hp & Hv & Ha).
  destruct (H23 other Hne) as (Hp' & Hv' & Ha').
  split; [congruence|]. split; intros pos; [rewrite Hv'|rewrite Ha']; done.
Qed.

Lemma same_elsewhere_replace_sequence user_id cond videos d :
  same_elsewhere user_id d (replace_sequence user_id cond videos d).
Proof.
  intros other Hne. unfold replace_sequence. cbn [participants video_sequence answers].
  split; [done|]. split; [|done]. intros pos.
  rewrite insert_sequence_lookup_other by done.
  by apply delete_sequence_lookup_other.
Qed.

Lemma dispatch_same_elsewhere {py : Python} u e :
  M_rel (same_elsewhere (u_id u)) (dispatch u e).
Proof.
  apply (rel_dispatch _ (same_elsewhere_refl _) (same_elsewhere_trans _)
           (u_id u)); try done.
  - intros now un fn pn g a c t d _ o Ho. unfold create_participant.
    cbn [participants video_sequence answers].
    by rewrite lookup_insert_ne.
  - intros pos sc f wr d o Ho. unfold upsert_answer_field.
    cbn [participants video_sequence answers].
    split; [done|]. split; [done|]. intros pos'.
    rewrite lookup_insert_ne; [done|congruence].
  - intros i c d o Ho. unfold update_participant_progress.
    cbn [participants video_sequence answers].
    by rewrite lookup_alter_ne.
  - intros cond files vs draws d _ _.
    apply same_elsewhere_replace_sequence.
Qed.

(** X1. An event of one user leaves every other user's participant row,
    assignment rows, answer rows and session data as they were. *)
Theorem step_isolation {py : Python} (w : world) (u : update) (e : event) :
  let w' := step w (u, e) in
  ∀ other, other ≠ u_id u →
    participants (w_db w') !! other = participants (w_db w) !! other ∧
    (∀ pos, video_sequence (w_db w') !! (other, pos)
            = video_sequence (w_db w) !! (other, pos)) ∧
    (∀ pos, answers (w_db w') !! (other, pos)
            = answers (w_db w) !! (other, pos)) ∧
    w_user_data w' !! other = w_user_data w !! other.
Proof.
  intros w' other Hne.
  destruct (dispatch_same_elsewhere u e (enter w u) other Hne)
    as (Hp & Hv & Ha).
  subst w'. unfold step, leave. cbn [fst snd w_db w_user_data].
  split; [exact Hp|]. split; [exact Hv|]. split; [exact Ha|].
  by rewrite lookup_insert_ne.
Qed.

(** The second user starts while the first is at the last rating. *)
Lemma step_isolation_witness :
  7 ≠ u_id bea ∧
  let w := world_at_last_rating in
  let w' := step w (bea, Ev_start true) in
  participants (w_db w') !! 7 = participants (w_db w) !! 7 ∧
  (∀ pos, video_sequence (w_db w') !! (7, pos)
          = video_sequence (w_db w) !! (7, pos)) ∧
  (∀ pos, answers (w_db w') !! (7, pos) = answers (w_db w) !! (7, pos)) ∧
  w_user_data w' !! 7 = w_user_data w !! 7.
Proof.
  assert (H : 7 ≠ u_id bea) by (simpl; lia).
  split; [exact H|].
  exact (step_isolation world_at_last_rating bea (Ev_start true) 7 H).
Defined.

(** ** Answers are never lost *)

Lemma answer_grows_refl a : answer_grows a a.
Proof. by repeat split. Qed.

Lemma answers_grow_refl d : answers_grow d d.
Proof. intros k a Ha. exists a. split; [done|apply answer_grows_refl]. Qed.

Lemma answers_grow_trans d1 d2 d3 :
  answers_grow d1 d2 → answers_grow d2 d3 → answers_grow d1 d3.
Proof.
  intros H12 H23 k a Ha.
  destruct (H12 k a Ha) as (a2 & Ha2 & G1 & G2 & G3 & G4).
  destruct (H23 k a2 Ha2) as (a3 & Ha3 & G1' & G2' & G3' & G4').
  exists a3. split; [done|]. repeat split; auto.
Qed.

Lemma same_answers_grow d d' : answers d' = answers d → answers_grow d d'.
Proof. intros Heq k a Ha. rewrite Heq. exists a. by split; [|apply answer_grows_refl]. Qed.

Lemma upsert_answer_field_grows user_id pos sc f wr d :
  answers_grow d (upsert_answer_field user_id pos sc f wr d).
Proof.
  intros k a Ha. unfold upsert_answer_field. cbn [answers].
  destruct (decide (k = (user_id, pos))) as [->|Hne].
  - rewrite lookup_insert_eq, Ha. eexists. split; [done|].
    destruct wr; repeat split; simpl; eauto.
  - rewrite lookup_insert_ne by done. exists a.
    split; [done|apply answer_grows_refl].
Qed.

Lemma step_answers_grow {py : Python}
    w x : answers_grow (w_db w) (w_db (step w x)).
Proof.
  destruct x as [u e]. unfold step, leave. cbn [fst snd w_db].
  change (w_db w) with (st_db (enter w u)) at 1.
  apply (rel_dispatch _ answers_grow_refl answers_grow_trans (u_id u));
    try done; intros; try (by apply same_answers_grow).
  apply upsert_answer_field_grows.
Qed.

(** X2. Whatever events are handled, every answer row of the store is still
    there afterwards, and each of its four fields that was filled is still
    filled. *)
Theorem answers_never_lost {py : Python}
    (w : world) (events : list (update * event)) :
  ∀ user_id pos a,
    get_answer (w_db w) user_id pos = Some a →
    ∃ a', get_answer (w_db (run_events w events)) user_id pos = Some a' ∧
          (is_Some (description a) → is_Some (description a')) ∧
          (is_Some (adv_behavior a) → is_Some (adv_behavior a')) ∧
          (is_Some (adv_choice a) → is_Some (adv_choice a')) ∧
          (is_Some (scenario_rating a) → is_Some (scenario_rating a')).
Proof.
  assert (H : answers_grow (w_db w) (w_db (run_events w events))).
  { revert w. induction events as [|x events IH]; intros w.
    - apply answers_grow_refl.
    - simpl. eapply answers_grow_trans; [apply step_answers_grow|apply IH]. }
  intros uid pos a Ha. exact (H (uid, pos) a Ha).
Qed.

(** The answers of the last video survive the last rating and what
    follows. *)
Lemma answers_never_lost_witness :
  let w := world_at_last_rating in
  let events := [(alex, Ev_callback "likert_7"); (alex, Ev_start true);
                 (alex, Ev_text (Some "ещё текст"))] in
  get_answer (w_db w) 7 3 = Some alex_last_answer ∧
  ∃ a', get_answer (w_db (run_events w events)) 7 3 = Some a' ∧
        (is_Some (description alex_last_answer) → is_Some (description a')) ∧
        (is_Some (adv_behavior alex_last_answer) → is_Some (adv_behavior a')) ∧
        (is_Some (adv_choice alex_last_answer) → is_Some (adv_choice a')) ∧
        (is_Some (scenario_rating alex_last_answer)
         → is_Some (scenario_rating a')).
Proof.
  assert (H : get_answer (w_db world_at_last_rating) 7 3 = Some alex_last_answer)
    by (vm_compute; reflexivity).
  split; [exact H|].
  exact (answers_never_lost world_at_last_rating
           [(alex, Ev_callback "likert_7"); (alex, Ev_start true);
            (alex, Ev_text (Some "ещё текст"))] 7 3 alex_last_answer H).
Defined.

(** ** Assignments in reachable states *)

Lemma video_files_key cond files :
  VIDEO_FILES !! cond = Some files → cond ∈ VIDEO_CONDITIONS.
Proof.
  intros Hf. destruct (decide (cond ∈ VIDEO_CONDITIONS)) as [|Hnot]; [done|].
  assert (VIDEO_FILES !! cond = None) as Hn
    by (apply not_elem_of_list_to_map; exact Hnot).
  congruence.
Qed.

Lemma replace_sequence_assignment user_id cond files vs draws d :
  VIDEO_FILES !! cond = Some files →
  collect_videos files SCENARIOS = Some vs →
  ∀ pos, video_sequence (replace_sequence user_id cond (shuffle draws vs) d)
           !! (user_id, pos)
         = assignment_row cond (shuffle draws vs).*1 pos.
Proof.
  intros Hf Hv pos. unfold replace_sequence, assignment_row.
  cbn [video_sequence].
  pose proof (shuffle_perm draws vs) as Hperm.
  assert (Hlen : length (shuffle draws vs) = 4%nat).
  { rewrite Hperm, <- (length_fmap fst), (collect_videos_fst _ _ _ Hv). done. }
  rewrite insert_sequence_lookup, Hlen, Z.sub_0_r.
  case_decide; case_decide; try lia.
  - rewrite list_lookup_fmap.
    destruct (shuffle draws vs !! Z.to_nat pos) as [[sc f]|] eqn:Hl; [|done].
    simpl. unfold file_of. rewrite Hf. simpl.
    rewrite (collect_videos_file files SCENARIOS vs sc f Hv); [done|].
    rewrite <- Hperm. by eapply list_elem_of_lookup_2.
  - apply delete_sequence_lookup_same.
Qed.

Lemma assignments_ok_same d d' :
  video_sequence d' = video_sequence d → assignments_ok d → assignments_ok d'.
Proof. intros Heq H uid. unfold assignment_ok. rewrite Heq. apply H. Qed.

Lemma assignments_ok_replace user_id cond files vs draws d :
  VIDEO_FILES !! cond = Some files →
  collect_videos files SCENARIOS = Some vs →
  assignments_ok d →
  assignments_ok (replace_sequence user_id cond (shuffle draws vs) d).
Proof.
  intros Hf Hv Hok uid. destruct (decide (uid = user_id)) as [->|Hne].
  - right. exists cond, (shuffle draws vs).*1.
    split; [by eapply video_files_key|]. split.
    + rewrite (shuffle_perm draws vs). by rewrite (collect_videos_fst _ _ _ Hv).
    + by apply (replace_sequence_assignment user_id cond files).
  - destruct (same_elsewhere_replace_sequence user_id cond (shuffle draws vs) d
                uid Hne) as (_ & Heq & _).
    destruct (Hok uid) as [Hnone|(c & o & Hc & Ho & Hrows)].
    + left. intros pos. by rewrite Heq.
    + right. exists c, o. split; [done|]. split; [done|].
      intros pos. by rewrite Heq.
Qed.

Lemma step_assignments_ok {py : Python} w x :
  assignments_ok (w_db w) → assignments_ok (w_db (step w x)).
Proof.
  destruct x as [u e]. unfold step, leave. cbn [fst snd w_db].
  change (w_db w) with (st_db (enter w u)) at 1.
  apply (rel_dispatch (λ d d', assignments_ok d → assignments_ok d')
           (λ d H, H) (λ d1 d2 d3 H12 H23 H, H23 (H12 H)) (u_id u));
    try done; intros; try (by eapply assignments_ok_same).
  by eapply assignments_ok_replace.
Qed.

Lemma reachable_assignments_ok {py : Python}
    w : reachable w → assignments_ok (w_db w).
Proof.
  induction 1 as [|w x _ IH|w _ IH].
  - intros uid. left. intros pos. simpl. apply lookup_empty.
  - by apply step_assignments_ok.
  - exact IH.
Qed.

Lemma assignment_row_Some cond order pos v :
  assignment_row cond order pos = Some v →
  0 ≤ pos < 4 ∧ v_condition v = cond ∧ v_scenario v ∈ order ∧
  file_of cond (v_scenario v) = Some (v_file_id v).
Proof.
  unfold assignment_row. case_decide; [|done].
  destruct (order !! Z.to_nat pos) as [sc|] eqn:Hsc; [|done]. simpl.
  destruct (file_of cond sc) as [f|] eqn:Hf; [|done]. simpl.
  intros [= <-]. simpl. repeat split; try done; try lia.
  by eapply list_elem_of_lookup_2.
Qed.

Lemma assignment_row_is_Some cond order pos :
  cond ∈ VIDEO_CONDITIONS → order ≡ₚ SCENARIOS → 0 ≤ pos < 4 →
  is_Some (assignment_row cond order pos).
Proof.
  intros Hc Ho Hpos. unfold assignment_row. rewrite decide_True by done.
  destruct (lookup_lt_is_Some_2 order (Z.to_nat pos)) as [sc Hsc].
  { rewrite Ho. simpl. lia. }
  rewrite Hsc. simpl.
  destruct (recognized_condition_videos cond Hc) as (files & vs & Hf & Hv).
  assert (sc ∈ vs.*1) as [[sc' f] [-> Hin]]%list_elem_of_fmap.
  { rewrite (collect_videos_fst _ _ _ Hv), <- Ho. by eapply list_elem_of_lookup_2. }
  unfold file_of. rewrite Hf. simpl.
  rewrite (collect_videos_file _ _ _ _ _ Hv Hin). by eexists.
Qed.

(** X3. In every reachable state the assignment of a user is absent or
    whole: if any row exists, there is a row at each of the positions 0 to 3
    and nowhere else, all rows carry one recognized condition, each carries
    a scenario of the scenario set with its media reference under that
    condition, and the scenarios at two different positions differ. *)
Theorem assignment_whole_or_absent {py : Python} (w : world) (user_id : Z) :
  reachable w →
  (∀ pos, get_video_by_position (w_db w) user_id pos = None) ∨
  ∃ cond,
    cond ∈ VIDEO_CONDITIONS ∧
    (∀ pos, is_Some (get_video_by_position (w_db w) user_id pos) ↔ 0 ≤ pos < 4) ∧
    (∀ pos v, get_video_by_position (w_db w) user_id pos = Some v →
       v_condition v = cond ∧ v_scenario v ∈ SCENARIOS ∧
       file_of cond (v_scenario v) = Some (v_file_id v)) ∧
    (∀ pos1 pos2 v1 v2,
       get_video_by_position (w_db w) user_id pos1 = Some v1 →
       get_video_by_position (w_db w) user_id pos2 = Some v2 →
       v_scenario v1 = v_scenario v2 → pos1 = pos2).
Proof.
  intros Hw. unfold get_video_by_position.
  destruct (reachable_assignments_ok w Hw user_id)
    as [Hnone|(cond & order & Hc & Ho & Hrows)]; [by left|].
  right. exists cond. split; [done|]. split; [|split].
  - intros pos. rewrite Hrows. split.
    + intros [v Hv]. by apply assignment_row_Some in Hv as (? & _).
    + by apply assignment_row_is_Some.
  - intros pos v. rewrite Hrows. intros (_ & ? & Hin & ?)%assignment_row_Some.
    rewrite Ho in Hin. done.
  - intros pos1 pos2 v1 v2. rewrite !Hrows. unfold assignment_row.
    repeat case_decide; try done.
    destruct (order !! Z.to_nat pos1) as [sc1|] eqn:H1; [|done].
    destruct (order !! Z.to_nat pos2) as [sc2|] eqn:H2; [|done]. simpl.
    destruct (file_of cond sc1), (file_of cond sc2); try done. simpl.
    intros [= <-] [= <-]. simpl. intros ->.
    assert (NoDup order) as Hnd by (rewrite Ho; apply SCENARIOS_NoDup).
    pose proof (NoDup_lookup _ _ _ _ Hnd H1 H2). lia.
Qed.

Lemma assignment_whole_or_absent_witness :
  reachable world_at_video_0 ∧
  ((∀ pos, get_video_by_position (w_db world_at_video_0) 7 pos = None) ∨
   ∃ cond,
     cond ∈ VIDEO_CONDITIONS ∧
     (∀ pos, is_Some (get_video_by_position (w_db world_at_video_0) 7 pos)
             ↔ 0 ≤ pos < 4) ∧
     (∀ pos v, get_video_by_position (w_db world_at_video_0) 7 pos = Some v →
        v_condition v = cond ∧ v_scenario v ∈ SCENARIOS ∧
        file_of cond (v_scenario v) = Some (v_file_id v)) ∧
     (∀ pos1 pos2 v1 v2,
        get_video_by_position (w_db world_at_video_0) 7 pos1 = Some v1 →
        get_video_by_position (w_db world_at_video_0) 7 pos2 = Some v2 →
        v_scenario v1 = v_scenario v2 → pos1 = pos2)).
Proof.
  assert (H : reachable world_at_video_0)
    by (apply reachable_run_events, reach_init).
  split; [exact H|].
  exact (assignment_whole_or_absent world_at_video_0 7 H).
Defined.

(** ** No exception leaves a handler *)

Lemma assigned_scenario_known d user_id pos v :
  assignments_ok d → video_sequence d !! (user_id, pos) = Some v →
  v_scenario v ∈ SCENARIO_QUESTIONS.
Proof.
  intros Hok Hv. destruct (Hok user_id) as [Hn|(c & o & _ & Ho & Hrows)].
  - by rewrite Hn in Hv.
  - rewrite Hrows in Hv. apply assignment_row_Some in Hv as (_ & _ & Hin & _).
    by rewrite Ho in Hin.
Qed.

Lemma continue_experiment_safe u s :
  assignments_ok (st_db s) → (continue_experiment u s).1 = Ok tt.
Proof.
  intros Hok. unfold continue_experiment. cbv zeta. run_monad.
  destruct (get_participant (st_db s) (u_id u)) as [p|]; [|done].
  destruct (truthy (completed p)); [done|].
  destruct (get_video_by_position (st_db s) (u_id u) (current_video_idx p))
    as [v|] eqn:Hv; [|done].
  cbn [st_db st_commits st_ud st_sent fst snd].
  destruct (determine_next_stage (st_db s) (u_id u)); try done.
  unfold send_scenario_rating_question.
  rewrite bool_decide_eq_true_2; [done|].
  by eapply assigned_scenario_known.
Qed.

Lemma start_safe u s : assignments_ok (st_db s) → (start u s).1 = Ok tt.
Proof.
  intros Hok. unfold start, start_on, reply_text. cbv zeta. run_monad.
  match goal with
  | |- context [get_participant ?d ?i] => destruct (get_participant d i) as [p|]
  end; [|done].
  destruct (truthy (completed p)); [done|].
  destruct (negb (str_truthy (participant_name p))); [done|].
  destruct (negb (str_truthy (gender p))); [done|].
  destruct (age p); [|done].
  by apply continue_experiment_safe.
Qed.

Lemma handle_likert_safe {py : Python}
    u data s : (handle_likert u data s).1 = Ok tt.
Proof.
  unfold handle_likert, try_except.
  by destruct (handle_likert_body u data s) as [[[]|e] s'].
Qed.

Lemma choice_recognized draw cond :
  choice draw VIDEO_CONDITIONS = Some cond → cond ∈ VIDEO_CONDITIONS.
Proof. unfold choice. apply list_elem_of_lookup_2. Qed.

(** The guards of the per-video block of [handle_text] and of
    [handle_likert]: each is split, the rejecting side closed. *)
Ltac video_block_cases :=
  repeat match goal with
  | |- context [match get_participant ?d ?i with _ => _ end] =>
      destruct (get_participant d i) as [?p|]; [|done]
  | |- context [if truthy ?c then _ else _] => destruct (truthy c); [done|]
  | |- context [match get_video_by_position ?d ?i ?j with _ => _ end] =>
      destruct (get_video_by_position d i j) as [?v|]; [|done]
  end.

Lemma handle_text_safe {py : Python} u message s :
  assignments_ok (st_db s) → (handle_text u message s).1 = Ok tt.
Proof.
  intros Hok. unfold handle_text. destruct message as [text|]; [|done].
  cbv zeta. run_monad.
  destruct (stage (st_ud s)) as [stg|]; [|done].
  destruct stg; try done;
    cbn [st_db st_commits st_ud st_sent fst snd].
  - destruct (parse_int (strip text)) as [age|]; [|done].
    destruct ((age <=? 0) || (age >? 120))%bool; [done|].
    destruct (choice (u_choice u) VIDEO_CONDITIONS) as [cond|] eqn:Hcond.
    2: { destruct (choice_condition (u_choice u)) as [c Hc]. congruence. }
    cbn [st_db st_commits st_ud st_sent fst snd].
    destruct (recognized_condition_videos cond (choice_recognized _ _ Hcond))
      as (files & vs & Hf & Hv).
    unfold create_video_sequence_for_participant.
    rewrite (create_video_sequence_with_ok _ _ _ _ _ _ _ _ Hf Hv).
    cbv zeta. cbn [st_db st_commits st_ud st_sent fst snd].
    apply continue_experiment_safe. cbn [st_db].
    eapply assignments_ok_replace; [done|done|].
    by repeat (eapply assignments_ok_same; [|try eassumption]).
  - video_block_cases; done.
  - video_block_cases; done.
  - video_block_cases.
    cbn [st_db st_commits st_ud st_sent fst snd].
    apply continue_experiment_safe. cbn [st_db].
    by repeat (eapply assignments_ok_same; [|try eassumption]).
  - video_block_cases; done.
  - video_block_cases; done.
  - video_block_cases; done.
Qed.

Lemma start_on_missing u s : (start_on false u s).1 = Raise AttributeError.
Proof.
  unfold start_on, reply_text. cbv zeta. run_monad.
  match goal with
  | |- context [get_participant ?d ?i] => destruct (get_participant d i) as [p|]
  end; [|done].
  destruct (truthy (completed p)); [done|].
  destruct (negb (str_truthy (participant_name p))); [done|].
  destruct (negb (str_truthy (gender p))); [done|].
  by destruct (age p).
Qed.

(** X4. In every reachable state, whatever the user and the random draws,
    the handler of an event ends without an exception, two kinds of update
    apart: a [/start] and a video that arrive as edited messages, where
    [update.message] is [None].  There the handler raises [AttributeError]
    and the top-level error handler is reached. *)
Theorem no_exception_escapes {py : Python}
    (w : world) (u : update) (e : event) :
  reachable w →
  (dispatch u e (enter w u)).1
  = if message_missing e then Raise AttributeError else Ok tt.
Proof.
  intros Hw. pose proof (reachable_assignments_ok w Hw) as Hok.
  destruct e as [[]|message|data|[[]|]]; cbn [dispatch message_missing].
  - by apply start_safe.
  - apply start_on_missing.
  - by apply handle_text_safe.
  - destruct (startswith data "gender_"); [done|].
    destruct (likert_pattern data); [apply handle_likert_safe|done].
  - done.
  - done.
  - done.
Qed.

Lemma no_exception_escapes_witness :
  reachable world_at_last_rating ∧
  (dispatch alex (Ev_callback "likert_7") (enter world_at_last_rating alex)).1
  = if message_missing (Ev_callback "likert_7")
    then Raise AttributeError else Ok tt.
Proof.
  assert (H : reachable world_at_last_rating)
    by (do 2 apply reachable_run_events; apply reach_init).
  split; [exact H|].
  exact (no_exception_escapes world_at_last_rating alex
           (Ev_callback "likert_7") H).
Defined.

(** An edited [/start] of a participant in the experiment: the error
    handler's message is all that is sent, and the store is as it was. *)
Example edited_start_raises :
  let r := leave world_at_last_rating alex
             (dispatch alex (Ev_start false) (enter world_at_last_rating alex)) in
  r.2 = [R_handler_error] ∧ w_db r.1 = w_db world_at_last_rating.
Proof. vm_compute. done. Qed.

(** ** The session stage and the resolver *)

Lemma determine_next_stage_open d user_id p :
  get_participant d user_id = Some p →
  truthy (completed p) = false →
  current_video_idx p < total_videos p →
  determine_next_stage d user_id
  ∈ [expect_description; expect_adv_behavior; expect_adv_choice; expect_rating].
Proof.
  intros Hp Hc Hlt. unfold determine_next_stage. rewrite Hp, Hc.
  destruct (Z.geb_spec (current_video_idx p) (total_videos p)); [lia|].
  destruct (get_answer d user_id (current_video_idx p)) as [a|];
    [|by left].
  destruct (description a), (adv_behavior a), (adv_choice a),
    (scenario_rating a); repeat (first [by left|right]).
Qed.

(** The session and the messages after [continue_experiment] for a
    participant in the experiment. *)
Lemma continue_experiment_stage u s p v :
  get_participant (st_db s) (u_id u) = Some p →
  truthy (completed p) = false →
  current_video_idx p < total_videos p →
  get_video_by_position (st_db s) (u_id u) (current_video_idx p) = Some v →
  let r := continue_experiment u s in
  let stg := determine_next_stage (st_db s) (u_id u) in
  st_ud r.2 = mkUD (Some stg) (ud_participant_name (st_ud s))
                (ud_gender (st_ud s)) ∧
  (stg = expect_description →
   r.1 = Ok tt ∧
   st_sent r.2 =
     R_ask_description
       :: R_video (v_file_id v) (current_video_idx p + 1) (total_videos p)
       :: st_sent s).
Proof.
  intros Hp Hc Hlt Hv. cbv zeta.
  pose proof (determine_next_stage_open _ _ _ Hp Hc Hlt) as Hstg.
  split.
  - unfold continue_experiment. cbv zeta. run_monad. rewrite Hp, Hc, Hv.
    cbn [st_db st_commits st_ud st_sent fst snd].
    destruct (determine_next_stage (st_db s) (u_id u)); try done;
      try (exfalso;
           repeat (apply elem_of_cons in Hstg as [?|Hstg]; [done|]);
           by apply elem_of_nil in Hstg).
    unfold send_scenario_rating_question.
    by destruct (bool_decide (v_scenario v ∈ SCENARIO_QUESTIONS)).
  - intros Hd. unfold continue_experiment. cbv zeta. run_monad.
    rewrite Hp, Hc, Hv. cbn [st_db st_commits st_ud st_sent fst snd].
    by rewrite Hd.
Qed.

(** X5. Let the participant exist, not have completed, be at a position
    below the total, and have a video assigned there.  Then
    [continue_experiment] leaves the store alone and sets the session stage
    to the stage the resolver computes, which is one of the four question
    stages; when that is the description, the video of the current position
    is sent first, numbered from 1, and then the question. *)
Theorem continue_experiment_agrees (u : update) (s : hstate)
    (p : participant) (v : video_row) :
  get_participant (st_db s) (u_id u) = Some p →
  truthy (completed p) = false →
  current_video_idx p < total_videos p →
  get_video_by_position (st_db s) (u_id u) (current_video_idx p) = Some v →
  let r := continue_experiment u s in
  let stg := determine_next_stage (st_db s) (u_id u) in
  st_db r.2 = st_db s ∧
  st_ud r.2 = mkUD (Some stg) (ud_participant_name (st_ud s))
                (ud_gender (st_ud s)) ∧
  stg ∈ [expect_description; expect_adv_behavior; expect_adv_choice;
         expect_rating] ∧
  (stg = expect_description →
   st_sent r.2 =
     R_ask_description
       :: R_video (v_file_id v) (current_video_idx p + 1) (total_videos p)
       :: st_sent s).
Proof.
  intros Hp Hc Hlt Hv. cbv zeta.
  destruct (continue_experiment_stage u s p v Hp Hc Hlt Hv) as [Hud Hsent].
  split; [apply read_only_continue_experiment|].
  split; [exact Hud|]. split; [by eapply determine_next_stage_open|].
  intros Hd. by apply Hsent.
Qed.

Lemma continue_experiment_agrees_witness :
  let s := enter world_at_video_0 alex in
  get_participant (st_db s) (u_id alex) = Some alex_at_video_0 ∧
  truthy (completed alex_at_video_0) = false ∧
  current_video_idx alex_at_video_0 < total_videos alex_at_video_0 ∧
  get_video_by_position (st_db s) (u_id alex)
    (current_video_idx alex_at_video_0) = Some alex_first_video ∧
  let r := continue_experiment alex s in
  let stg := determine_next_stage (st_db s) (u_id alex) in
  st_db r.2 = st_db s ∧
  st_ud r.2 = mkUD (Some stg) (ud_participant_name (st_ud s))
                (ud_gender (st_ud s)) ∧
  stg ∈ [expect_description; expect_adv_behavior; expect_adv_choice;
         expect_rating] ∧
  (stg = expect_description →
   st_sent r.2 =
     R_ask_description
       :: R_video (v_file_id alex_first_video)
            (current_video_idx alex_at_video_0 + 1)
            (total_videos alex_at_video_0)
       :: st_sent s).
Proof.
  assert (H1 : get_participant (st_db (enter world_at_video_0 alex)) (u_id alex)
               = Some alex_at_video_0) by (vm_compute; reflexivity).
  assert (H2 : truthy (completed alex_at_video_0) = false) by reflexivity.
  assert (H3 : current_video_idx alex_at_video_0 < total_videos alex_at_video_0)
    by (simpl; lia).
  assert (H4 : get_video_by_position (st_db (enter world_at_video_0 alex))
                 (u_id alex) (current_video_idx alex_at_video_0)
               = Some alex_first_video) by (vm_compute; reflexivity).
  split; [exact H1|]. split; [exact H2|]. split; [exact H3|].
  split; [exact H4|].
  exact (continue_experiment_agrees alex (enter world_at_video_0 alex)
           alex_at_video_0 alex_first_video H1 H2 H3 H4).
Defined.

(** ** Text answers *)

(** The store after a text at a stage past the intake. *)
Lemma handle_text_video_block {py : Python} u text s stg :
  stage (st_ud s) = Some stg →
  stg ∉ [ask_name; ask_gender; ask_age] →
  let d1 := after_text_upsert u text (st_db s) in
  st_db (handle_text u (Some text) s).2 =
  match get_participant d1 (u_id u) with
  | None => d1
  | Some p =>
      if truthy (completed p) then d1
      else
        match get_video_by_position d1 (u_id u) (current_video_idx p),
              text_field stg (strip text) with
        | Some v, Some wr =>
            upsert_answer_field (u_id u) (current_video_idx p) (v_scenario v)
              (v_file_id v) wr d1
        | _, _ => d1
        end
  end.
Proof.
  intros Hstage Hstg. unfold handle_text, after_text_upsert. cbv zeta.
  run_monad. rewrite Hstage.
  destruct stg;
    try (by exfalso; apply Hstg; repeat (first [by left|right]));
    cbn [st_db st_commits st_ud st_sent fst snd text_field];
    repeat (match goal with
    | |- context [match get_participant ?d ?i with _ => _ end] =>
        destruct (get_participant d i) as [?p|]
    | |- context [if truthy ?c then _ else _] => destruct (truthy c)
    | |- context [match get_video_by_position ?d ?i ?j with _ => _ end] =>
        destruct (get_video_by_position d i j) as [?v|]
    end; cbn [st_db st_commits st_ud st_sent fst snd]);
    try done.
  match goal with
  | |- context [continue_experiment u ?s0] =>
      destruct (read_only_continue_experiment u s0) as [Hd _];
      destruct (continue_experiment u s0) as [[[]|e] s1]
  end; exact Hd.
Qed.

Lemma after_text_upsert_row {py : Python} u text d p :
  get_participant d (u_id u) = Some p →
  ∃ p', get_participant (after_text_upsert u text d) (u_id u) = Some p' ∧
        current_video_idx p' = current_video_idx p ∧
        total_videos p' = total_videos p ∧
        completed p' = completed p.
Proof.
  unfold get_participant, after_text_upsert, create_participant.
  cbn [participants]. intros Hp. rewrite lookup_insert_eq, Hp.
  by eexists.
Qed.

(** X6. Let the session stage be one of the three text questions of a
    video, the participant exist and not have completed, and a video be
    assigned at the current position.  Then a text writes the text, as
    [str.strip] leaves it, into the field of that stage in the answer row at the current position:
    the row takes the scenario and media reference of the assignment, its
    three other fields are what they were (null for a new row), every other
    answer row and the assignments are untouched, and position, total and
    completed flag are as before. *)
Theorem text_answer_stored {py : Python}
    (u : update) (text : string) (s : hstate)
    (stg : stage_t) (wr : field_write) (p : participant) (v : video_row) :
  stage (st_ud s) = Some stg →
  text_field stg (strip text) = Some wr →
  get_participant (st_db s) (u_id u) = Some p →
  truthy (completed p) = false →
  get_video_by_position (st_db s) (u_id u) (current_video_idx p) = Some v →
  let d := st_db s in
  let d' := st_db (handle_text u (Some text) s).2 in
  let old := get_answer d (u_id u) (current_video_idx p) in
  (∃ a, get_answer d' (u_id u) (current_video_idx p) = Some a ∧
        a_scenario a = v_scenario v ∧ a_file_id a = v_file_id v ∧
        description a
          = match wr with W_description t => Some t | _ => old ≫= description end ∧
        adv_behavior a
          = match wr with W_adv_behavior t => Some t | _ => old ≫= adv_behavior end ∧
        adv_choice a
          = match wr with W_adv_choice t => Some t | _ => old ≫= adv_choice end ∧
        scenario_rating a = old ≫= scenario_rating) ∧
  (∀ user_id pos, (user_id, pos) ≠ (u_id u, current_video_idx p) →
     get_answer d' user_id pos = get_answer d user_id pos) ∧
  video_sequence d' = video_sequence d ∧
  ∃ p', get_participant d' (u_id u) = Some p' ∧
        current_video_idx p' = current_video_idx p ∧
        total_videos p' = total_videos p ∧ completed p' = completed p.
Proof.
  intros Hstage Hwr Hp Hc Hv. cbv zeta.
  assert (Hstg : stg ∉ [ask_name; ask_gender; ask_age]).
  { intros Hin. repeat (apply elem_of_cons in Hin as [->|Hin]; [done|]).
    by apply elem_of_nil in Hin. }
  rewrite (handle_text_video_block u text s stg Hstage Hstg). cbv zeta.
  destruct (after_text_upsert_row u text (st_db s) p Hp)
    as (p1 & Hp1 & Hi & Ht & Hcc).
  rewrite Hp1, Hcc, Hc, Hi.
  change (get_video_by_position (after_text_upsert u text (st_db s)) (u_id u)
            (current_video_idx p))
    with (get_video_by_position (st_db s) (u_id u) (current_video_idx p)).
  rewrite Hv, Hwr.
  unfold get_answer, upsert_answer_field. cbn [answers video_sequence].
  split; [|split; [|split]].
  - rewrite lookup_insert_eq. eexists. split; [done|].
    change (answers (after_text_upsert u text (st_db s)))
      with (answers (st_db s)).
    destruct (answers (st_db s) !! (u_id u, current_video_idx p)) as [a0|];
      destruct wr; try done;
      unfold text_field in Hwr; destruct stg; done.
  - intros uid pos Hne. by rewrite lookup_insert_ne.
  - done.
  - exists p1. done.
Qed.

Lemma text_answer_stored_witness :
  let u := alex in
  let text := "робот берёт пиццу" in
  let s := enter world_at_video_0 alex in
  let p := alex_at_video_0 in
  let v := alex_first_video in
  let wr := W_description "робот берёт пиццу" in
  stage (st_ud s) = Some expect_description ∧
  text_field expect_description (strip text) = Some wr ∧
  get_participant (st_db s) (u_id u) = Some p ∧
  truthy (completed p) = false ∧
  get_video_by_position (st_db s) (u_id u) (current_video_idx p) = Some v ∧
  let d := st_db s in
  let d' := st_db (handle_text u (Some text) s).2 in
  let old := get_answer d (u_id u) (current_video_idx p) in
  (∃ a, get_answer d' (u_id u) (current_video_idx p) = Some a ∧
        a_scenario a = v_scenario v ∧ a_file_id a = v_file_id v ∧
        description a
          = match wr with W_description t => Some t | _ => old ≫= description end ∧
        adv_behavior a
          = match wr with W_adv_behavior t => Some t | _ => old ≫= adv_behavior end ∧
        adv_choice a
          = match wr with W_adv_choice t => Some t | _ => old ≫= adv_choice end ∧
        scenario_rating a = old ≫= scenario_rating) ∧
  (∀ user_id pos, (user_id, pos) ≠ (u_id u, current_video_idx p) →
     get_answer d' user_id pos = get_answer d user_id pos) ∧
  video_sequence d' = video_sequence d ∧
  ∃ p', get_participant d' (u_id u) = Some p' ∧
        current_video_idx p' = current_video_idx p ∧
        total_videos p' = total_videos p ∧ completed p' = completed p.
Proof.
  assert (H1 : stage (st_ud (enter world_at_video_0 alex))
               = Some expect_description) by (vm_compute; reflexivity).
  assert (H2 : text_field expect_description (strip "робот берёт пиццу")
               = Some (W_description "робот берёт пиццу")) by reflexivity.
  assert (H3 : get_participant (st_db (enter world_at_video_0 alex)) (u_id alex)
               = Some alex_at_video_0) by (vm_compute; reflexivity).
  assert (H4 : truthy (completed alex_at_video_0) = false) by reflexivity.
  assert (H5 : get_video_by_position (st_db (enter world_at_video_0 alex))
                 (u_id alex) (current_video_idx alex_at_video_0)
               = Some alex_first_video) by (vm_compute; reflexivity).
  split; [exact H1|]. split; [exact H2|]. split; [exact H3|].
  split; [exact H4|]. split; [exact H5|].
  exact (text_answer_stored alex "робот берёт пиццу"
           (enter world_at_video_0 alex) expect_description
           (W_description "робот берёт пиццу") alex_at_video_0
           alex_first_video H1 H2 H3 H4 H5).
Defined.

(** ** Answer rows away from the current position *)

Lemma create_video_sequence_answers draws user_id cond s :
  answers (st_db (create_video_sequence_for_participant draws user_id cond s).2)
  = answers (st_db s).
Proof.
  unfold create_video_sequence_for_participant, create_video_sequence_with.
  destruct (VIDEO_FILES !! cond) as [files|]; [|done].
  by destruct (collect_videos files SCENARIOS).
Qed.

(** A text while the session is in the intake, or has no stage, writes no
    answer. *)
Lemma handle_text_intake_answers {py : Python} u message s :
  (∀ stg, stage (st_ud s) = Some stg → stg ∈ [ask_name; ask_gender; ask_age]) →
  answers (st_db (handle_text u message s).2) = answers (st_db s).
Proof.
  intros Hstg. unfold handle_text. destruct message as [text|]; [|done].
  cbv zeta. run_monad.
  destruct (stage (st_ud s)) as [stg|]; [|done].
  specialize (Hstg stg eq_refl).
  destruct stg; try done;
    try (by exfalso;
         repeat (apply elem_of_cons in Hstg as [?|Hstg]; [done|]);
         apply elem_of_nil in Hstg).
  destruct (parse_int (strip text)) as [age|]; [|done].
  destruct ((age <=? 0) || (age >? 120))%bool; [done|].
  cbn [st_db st_commits st_ud st_sent fst snd].
  destruct (choice (u_choice u) VIDEO_CONDITIONS) as [cond|]; [|done].
  cbn [st_db st_commits st_ud st_sent fst snd].
  match goal with
  | |- context [create_video_sequence_for_participant ?a ?b ?c ?s0] =>
      pose proof (create_video_sequence_answers a b c s0) as Hseq;
      destruct (create_video_sequence_for_participant a b c s0)
        as [[[]|e] s1]
  end; cbn [st_db st_commits st_ud st_sent fst snd] in *; [|done].
  match goal with
  | |- context [continue_experiment u ?s0] =>
      destruct (read_only_continue_experiment u s0) as [Hd _];
      destruct (continue_experiment u s0) as [[[]|e] s2]
  end; cbn [st_db fst snd] in *; by rewrite Hd.
Qed.

Lemma stage_intake_or_not (stg : stage_t) :
  stg ∈ [ask_name; ask_gender; ask_age] ∨ stg ∉ [ask_name; ask_gender; ask_age].
Proof.
  destruct stg;
    first [ by (left; repeat (first [by left|right]))
          | right; intros Hin;
            repeat (apply elem_of_cons in Hin as [?|Hin]; [done|]);
            by apply elem_of_nil in Hin ].
Qed.

(** What an event of a user does to the answers table: nothing, or one
    write at the user's current position, and nothing once the user has
    completed. *)
Lemma dispatch_answers {py : Python} w u e p :
  get_participant (w_db w) (u_id u) = Some p →
  let d' := st_db (dispatch u e (enter w u)).2 in
  (∀ k, k ≠ (u_id u, current_video_idx p) →
        answers d' !! k = answers (w_db w) !! k) ∧
  (truthy (completed p) = true → answers d' = answers (w_db w)).
Proof.
  intros Hp. cbv zeta.
  assert (Hsame : ∀ d', answers d' = answers (w_db w) →
    (∀ k, k ≠ (u_id u, current_video_idx p) →
          answers d' !! k = answers (w_db w) !! k) ∧
    (truthy (completed p) = true → answers d' = answers (w_db w))).
  { intros d' ->. done. }
  destruct e as [message|message|data|message]; cbn [dispatch].
  - apply Hsame.
    apply (rel_start_on (λ d d', answers d' = answers d) (λ _, eq_refl)
             (λ d1 d2 d3 H12 H23, eq_trans H23 H12) (u_id u)); done.
  - destruct message as [text|]; [|by apply Hsame].
    destruct (stage (st_ud (enter w u))) as [stg|] eqn:Hstage.
    2: { apply Hsame, handle_text_intake_answers. intros stg. congruence. }
    destruct (stage_intake_or_not stg) as [Hin|Hout].
    { apply Hsame, handle_text_intake_answers. intros stg'. congruence. }
    rewrite (handle_text_video_block u text (enter w u) stg Hstage Hout).
    cbv zeta. cbn [enter st_db].
    destruct (after_text_upsert_row u text (w_db w) p Hp)
      as (p1 & Hp1 & Hi & _ & Hc).
    rewrite Hp1, Hc, Hi.
    destruct (truthy (completed p)); [by apply Hsame|].
    destruct (get_video_by_position _ _ _) as [v|]; [|by apply Hsame].
    destruct (text_field stg (strip text)) as [wr|]; [|by apply Hsame].
    split; [|done]. intros k Hk. unfold upsert_answer_field. cbn [answers].
    by rewrite lookup_insert_ne.
  - destruct (startswith data "gender_").
    + apply Hsame.
      apply (rel_handle_gender_choice (λ d d', answers d' = answers d)
               (λ _, eq_refl) (λ d1 d2 d3 H12 H23, eq_trans H23 H12) (u_id u));
        done.
    + destruct (likert_pattern data); [|by apply Hsame].
      destruct (handle_likert_commits u data (enter w u)) as [_ ->].
      unfold likert_commits. cbn [enter st_db]. rewrite Hp.
      destruct (likert_score data) as [score|]; [|by apply Hsame].
      destruct (truthy (completed p)); [by apply Hsame|].
      destruct (get_video_by_position _ _ _) as [v|]; [|by apply Hsame].
      cbn [hd]. split; [|done]. intros k Hk.
      unfold update_participant_progress, upsert_answer_field. cbn [answers].
      by rewrite lookup_insert_ne.
  - apply Hsame. by destruct message as [[]|].
Qed.

(** X7. An event of a user writes no answer row of that user but the one
    at the position the user is at before the event. *)
Theorem only_current_answer_written {py : Python}
    (w : world) (u : update) (e : event)
    (p : participant) (pos : Z) :
  get_participant (w_db w) (u_id u) = Some p →
  pos ≠ current_video_idx p →
  get_answer (w_db (step w (u, e))) (u_id u) pos
  = get_answer (w_db w) (u_id u) pos.
Proof.
  intros Hp Hpos. unfold get_answer, step, leave. cbn [fst snd w_db].
  apply (dispatch_answers w u e p Hp). congruence.
Qed.

Lemma only_current_answer_written_witness :
  get_participant (w_db world_at_last_rating) (u_id alex)
    = Some alex_at_last_rating ∧
  2 ≠ current_video_idx alex_at_last_rating ∧
  get_answer (w_db (step world_at_last_rating (alex, Ev_callback "likert_7")))
    (u_id alex) 2
  = get_answer (w_db world_at_last_rating) (u_id alex) 2.
Proof.
  assert (H1 : get_participant (w_db world_at_last_rating) (u_id alex)
               = Some alex_at_last_rating) by (vm_compute; reflexivity).
  assert (H2 : 2 ≠ current_video_idx alex_at_last_rating) by (simpl; lia).
  split; [exact H1|]. split; [exact H2|].
  exact (only_current_answer_written world_at_last_rating alex
           (Ev_callback "likert_7") alex_at_last_rating 2 H1 H2).
Defined.

(** ** After completion *)

(** X8. Once a participant has completed, no sequence of events, of this
    user or of others, changes any answer row of the participant. *)
Theorem completed_answers_final {py : Python}
    (w : world) (user_id : Z) (p : participant)
    (events : list (update * event)) (pos : Z) :
  get_participant (w_db w) user_id = Some p →
  truthy (completed p) = true →
  get_answer (w_db (run_events w events)) user_id pos
  = get_answer (w_db w) user_id pos.
Proof.
  revert w p. induction events as [|[u e] events IH]; intros w p Hp Hc; [done|].
  simpl. destruct (step_completed w (u, e) user_id p Hp Hc) as (p1 & Hp1 & Hc1).
  rewrite (IH _ p1 Hp1 Hc1). unfold get_answer, step, leave.
  cbn [fst snd w_db].
  destruct (decide (u_id u = user_id)) as [<-|Hne].
  - destruct (dispatch_answers w u e p Hp) as [_ Heq]. by rewrite (Heq Hc).
  - by destruct (dispatch_same_elsewhere u e (enter w u) user_id)
      as (_ & _ & ->).
Qed.

Lemma completed_answers_final_witness :
  get_participant (w_db world_completed) 7 = Some alex_completed ∧
  truthy (completed alex_completed) = true ∧
  get_answer
    (w_db (run_events world_completed
             [(alex, Ev_text (Some "ещё текст"));
              (alex, Ev_callback "likert_1");
              (bea, Ev_start true)])) 7 3
  = get_answer (w_db world_completed) 7 3.
Proof.
  assert (H1 : get_participant (w_db world_completed) 7 = Some alex_completed)
    by (vm_compute; reflexivity).
  assert (H2 : truthy (completed alex_completed) = true) by reflexivity.
  split; [exact H1|]. split; [exact H2|].
  exact (completed_answers_final world_completed 7 alex_completed
           [(alex, Ev_text (Some "ещё текст"));
            (alex, Ev_callback "likert_1");
            (bea, Ev_start true)] 3 H1 H2).
Defined.

(** ** The start command *)

Lemma start_on_store message u s :
  st_db (start_on message u s).2
  = ensure_user (u_id u) (or_empty (u_username u)) (or_empty (u_first_name u))
      (st_db s).
Proof.
  unfold start_on, reply_text. cbv zeta. run_monad.
  match goal with
  | |- context [get_participant ?d ?i] => destruct (get_participant d i) as [p|]
  end; [|by destruct message].
  destruct (truthy (completed p)); [by destruct message|].
  destruct (negb (str_truthy (participant_name p))); [by destruct message|].
  destruct (negb (str_truthy (gender p))); [by destruct message|].
  destruct (age p); [|by destruct message].
  destruct message; [|done].
  apply read_only_continue_experiment.
Qed.

(** X9. The start command writes the user's two Telegram names into the
    users table and nothing else into the store.  For an unknown user it
    empties the session and asks for the name.  For a participant who has
    completed it leaves the session alone.  Otherwise it asks for the first
    of name, gender and age that is missing (an empty name or gender counts
    as missing); and when none is, and a video is assigned at a current
    position below the total, it sets the stage the resolver computes. *)
Theorem start_resumes (u : update) (s : hstate) :
  let r := start u s in
  let d := st_db s in
  let d' := st_db r.2 in
  participants d' = participants d ∧
  video_sequence d' = video_sequence d ∧
  answers d' = answers d ∧
  users d' !! u_id u
    = Some (or_empty (u_username u), or_empty (u_first_name u)) ∧
  (∀ other, other ≠ u_id u → users d' !! other = users d !! other) ∧
  match get_participant d (u_id u) with
  | None =>
      st_ud r.2 = mkUD (Some ask_name) None None ∧
      st_sent r.2 = R_instruction :: st_sent s
  | Some p =>
      if truthy (completed p) then st_ud r.2 = st_ud s
      else if negb (str_truthy (participant_name p)) then
        stage (st_ud r.2) = Some ask_name ∧
        st_sent r.2 = R_ask_name :: st_sent s
      else if negb (str_truthy (gender p)) then
        stage (st_ud r.2) = Some ask_gender ∧
        st_sent r.2 = R_ask_gender :: st_sent s
      else
        match age p with
        | None =>
            stage (st_ud r.2) = Some ask_age ∧
            st_sent r.2 = R_ask_age :: st_sent s
        | Some _ =>
            ∀ v,
              current_video_idx p < total_videos p →
              get_video_by_position d (u_id u) (current_video_idx p) = Some v →
              stage (st_ud r.2) = Some (determine_next_stage d (u_id u))
        end
  end.
Proof.
  cbv zeta. unfold start. rewrite start_on_store.
  unfold ensure_user at 1 2 3 4 5.
  cbn [participants video_sequence answers users].
  split; [done|]. split; [done|]. split; [done|].
  split; [apply lookup_insert_eq|].
  split; [intros other Hne; by rewrite lookup_insert_ne|].
  unfold start, start_on, reply_text. cbv zeta. run_monad.
  change (get_participant (ensure_user _ _ _ (st_db s)) (u_id u))
    with (get_participant (st_db s) (u_id u)).
  destruct (get_participant (st_db s) (u_id u)) as [p|] eqn:Hp; [|done].
  destruct (truthy (completed p)) eqn:Hc; [done|].
  destruct (negb (str_truthy (participant_name p))); [done|].
  destruct (negb (str_truthy (gender p))); [done|].
  destruct (age p); [|done].
  intros v Hlt Hv.
  match goal with
  | |- context [continue_experiment u ?s0] =>
      destruct (continue_experiment_stage u s0 p v Hp Hc Hlt Hv) as [-> _]
  end.
  done.
Qed.

Example partial_intake_resumes_at_age :
  let w := step world_restarted_at_age (alex, Ev_start true) in
  stage (session_of world_restarted_at_age 7) = None ∧
  stage (session_of w 7) = Some ask_age ∧
  get_participant (w_db w) 7 = get_participant (w_db world_at_age) 7 ∧
  (participant_name <$> get_participant (w_db w) 7) = Some (Some "Alex") ∧
  (gender <$> get_participant (w_db w) 7) = Some (Some "Женский").
Proof. vm_compute. done. Qed.

(** ** Intake: name and gender button *)

(** X10. A text while the name is asked stores the text, as [str.strip]
    leaves it, as the participant's name, in the store and in the session, and moves the
    session to the gender question.  A row that existed keeps its gender,
    age, condition, position, total, completed flag and creation time; a new
    row starts at position 0 of 4, not completed, the other fields null.
    Assignments and answers are untouched. *)
Theorem name_stored {py : Python} (u : update) (text : string) (s : hstate) :
  stage (st_ud s) = Some ask_name →
  let r := handle_text u (Some text) s in
  let d := st_db s in
  let d' := st_db r.2 in
  r.1 = Ok tt ∧
  st_ud r.2 = mkUD (Some ask_gender) (Some (strip text)) (ud_gender (st_ud s)) ∧
  st_sent r.2 = R_ask_gender :: st_sent s ∧
  video_sequence d' = video_sequence d ∧ answers d' = answers d ∧
  ∃ p', get_participant d' (u_id u) = Some p' ∧
        participant_name p' = Some (strip text) ∧
        match get_participant d (u_id u) with
        | Some p =>
            gender p' = gender p ∧ age p' = age p ∧
            condition p' = condition p ∧
            current_video_idx p' = current_video_idx p ∧
            total_videos p' = total_videos p ∧ completed p' = completed p ∧
            created_at p' = created_at p
        | None =>
            gender p' = None ∧ age p' = None ∧ condition p' = None ∧
            current_video_idx p' = 0 ∧ total_videos p' = 4 ∧
            completed p' = 0 ∧ created_at p' = u_now u
        end.
Proof.
  intros Hstage. unfold handle_text. cbv zeta. run_monad. rewrite Hstage.
  cbn [st_db st_commits st_ud st_sent fst snd].
  repeat (split; [done|]).
  unfold get_participant, create_participant. cbn [participants].
  rewrite lookup_insert_eq. eexists. split; [done|].
  by destruct (participants (st_db s) !! u_id u).
Qed.

Lemma name_stored_witness :
  let u := bea in
  let text := "  Bea " in
  let s := enter (step initial_world (bea, Ev_start true)) bea in
  stage (st_ud s) = Some ask_name ∧
  let r := handle_text u (Some text) s in
  let d := st_db s in
  let d' := st_db r.2 in
  r.1 = Ok tt ∧
  st_ud r.2 = mkUD (Some ask_gender) (Some (strip text)) (ud_gender (st_ud s)) ∧
  st_sent r.2 = R_ask_gender :: st_sent s ∧
  video_sequence d' = video_sequence d ∧ answers d' = answers d ∧
  ∃ p', get_participant d' (u_id u) = Some p' ∧
        participant_name p' = Some (strip text) ∧
        match get_participant d (u_id u) with
        | Some p =>
            gender p' = gender p ∧ age p' = age p ∧
            condition p' = condition p ∧
            current_video_idx p' = current_video_idx p ∧
            total_videos p' = total_videos p ∧ completed p' = completed p ∧
            created_at p' = created_at p
        | None =>
            gender p' = None ∧ age p' = None ∧ condition p' = None ∧
            current_video_idx p' = 0 ∧ total_videos p' = 4 ∧
            completed p' = 0 ∧ created_at p' = u_now u
        end.
Proof.
  assert (H : stage (st_ud (enter (step initial_world (bea, Ev_start true)) bea))
              = Some ask_name) by (vm_compute; reflexivity).
  split; [exact H|].
  exact (name_stored bea "  Bea "
           (enter (step initial_world (bea, Ev_start true)) bea) H).
Defined.

(** X11. The gender callback stores one of the two labels, the female one
    exactly when the callback data contains the word female; the store and
    the session hold the same label, and the session moves to the age
    question.  The stored name is the session's when the session has one and
    is otherwise left alone; age, condition, position, total and completed
    flag of an existing row, the assignments and the answers are untouched.
    The data of the two buttons give their own labels. *)
Theorem gender_choice_stored (u : update) (data : string) (s : hstate) :
  let r := handle_gender_choice u data s in
  let d := st_db s in
  let d' := st_db r.2 in
  let label := if contains data "female" then "Женский" else "Мужской" in
  r.1 = Ok tt ∧
  st_ud r.2 = mkUD (Some ask_age) (ud_participant_name (st_ud s)) (Some label) ∧
  video_sequence d' = video_sequence d ∧ answers d' = answers d ∧
  (∃ p', get_participant d' (u_id u) = Some p' ∧
         gender p' = Some label ∧
         participant_name p'
           = set_if (ud_participant_name (st_ud s))
               (get_participant d (u_id u) ≫= participant_name) ∧
         ∀ p, get_participant d (u_id u) = Some p →
           age p' = age p ∧ condition p' = condition p ∧
           current_video_idx p' = current_video_idx p ∧
           total_videos p' = total_videos p ∧ completed p' = completed p) ∧
  (data = "gender_female" → label = "Женский") ∧
  (data = "gender_male" → label = "Мужской").
Proof.
  cbv zeta. unfold handle_gender_choice. cbv zeta. run_monad.
  cbn [st_db st_commits st_ud st_sent fst snd].
  repeat (split; [done|]).
  split; [|split; intros ->; reflexivity].
  unfold get_participant, create_participant. cbn [participants].
  rewrite lookup_insert_eq. eexists. split; [done|]. split; [done|].
  cbn [participant_name age condition current_video_idx total_videos completed].
  destruct (participants (st_db s) !! u_id u) as [p|]; simpl.
  - split; [done|]. by intros ? [= <-].
  - split; [done|]. by intros ?.
Qed.

(** ** The end of the intake *)

(** The store after a valid age. *)
Lemma handle_text_valid_age_db {py : Python} u text s age :
  stage (st_ud s) = Some ask_age →
  parse_int (strip text) = Some age → 1 ≤ age ≤ 120 →
  ∃ cond files vs,
    choice (u_choice u) VIDEO_CONDITIONS = Some cond ∧
    VIDEO_FILES !! cond = Some files ∧
    collect_videos files SCENARIOS = Some vs ∧
    st_db (handle_text u (Some text) s).2
    = replace_sequence (u_id u) cond (shuffle (u_shuffle u) vs)
        (after_age_writes u text (st_ud s) age cond (st_db s)).
Proof.
  intros Hstage Hage Hrange.
  destruct (choice_condition (u_choice u)) as [cond Hcond].
  destruct (recognized_condition_videos cond (choice_recognized _ _ Hcond))
    as (files & vs & Hf & Hv).
  exists cond, files, vs. repeat (split; [done|]).
  unfold handle_text. cbv zeta. run_monad. rewrite Hstage, Hage.
  destruct (Z.leb_spec age 0), (Z.gtb_spec age 120); try lia.
  cbn [orb st_db st_commits st_ud st_sent fst snd]. rewrite Hcond.
  cbn [st_db st_commits st_ud st_sent fst snd].
  unfold create_video_sequence_for_participant.
  rewrite (create_video_sequence_with_ok _ _ _ _ _ _ _ _ Hf Hv).
  cbv zeta. cbn [st_db st_commits st_ud st_sent fst snd].
  match goal with
  | |- context [continue_experiment u ?s0] =>
      destruct (read_only_continue_experiment u s0) as [Hd _];
      destruct (continue_experiment u s0) as [[[]|e] s2]
  end; exact Hd.
Qed.

(** X12. A text that [int] reads as an age from 1 to 120, while the age is
    asked, ends the intake.  The participant row then holds that age, the
    name and gender of the session (as [str.strip] leaves them; the empty
    string when the session has none), one of the two conditions and the
    total 4; position and completed flag are what they were (0 and unset
    for a new row).  The assignment of the
    user is whole under that condition: four rows at the positions 0 to 3,
    their scenarios a permutation of the scenario set.  The answers table is
    untouched. *)
Theorem valid_age_ends_intake {py : Python}
    (u : update) (text : string) (s : hstate)
    (n : Z) :
  stage (st_ud s) = Some ask_age →
  parse_int (strip text) = Some n → 1 ≤ n ≤ 120 →
  let d := st_db s in
  let d' := st_db (handle_text u (Some text) s).2 in
  ∃ cond order p',
    cond ∈ VIDEO_CONDITIONS ∧ order ≡ₚ SCENARIOS ∧
    get_participant d' (u_id u) = Some p' ∧
    age p' = Some n ∧
    participant_name p' = Some (strip (or_empty (ud_participant_name (st_ud s)))) ∧
    gender p' = Some (strip (or_empty (ud_gender (st_ud s)))) ∧
    condition p' = Some cond ∧ total_videos p' = 4 ∧
    current_video_idx p'
      = default 0 (current_video_idx <$> get_participant d (u_id u)) ∧
    completed p' = default 0 (completed <$> get_participant d (u_id u)) ∧
    (∀ pos, get_video_by_position d' (u_id u) pos
            = assignment_row cond order pos) ∧
    (∀ pos, is_Some (get_video_by_position d' (u_id u) pos) ↔ 0 ≤ pos < 4) ∧
    answers d' = answers d.
Proof.
  intros Hstage Hage Hrange. cbv zeta.
  destruct (handle_text_valid_age_db u text s n Hstage Hage Hrange)
    as (cond & files & vs & Hcond & Hf & Hv & ->).
  pose proof (choice_recognized _ _ Hcond) as Hrec.
  assert (Ho : (shuffle (u_shuffle u) vs).*1 ≡ₚ SCENARIOS).
  { rewrite (shuffle_perm (u_shuffle u) vs).
    by rewrite (collect_videos_fst _ _ _ Hv). }
  exists cond, ((shuffle (u_shuffle u) vs).*1).
  eexists. split; [done|]. split; [done|].
  split.
  { unfold get_participant, replace_sequence, after_age_writes,
      create_participant. cbn [participants]. by rewrite lookup_insert_eq. }
  unfold get_participant, after_text_upsert, create_participant.
  cbn [participants participant_name gender condition total_videos
       current_video_idx completed set_if].
  rewrite !lookup_insert_eq. cbn.
  repeat (split; [done|]).
  split; [by destruct (participants (st_db s) !! u_id u)|].
  split; [by destruct (participants (st_db s) !! u_id u)|].
  split; [|split; [|done]].
  - intros pos. unfold get_video_by_position.
    by apply (replace_sequence_assignment (u_id u) cond files).
  - intros pos. unfold get_video_by_position.
    rewrite (replace_sequence_assignment (u_id u) cond files vs) by done.
    split.
    + intros [v Hrow]. by apply assignment_row_Some in Hrow as (? & _).
    + by apply assignment_row_is_Some.
Qed.

Lemma valid_age_ends_intake_witness :
  let u := alex in
  let text := "29" in
  let s := enter world_at_age alex in
  stage (st_ud s) = Some ask_age ∧
  parse_int (strip text) = Some 29 ∧ 1 ≤ 29 ≤ 120 ∧
  let d := st_db s in
  let d' := st_db (handle_text u (Some text) s).2 in
  ∃ cond order p',
    cond ∈ VIDEO_CONDITIONS ∧ order ≡ₚ SCENARIOS ∧
    get_participant d' (u_id u) = Some p' ∧
    age p' = Some 29 ∧
    participant_name p' = Some (strip (or_empty (ud_participant_name (st_ud s)))) ∧
    gender p' = Some (strip (or_empty (ud_gender (st_ud s)))) ∧
    condition p' = Some cond ∧ total_videos p' = 4 ∧
    current_video_idx p'
      = default 0 (current_video_idx <$> get_participant d (u_id u)) ∧
    completed p' = default 0 (completed <$> get_participant d (u_id u)) ∧
    (∀ pos, get_video_by_position d' (u_id u) pos
            = assignment_row cond order pos) ∧
    (∀ pos, is_Some (get_video_by_position d' (u_id u) pos) ↔ 0 ≤ pos < 4) ∧
    answers d' = answers d.
Proof.
  assert (H1 : stage (st_ud (enter world_at_age alex)) = Some ask_age)
    by (vm_compute; reflexivity).
  assert (H2 : parse_int (strip "29") = Some 29) by reflexivity.
  assert (H3 : 1 ≤ 29 ≤ 120) by lia.
  split; [exact H1|]. split; [exact H2|]. split; [exact H3|].
  exact (valid_age_ends_intake alex "29" (enter world_at_age alex) 29 H1 H2 H3).
Defined.

(** ** The stored condition and the assignment *)

Lemma condition_assigned_same d d' user_id :
  condition_of d' user_id = condition_of d user_id →
  (∀ pos, video_sequence d' !! (user_id, pos)
          = video_sequence d !! (user_id, pos)) →
  condition_assigned d user_id → condition_assigned d' user_id.
Proof.
  intros Hc Hv [[Hn Hrows]|(c & o & Hsome & Hrec & Ho & Hrows)].
  - left. split; [congruence|]. intros pos. by rewrite Hv.
  - right. exists c, o. split; [congruence|]. split; [done|]. split; [done|].
    intros pos. by rewrite Hv.
Qed.

Lemma condition_of_plain_upsert now uid un fn pn g a d :
  condition_of (create_participant now uid un fn pn g a None None d) uid
  = condition_of d uid.
Proof.
  unfold condition_of, get_participant, create_participant.
  cbn [participants]. rewrite lookup_insert_eq.
  by destruct (participants d !! uid).
Qed.

Lemma handle_text_condition {py : Python} u message s :
  condition_assigned (st_db s) (u_id u) →
  condition_assigned (st_db (handle_text u message s).2) (u_id u).
Proof.
  intros HJ. destruct message as [text|]; [|done].
  destruct (stage (st_ud s)) as [stg|] eqn:Hstage.
  2: { unfold handle_text. run_monad. by rewrite Hstage. }
  destruct (stage_intake_or_not stg) as [Hin|Hout].
  - repeat (apply elem_of_cons in Hin as [->|Hin]).
    + unfold handle_text. cbv zeta. run_monad. rewrite Hstage.
      cbn [st_db st_commits st_ud st_sent fst snd].
      eapply condition_assigned_same; [apply condition_of_plain_upsert|done|done].
    + rewrite (handle_text_ask_gender u text s Hstage). cbv zeta. cbn [snd st_db].
      eapply condition_assigned_same; [apply condition_of_plain_upsert|done|done].
    + destruct (parse_int (strip text)) as [n|] eqn:Hn.
      * destruct (decide (1 ≤ n ≤ 120)) as [Hrange|Hrange].
        -- destruct (handle_text_valid_age_db u text s n Hstage Hn Hrange)
             as (cond & files & vs & Hcond & Hf & Hv & ->).
           right. exists cond, ((shuffle (u_shuffle u) vs).*1).
           split.
           { unfold condition_of, get_participant, replace_sequence,
               after_age_writes, create_participant.
             cbn [participants]. by rewrite lookup_insert_eq. }
           split; [by eapply choice_recognized|]. split.
           { rewrite (shuffle_perm (u_shuffle u) vs).
             by rewrite (collect_videos_fst _ _ _ Hv). }
           by apply (replace_sequence_assignment (u_id u) cond files).
        -- rewrite (handle_text_invalid_age u text s Hstage).
           ++ cbv zeta. cbn [snd st_db].
              eapply condition_assigned_same;
                [apply condition_of_plain_upsert|done|done].
           ++ intros n' Hn'. rewrite Hn in Hn'. simplify_eq. lia.
      * rewrite (handle_text_invalid_age u text s Hstage).
        -- cbv zeta. cbn [snd st_db].
           eapply condition_assigned_same;
             [apply condition_of_plain_upsert|done|done].
        -- intros n' Hn'. by rewrite Hn in Hn'.
    + by apply elem_of_nil in Hin.
  - rewrite (handle_text_video_block u text s stg Hstage Hout). cbv zeta.
    assert (HJ1 : condition_assigned (after_text_upsert u text (st_db s)) (u_id u)).
    { eapply condition_assigned_same;
        [apply condition_of_plain_upsert|done|done]. }
    destruct (get_participant _ _) as [p|]; [|done].
    destruct (truthy (completed p)); [done|].
    destruct (get_video_by_position _ _ _) as [v|]; [|done].
    destruct (text_field stg (strip text)) as [wr|]; [|done].
    eapply condition_assigned_same; [| |exact HJ1]; done.
Qed.

Lemma dispatch_condition {py : Python} u e s :
  condition_assigned (st_db s) (u_id u) →
  condition_assigned (st_db (dispatch u e s).2) (u_id u).
Proof.
  intros HJ. destruct e as [message|message|data|message]; cbn [dispatch].
  - rewrite start_on_store.
    eapply condition_assigned_same; [| |exact HJ]; done.
  - by apply handle_text_condition.
  - destruct (startswith data "gender_").
    + unfold handle_gender_choice. cbv zeta. run_monad.
      cbn [st_db st_commits st_ud st_sent fst snd].
      eapply condition_assigned_same;
        [apply condition_of_plain_upsert|done|done].
    + destruct (likert_pattern data); [|done].
      destruct (handle_likert_commits u data s) as [_ ->].
      unfold likert_commits.
      destruct (likert_score data) as [score|]; [|done].
      destruct (get_participant (st_db s) (u_id u)) as [p|] eqn:Hp; [|done].
      destruct (truthy (completed p)); [done|].
      destruct (get_video_by_position _ _ _) as [v|]; [|done].
      cbn [hd]. eapply condition_assigned_same; [| |exact HJ]; [|done].
      unfold condition_of, get_participant, update_participant_progress,
        upsert_answer_field. cbn [participants].
      unfold get_participant in Hp. by rewrite lookup_alter_eq, Hp.
  - by destruct message as [[]|].
Qed.

Lemma reachable_condition_assigned {py : Python} w user_id :
  reachable w → condition_assigned (w_db w) user_id.
Proof.
  intros Hw. revert user_id.
  induction Hw as [|w [u e] _ IH|w _ IH]; intros uid.
  - left. split; [done|]. intros pos. simpl. apply lookup_empty.
  - unfold step, leave. cbn [fst snd w_db].
    destruct (decide (uid = u_id u)) as [->|Hne].
    + apply (dispatch_condition u e (enter w u)), IH.
    + destruct (dispatch_same_elsewhere u e (enter w u) uid Hne)
        as (Hp & Hv & _).
      eapply condition_assigned_same; [| |apply (IH uid)].
      * unfold condition_of, get_participant. by rewrite Hp.
      * exact Hv.
  - apply IH.
Qed.

(** ** Snapshots inside an event *)

Lemma same_assignment_refl d : same_assignment d d.
Proof. by intros uid. Qed.

Lemma same_assignment_trans d1 d2 d3 :
  same_assignment d1 d2 → same_assignment d2 d3 → same_assignment d1 d3.
Proof.
  intros H12 H23 uid. destruct (H12 uid) as [Hc Hv], (H23 uid) as [Hc' Hv'].
  split; [congruence|]. intros pos. by rewrite Hv', Hv.
Qed.

Lemma same_assignment_ensure_user uid a b d :
  same_assignment d (ensure_user uid a b d).
Proof. by intros other. Qed.

Lemma same_assignment_upsert now uid un fn pn g a t d :
  same_assignment d (create_participant now uid un fn pn g a None t d).
Proof.
  intros other. split; [|done].
  unfold condition_of, get_participant, create_participant.
  cbn [participants].
  destruct (decide (other = uid)) as [->|Hne].
  - rewrite lookup_insert_eq. by destruct (participants d !! uid).
  - by rewrite lookup_insert_ne.
Qed.

Lemma same_assignment_answer uid pos sc f wr d :
  same_assignment d (upsert_answer_field uid pos sc f wr d).
Proof. by intros other. Qed.

Lemma same_assignment_progress uid i c d :
  same_assignment d (update_participant_progress uid i c d).
Proof.
  intros other. split; [|done].
  unfold condition_of, get_participant, update_participant_progress.
  cbn [participants].
  destruct (decide (other = uid)) as [->|Hne].
  - rewrite lookup_alter_eq. by destruct (participants d !! uid).
  - by rewrite lookup_alter_ne.
Qed.

Lemma condition_assigned_before_rows d user_id :
  condition_assigned d user_id → condition_before_rows d user_id.
Proof.
  intros [[Hn Hrows]|(c & o & Hsome & Hrec & Ho & Hrows)]; split.
  - by left.
  - intros [pos [v Hv]]. by rewrite Hrows in Hv.
  - right. by exists c, o.
  - intros _. by exists c.
Qed.

Lemma condition_before_rows_same d d' user_id :
  condition_of d' user_id = condition_of d user_id →
  (∀ pos, video_sequence d' !! (user_id, pos)
          = video_sequence d !! (user_id, pos)) →
  condition_before_rows d user_id → condition_before_rows d' user_id.
Proof.
  intros Hcond Hv [Hok Hc]. split.
  - destruct Hok as [Hn|(c & o & Hrec & Ho & Hrows)].
    + left. intros pos. by rewrite Hv.
    + right. exists c, o. split; [done|]. split; [done|].
      intros pos. by rewrite Hv.
  - intros [pos Hpos]. rewrite Hv in Hpos. rewrite Hcond. apply Hc. by exists pos.
Qed.

(** The four snapshots of the age step. *)
Lemma handle_text_valid_age_commits {py : Python} u text s age :
  stage (st_ud s) = Some ask_age →
  parse_int (strip text) = Some age → 1 ≤ age ≤ 120 →
  ∃ cond files vs,
    choice (u_choice u) VIDEO_CONDITIONS = Some cond ∧
    VIDEO_FILES !! cond = Some files ∧
    collect_videos files SCENARIOS = Some vs ∧
    let d1 := after_text_upsert u text (st_db s) in
    let d2 :=
      create_participant (u_now u) (u_id u) (u_username u) (u_first_name u)
        (Some (strip (or_empty (ud_participant_name (st_ud s)))))
        (Some (strip (or_empty (ud_gender (st_ud s))))) (Some age) None None
        d1 in
    let d3 := after_age_writes u text (st_ud s) age cond (st_db s) in
    let d4 := replace_sequence (u_id u) cond (shuffle (u_shuffle u) vs) d3 in
    st_commits (handle_text u (Some text) s).2
    = d4 :: d3 :: d2 :: d1 :: st_commits s.
Proof.
  intros Hstage Hage Hrange.
  destruct (choice_condition (u_choice u)) as [cond Hcond].
  destruct (recognized_condition_videos cond (choice_recognized _ _ Hcond))
    as (files & vs & Hf & Hv).
  exists cond, files, vs. repeat (split; [done|]).
  unfold handle_text. cbv zeta. run_monad. rewrite Hstage, Hage.
  destruct (Z.leb_spec age 0), (Z.gtb_spec age 120); try lia.
  cbn [orb st_db st_commits st_ud st_sent fst snd]. rewrite Hcond.
  cbn [st_db st_commits st_ud st_sent fst snd].
  unfold create_video_sequence_for_participant.
  rewrite (create_video_sequence_with_ok _ _ _ _ _ _ _ _ Hf Hv).
  cbv zeta. cbn [st_db st_commits st_ud st_sent fst snd].
  match goal with
  | |- context [continue_experiment u ?s0] =>
      destruct (read_only_continue_experiment u s0) as [_ Hc];
      destruct (continue_experiment u s0) as [[[]|e] s2]
  end; exact Hc.
Qed.

Ltac same_assignment_step :=
  first
    [ apply same_assignment_refl
    | apply same_assignment_ensure_user
    | apply same_assignment_upsert
    | apply same_assignment_answer
    | apply same_assignment_progress
    | eapply same_assignment_trans;
      [|first [ apply same_assignment_answer
              | apply same_assignment_progress
              | apply same_assignment_upsert ]] ].

(** The snapshots of a text at one of the per-video stages. *)
Lemma handle_text_video_block_commits {py : Python} u text s stg c :
  stage (st_ud s) = Some stg →
  stg ∉ [ask_name; ask_gender; ask_age] →
  c ∈ st_commits (handle_text u (Some text) s).2 →
  c ∈ st_commits s ∨ same_assignment (st_db s) c.
Proof.
  intros Hstage Hstg. unfold handle_text. cbv zeta.
  run_monad. rewrite Hstage.
  destruct stg;
    try (by exfalso; apply Hstg; repeat (first [by left|right]));
    cbn [st_db st_commits st_ud st_sent fst snd];
    repeat (match goal with
    | |- context [match get_participant ?d ?i with _ => _ end] =>
        destruct (get_participant d i) as [?p|]
    | |- context [if truthy ?c then _ else _] => destruct (truthy c)
    | |- context [match get_video_by_position ?d ?i ?j with _ => _ end] =>
        destruct (get_video_by_position d i j) as [?v|]
    end; cbn [st_db st_commits st_ud st_sent fst snd]);
    try match goal with
    | |- context [continue_experiment u ?s0] =>
        destruct (read_only_continue_experiment u s0) as [_ Hc];
        destruct (continue_experiment u s0) as [[[]|e] s1];
        cbn [st_db st_commits st_ud st_sent fst snd] in *; rewrite Hc
    end;
    intros Hin;
    repeat (apply elem_of_cons in Hin as [->|Hin]);
    first [ by left | right; repeat same_assignment_step ].
Qed.

Lemma handle_text_snapshots {py : Python} u message s c :
  (∀ uid, condition_assigned (st_db s) uid) →
  c ∈ st_commits (handle_text u message s).2 →
  c ∈ st_commits s ∨ ∀ uid, condition_before_rows c uid.
Proof.
  intros HJ.
  assert (Hsame : ∀ c, same_assignment (st_db s) c →
            ∀ uid, condition_before_rows c uid).
  { intros c' Hs uid. destruct (Hs uid) as [Hcond Hv].
    eapply condition_before_rows_same; [exact Hcond|exact Hv|].
    apply condition_assigned_before_rows, HJ. }
  destruct message as [text|]; [|by left].
  destruct (stage (st_ud s)) as [stg|] eqn:Hstage.
  2: { unfold handle_text. run_monad. rewrite Hstage. by left. }
  destruct (stage_intake_or_not stg) as [Hin|Hout].
  - repeat (apply elem_of_cons in Hin as [->|Hin]).
    + unfold handle_text. cbv zeta. run_monad. rewrite Hstage.
      cbn [st_db st_commits st_ud st_sent fst snd].
      intros [->|Hc]%elem_of_cons; [right|by left].
      apply Hsame. same_assignment_step.
    + rewrite (handle_text_ask_gender u text s Hstage). cbv zeta.
      cbn [snd st_commits].
      intros [->|Hc]%elem_of_cons; [right|by left].
      apply Hsame. same_assignment_step.
    + assert (Hbad : (∀ n, parse_int (strip text) = Some n → n < 1 ∨ 120 < n) →
                c ∈ st_commits (handle_text u (Some text) s).2 →
                c ∈ st_commits s ∨ ∀ uid, condition_before_rows c uid).
      { intros Hbad. rewrite (handle_text_invalid_age u text s Hstage Hbad).
        cbv zeta. cbn [snd st_commits].
        intros [->|Hc]%elem_of_cons; [right|by left].
        apply Hsame. same_assignment_step. }
      assert (Hcases : (∃ n, parse_int (strip text) = Some n ∧ 1 ≤ n ≤ 120) ∨
                (∀ n, parse_int (strip text) = Some n → n < 1 ∨ 120 < n)).
      { destruct (parse_int (strip text)) as [n|]; [|by right].
        destruct (decide (1 ≤ n ≤ 120)); [left; eauto|right].
        intros n' [= <-]. lia. }
      destruct Hcases as [(n & Hn & Hrange)|Hno]; [|by apply Hbad].
      clear Hbad.
      destruct (handle_text_valid_age_commits u text s n Hstage Hn Hrange)
        as (cond & files & vs & Hcond & Hf & Hv & ->).
      pose proof (choice_recognized _ _ Hcond) as Hrec.
      assert (H3 : ∀ uid, condition_before_rows
                 (after_age_writes u text (st_ud s) n cond (st_db s)) uid).
      { intros uid. destruct (decide (uid = u_id u)) as [->|Hne].
        - destruct (condition_assigned_before_rows _ _ (HJ (u_id u))) as [Hok _].
          split; [exact Hok|]. intros _. exists cond. split; [|done].
          unfold condition_of, get_participant, after_age_writes,
            create_participant. cbn [participants].
          by rewrite lookup_insert_eq.
        - eapply condition_before_rows_same;
            [| |apply condition_assigned_before_rows, (HJ uid)]; [|done].
          unfold condition_of, get_participant, after_age_writes,
            after_text_upsert, create_participant. cbn [participants].
          by rewrite !lookup_insert_ne. }
      intros Hc. repeat (apply elem_of_cons in Hc as [->|Hc]); [| | | |by left];
        right.
      * intros uid. destruct (decide (uid = u_id u)) as [->|Hne].
        -- apply condition_assigned_before_rows. right.
           exists cond, ((shuffle (u_shuffle u) vs).*1).
           split.
           { unfold condition_of, get_participant, replace_sequence,
               after_age_writes, create_participant.
             cbn [participants]. by rewrite lookup_insert_eq. }
           split; [done|]. split.
           { rewrite (shuffle_perm (u_shuffle u) vs).
             by rewrite (collect_videos_fst _ _ _ Hv). }
           by apply (replace_sequence_assignment (u_id u) cond files).
        -- destruct (same_elsewhere_replace_sequence (u_id u) cond
                       (shuffle (u_shuffle u) vs)
                       (after_age_writes u text (st_ud s) n cond (st_db s))
                       uid Hne) as (Hp & Hvs & _).
           eapply condition_before_rows_same; [| |apply (H3 uid)]; [|done].
           unfold condition_of, get_participant. by rewrite Hp.
      * exact H3.
      * apply Hsame. unfold after_text_upsert. repeat same_assignment_step.
      * apply Hsame. unfold after_text_upsert. same_assignment_step.
    + by apply elem_of_nil in Hin.
  - intros Hc.
    destruct (handle_text_video_block_commits u text s stg c Hstage Hout Hc)
      as [?|Hs]; [by left|right]. by apply Hsame.
Qed.

Lemma start_on_commits message u s :
  st_commits (start_on message u s).2
  = ensure_user (u_id u) (or_empty (u_username u)) (or_empty (u_first_name u))
      (st_db s) :: st_commits s.
Proof.
  unfold start_on, reply_text. cbv zeta. run_monad.
  match goal with
  | |- context [get_participant ?d ?i] => destruct (get_participant d i) as [p|]
  end; [|by destruct message].
  destruct (truthy (completed p)); [by destruct message|].
  destruct (negb (str_truthy (participant_name p))); [by destruct message|].
  destruct (negb (str_truthy (gender p))); [by destruct message|].
  destruct (age p); [|by destruct message].
  destruct message; [|done].
  apply read_only_continue_experiment.
Qed.

(** Every snapshot that handling an event commits, from a store in which
    condition and assignment agree. *)
Lemma dispatch_snapshots {py : Python} u e s c :
  (∀ uid, condition_assigned (st_db s) uid) →
  c ∈ st_commits (dispatch u e s).2 →
  c ∈ st_commits s ∨ ∀ uid, condition_before_rows c uid.
Proof.
  intros HJ.
  assert (Hsame : ∀ c, same_assignment (st_db s) c →
            ∀ uid, condition_before_rows c uid).
  { intros c' Hs uid. destruct (Hs uid) as [Hcond Hv].
    eapply condition_before_rows_same; [exact Hcond|exact Hv|].
    apply condition_assigned_before_rows, HJ. }
  destruct e as [message|message|data|message]; cbn [dispatch].
  - rewrite start_on_commits.
    intros [->|Hc]%elem_of_cons; [right|by left].
    apply Hsame. same_assignment_step.
  - by apply handle_text_snapshots.
  - destruct (startswith data "gender_").
    + unfold handle_gender_choice. cbv zeta. run_monad.
      cbn [st_db st_commits st_ud st_sent fst snd].
      intros [->|Hc]%elem_of_cons; [right|by left].
      apply Hsame. same_assignment_step.
    + destruct (likert_pattern data); [|by left].
      destruct (handle_likert_commits u data s) as [-> _].
      unfold likert_commits.
      destruct (likert_score data) as [score|]; [|by left].
      destruct (get_participant (st_db s) (u_id u)) as [p|]; [|by left].
      destruct (truthy (completed p)); [by left|].
      destruct (get_video_by_position _ _ _) as [v|]; [|by left].
      cbn [app]. intros Hc.
      repeat (apply elem_of_cons in Hc as [->|Hc]); [| |by left]; right;
        apply Hsame; repeat same_assignment_step.
  - destruct message as [[]|]; by left.
Qed.

Lemma observable_before_rows {py : Python} d user_id :
  observable d → condition_before_rows d user_id.
Proof.
  intros (w & Hw & [->|[[u e] Hc]]).
  - by apply condition_assigned_before_rows, reachable_condition_assigned.
  - unfold event_commits in Hc. cbn [fst snd] in Hc.
    apply dispatch_snapshots in Hc as [Hc|Hc].
    + by apply elem_of_nil in Hc.
    + apply Hc.
    + intros uid. by apply reachable_condition_assigned.
Qed.

(** X13. In every store a reader of the database can meet, the snapshots
    committed in the middle of an event included, the assignment of a user
    is absent or whole, with rows at exactly the positions 0 to 3 that
    carry one recognized condition, and a user with rows has a recognized
    condition stored.  Between two events more holds: the rows carry the
    stored condition, and a user with a stored condition has the rows.
    (The age step commits the condition before it commits the rows.) *)
Theorem condition_matches_assignment {py : Python} (d : DB) (user_id : Z) :
  observable d →
  ((∀ pos, get_video_by_position d user_id pos = None) ∨
   ∃ stored cond,
     get_participant d user_id ≫= condition = Some stored ∧
     stored ∈ VIDEO_CONDITIONS ∧ cond ∈ VIDEO_CONDITIONS ∧
     (∀ pos, is_Some (get_video_by_position d user_id pos) ↔ 0 ≤ pos < 4) ∧
     (∀ pos v, get_video_by_position d user_id pos = Some v →
        v_condition v = cond)) ∧
  ∀ w, reachable w → d = w_db w →
    match get_participant d user_id ≫= condition with
    | None => ∀ pos, get_video_by_position d user_id pos = None
    | Some cond =>
        cond ∈ VIDEO_CONDITIONS ∧
        (∀ pos, is_Some (get_video_by_position d user_id pos) ↔ 0 ≤ pos < 4) ∧
        (∀ pos v, get_video_by_position d user_id pos = Some v →
           v_condition v = cond)
    end.
Proof.
  intros Hd. unfold get_video_by_position. split.
  - destruct (observable_before_rows d user_id Hd) as [Hok Hc].
    destruct Hok as [Hn|(c & o & Hrec & Ho & Hrows)]; [by left|right].
    destruct Hc as (stored & Hstored & Hsrec).
    { exists 0. rewrite Hrows. apply assignment_row_is_Some; [done|done|lia]. }
    exists stored, c. split; [exact Hstored|]. split; [done|]. split; [done|].
    split.
    + intros pos. rewrite Hrows. split.
      * intros [v Hv]. by apply assignment_row_Some in Hv as (? & _).
      * by apply assignment_row_is_Some.
    + intros pos v. rewrite Hrows.
      by intros (_ & ? & _)%assignment_row_Some.
  - intros w Hw ->.
    destruct (reachable_condition_assigned w user_id Hw)
      as [[Hn Hrows]|(c & o & Hsome & Hrec & Ho & Hrows)];
      unfold condition_of in *.
    + by rewrite Hn.
    + rewrite Hsome. split; [done|]. split.
      * intros pos. rewrite Hrows. split.
        -- intros [v Hv]. by apply assignment_row_Some in Hv as (? & _).
        -- by apply assignment_row_is_Some.
      * intros pos v. rewrite Hrows.
        by intros (_ & ? & _)%assignment_row_Some.
Qed.

Lemma alex_condition_stored_observable : observable alex_condition_stored.
Proof.
  exists world_at_age. split.
  - apply reachable_run_events, reach_init.
  - right. exists (alex, Ev_text (Some "29")).
    apply (list_elem_of_lookup_2 _ 1%nat). vm_compute. reflexivity.
Qed.

(** The snapshot between the two commits of the sample's age step. *)
Lemma condition_matches_assignment_witness :
  let d := alex_condition_stored in
  observable d ∧
  ((∀ pos, get_video_by_position d 7 pos = None) ∨
   ∃ stored cond,
     get_participant d 7 ≫= condition = Some stored ∧
     stored ∈ VIDEO_CONDITIONS ∧ cond ∈ VIDEO_CONDITIONS ∧
     (∀ pos, is_Some (get_video_by_position d 7 pos) ↔ 0 ≤ pos < 4) ∧
     (∀ pos v, get_video_by_position d 7 pos = Some v →
        v_condition v = cond)) ∧
  ∀ w, reachable w → d = w_db w →
    match get_participant d 7 ≫= condition with
    | None => ∀ pos, get_video_by_position d 7 pos = None
    | Some cond =>
        cond ∈ VIDEO_CONDITIONS ∧
        (∀ pos, is_Some (get_video_by_position d 7 pos) ↔ 0 ≤ pos < 4) ∧
        (∀ pos v, get_video_by_position d 7 pos = Some v →
           v_condition v = cond)
    end.
Proof.
  split; [exact alex_condition_stored_observable|].
  exact (condition_matches_assignment alex_condition_stored 7
           alex_condition_stored_observable).
Defined.

(** In that snapshot the condition is stored and no row is assigned. *)
Example condition_stored_before_assignment :
  get_participant alex_condition_stored 7 ≫= condition = Some "с" ∧
  video_sequence alex_condition_stored = ∅.
Proof. vm_compute. done. Qed.

(** ** The order of the export *)

Lemma insert_sorted_sorted x l :
  StronglySorted Z.le l → StronglySorted Z.le (insert_sorted x l).
Proof.
  induction 1 as [|y l Hl IH Hy]; simpl.
  - by repeat constructor.
  - destruct (Z.leb_spec x y).
    + constructor; [by constructor|].
      constructor; [done|]. eapply Forall_impl; [exact Hy|]. simpl. lia.
    + constructor; [done|]. rewrite insert_sorted_perm.
      constructor; [lia|done].
Qed.

Lemma sort_Z_sorted l : StronglySorted Z.le (sort_Z l).
Proof.
  induction l as [|x l IH]; simpl; [constructor|].
  by apply insert_sorted_sorted.
Qed.

Lemma sorted_strict l :
  StronglySorted Z.le l → NoDup l → StronglySorted Z.lt l.
Proof.
  induction 1 as [|x l Hl IH Hx]; intros Hnd; [constructor|].
  apply NoDup_cons in Hnd as [Hnin Hnd].
  constructor; [by apply IH|].
  apply Forall_forall. intros y Hy.
  rewrite Forall_forall in Hx. specialize (Hx y Hy).
  assert (x ≠ y) by (intros ->; done). lia.
Qed.

Lemma sort_Z_strict l : NoDup l → StronglySorted Z.lt (sort_Z l).
Proof.
  intros Hnd. apply sorted_strict; [apply sort_Z_sorted|].
  by rewrite sort_Z_perm.
Qed.

Lemma participant_ids_strict d : StronglySorted Z.lt (participant_ids d).
Proof. apply sort_Z_strict, NoDup_elements. Qed.

Lemma positions_of_strict d user_id : StronglySorted Z.lt (positions_of d user_id).
Proof.
  apply sort_Z_strict. unfold positions_of.
  apply NoDup_fmap_2_strong.
  - intros [u1 p1] [u2 p2] [Hu1 _]%list_elem_of_filter [Hu2 _]%list_elem_of_filter.
    simpl in *. congruence.
  - apply NoDup_filter, NoDup_elements.
Qed.

Lemma load_participants_ids d :
  pe_user_id <$> load_participants d = participant_ids d.
Proof.
  unfold load_participants.
  assert (H : ∀ l : list Z,
    (∀ uid, uid ∈ l → is_Some (participants d !! uid)) →
    pe_user_id <$> omap (λ user_id : Z,
        participant_export_row user_id <$> participants d !! user_id) l = l).
  { induction l as [|uid l IH]; intros Hl; [done|].
    destruct (Hl uid) as [p Hp]; [by left|].
    cbn. rewrite Hp. cbn. f_equal. apply IH. intros uid' Hin.
    apply Hl. by right. }
  apply H. intros uid. apply elem_of_participant_ids.
Qed.

(** X14. The participants sheet has exactly one row per participant, in
    strictly ascending order of the user id. *)
Theorem load_participants_sorted (d : DB) :
  StronglySorted Z.lt (pe_user_id <$> load_participants d) ∧
  length (load_participants d) = size (participants d).
Proof.
  split.
  - rewrite load_participants_ids. apply participant_ids_strict.
  - rewrite <- (length_fmap pe_user_id), load_participants_ids.
    unfold participant_ids. rewrite sort_Z_perm.
    rewrite <- size_dom. done.
Qed.

Lemma joined_rows_sorted d user_id p :
  StronglySorted answer_row_before (joined_rows d user_id p) ∧
  Forall (λ r, ae_user_id r = user_id) (joined_rows d user_id p).
Proof.
  unfold joined_rows.
  pose proof (positions_of_strict d user_id) as Hs.
  destruct (positions_of d user_id) as [|pos0 ps] eqn:Hps.
  { split; by repeat constructor. }
  revert Hs. generalize (pos0 :: ps). clear Hps pos0 ps.
  intros l. induction 1 as [|pos l Hl IH Hpos]; [by split; constructor|].
  cbn. destruct IH as [IHs IHu].
  destruct (video_sequence d !! (user_id, pos)) as [v|]; [|done].
  cbn. split.
  - constructor; [done|].
    apply Forall_forall. intros r [pos' [Hin Hr]]%list_elem_of_omap.
    destruct (video_sequence d !! (user_id, pos')) as [v'|]; [|done].
    cbn in Hr. simplify_eq. right. split; [done|].
    exists pos, pos'. repeat split.
    rewrite Forall_forall in Hpos. by apply Hpos.
  - by constructor.
Qed.

(** X15. The answers sheet is ordered by user id and, for one user, by
    position: of two rows the earlier one has the smaller user id, or the
    same user id and the smaller position.  So no user and position has two
    rows, and a user without assignment has one row only. *)
Theorem load_answers_sorted (d : DB) :
  StronglySorted answer_row_before (load_answers d).
Proof.
  unfold load_answers.
  pose proof (participant_ids_strict d) as Hs.
  induction Hs as [|uid l Hl IH Huid]; [constructor|].
  cbn.
  assert (Hrest : Forall (λ r, uid < ae_user_id r)
    (l ≫= λ user_id, match participants d !! user_id with
                      | Some p => joined_rows d user_id p
                      | None => []
                      end)).
  { apply Forall_forall. intros r (uid' & Hr & Hin)%list_elem_of_bind.
    rewrite Forall_forall in Huid. specialize (Huid uid' Hin).
    destruct (participants d !! uid') as [p'|]; [|by apply elem_of_nil in Hr].
    destruct (joined_rows_sorted d uid' p') as [_ Hu].
    rewrite Forall_forall in Hu. by rewrite (Hu r Hr). }
  destruct (participants d !! uid) as [p|]; [|exact IH].
  destruct (joined_rows_sorted d uid p) as [Hsorted Hu].
  revert Hsorted Hu. generalize (joined_rows d uid p).
  intros rows. induction 1 as [|r rows Hrows IHrows Hr]; intros Hu; [exact IH|].
  apply Forall_cons in Hu as [Hur Hu].
  cbn. constructor; [by apply IHrows|].
  apply Forall_app. split; [exact Hr|].
  eapply Forall_impl; [exact Hrest|]. intros r' Hlt. left. by rewrite Hur.
Qed.

(** ** The rating keyboard and the rating handler *)

(** X16. The rating keyboard has two rows of five buttons, labelled 1 to
    10 in order.  The callback data of each button is routed to
    [handle_likert] by the dispatcher (it matches the rating pattern and
    not the gender prefix) and is read back by [handle_likert] as the
    number on the button. *)
Theorem rating_keyboard_round_trip :
  length <$> rating_keyboard = [5; 5]%nat ∧
  fst <$> concat rating_keyboard
    = ["1"; "2"; "3"; "4"; "5"; "6"; "7"; "8"; "9"; "10"] ∧
  Forall2 (λ (b : button) (i : Z),
             b.1 = str_int i ∧
             startswith b.2 "gender_" = false ∧
             likert_pattern b.2 = true ∧
             likert_score b.2 = Some i)
          (concat rating_keyboard) (range 1 11).
Proof.
  apply (bool_decide_unpack _). by vm_compute.
Qed.

(** ** [create_participant] *)

(** X17. [create_participant] replaces, in the row of its user, the
    columns whose argument is given and no other.  A name, gender, age or
    condition given as [None] leaves the stored value; one that is given is
    stored as it is, the empty string included.  The two Telegram names are
    always replaced, the total when it is given; position, completed flag
    and creation time are as they were.  A user without a row gets one, at
    position 0, not completed, with the total given or 4.  Rows of other
    users are untouched, and running it twice with the same arguments gives
    the same store as running it once. *)
Theorem create_participant_partial_update (now : string) (user_id : Z)
    (un fn pn g : option string) (a : option Z) (c : option string)
    (t : option Z) (d : DB) :
  let d' := create_participant now user_id un fn pn g a c t d in
  (∀ p, get_participant d user_id = Some p →
     ∃ p', get_participant d' user_id = Some p' ∧
       participant_name p'
         = match pn with Some x => Some x | None => participant_name p end ∧
       gender p' = match g with Some x => Some x | None => gender p end ∧
       age p' = match a with Some x => Some x | None => age p end ∧
       condition p' = match c with Some x => Some x | None => condition p end ∧
       total_videos p' = match t with Some x => x | None => total_videos p end ∧
       tg_username p' = or_empty un ∧ first_name p' = or_empty fn ∧
       current_video_idx p' = current_video_idx p ∧
       completed p' = completed p ∧ created_at p' = created_at p) ∧
  (get_participant d user_id = None →
     ∃ p', get_participant d' user_id = Some p' ∧
       participant_name p' = pn ∧ gender p' = g ∧ age p' = a ∧
       condition p' = c ∧ total_videos p' = default 4 t ∧
       tg_username p' = or_empty un ∧ first_name p' = or_empty fn ∧
       current_video_idx p' = 0 ∧ completed p' = 0 ∧ created_at p' = now) ∧
  (∀ other, other ≠ user_id →
     get_participant d' other = get_participant d other) ∧
  create_participant now user_id un fn pn g a c t d' = d'.
Proof.
  cbv zeta. unfold get_participant, create_participant.
  cbn [participants users video_sequence answers].
  split; [|split; [|split]].
  - intros p Hp. rewrite lookup_insert_eq, Hp. eexists. split; [done|].
    cbn. by destruct pn, g, a, c, t.
  - intros Hp. rewrite lookup_insert_eq, Hp. eexists. split; [done|].
    cbn. by destruct pn, g, a, c, t.
  - intros other Hne. by rewrite lookup_insert_ne.
  - rewrite lookup_insert_eq, insert_insert_eq. f_equal. f_equal.
    destruct (participants d !! user_id) as [p|];
      destruct pn, g, a, c, t; reflexivity.
Qed.

(** The bot restarted while the age is asked, then [/start] and the age:
    the session has no name and no gender, and the age step stores the
    empty string over both. *)
Example restart_at_age_empties_name :
  let w := world_restarted_at_age in
  let w' := run_events w [(alex, Ev_start true); (alex, Ev_text (Some "29"))] in
  (λ p, (participant_name p, gender p)) <$> get_participant (w_db w) 7
    = Some (Some "Alex", Some "Женский") ∧
  (λ p, (participant_name p, gender p, age p)) <$> get_participant (w_db w') 7
    = Some (Some "", Some "", Some 29).
Proof. vm_compute. done. Qed.

(** ** Ratings out of turn *)

(** X18. [handle_likert] does not look at the session: whatever the stage,
    a valid rating of a participant who has not completed and has a video
    assigned at the current position is written into the answer row there,
    whose description and two adverbs stay what they were, null included,
    and the position moves on by one. *)
Theorem rating_accepted_at_any_stage {py : Python} (u : update) (data : string)
    (s : hstate) (score : Z) (p : participant) (v : video_row) :
  likert_score data = Some score →
  get_participant (st_db s) (u_id u) = Some p →
  truthy (completed p) = false →
  get_video_by_position (st_db s) (u_id u) (current_video_idx p) = Some v →
  let d := st_db s in
  let d' := st_db (handle_likert u data s).2 in
  let old := get_answer d (u_id u) (current_video_idx p) in
  (∃ a, get_answer d' (u_id u) (current_video_idx p) = Some a ∧
        scenario_rating a = Some score ∧
        description a = old ≫= description ∧
        adv_behavior a = old ≫= adv_behavior ∧
        adv_choice a = old ≫= adv_choice) ∧
  ∃ p', get_participant d' (u_id u) = Some p' ∧
        current_video_idx p' = current_video_idx p + 1.
Proof.
  intros Hscore Hp Hc Hv. cbv zeta.
  destruct (handle_likert_commits u data s) as [_ ->].
  unfold likert_commits. rewrite Hscore, Hp, Hc, Hv. cbn [hd].
  unfold get_answer, get_participant, update_participant_progress,
    upsert_answer_field. cbn [answers participants].
  split.
  - rewrite lookup_insert_eq. eexists. split; [done|].
    by destruct (answers (st_db s) !! (u_id u, current_video_idx p)).
  - unfold get_participant in Hp. rewrite lookup_alter_eq, Hp. cbn.
    by eexists.
Qed.

Example rating_before_description :
  let w := step world_at_video_0 (alex, Ev_callback "likert_5") in
  stage (session_of world_at_video_0 7) = Some expect_description ∧
  (description <$> get_answer (w_db w) 7 0) = Some None ∧
  (scenario_rating <$> get_answer (w_db w) 7 0) = Some (Some 5) ∧
  (current_video_idx <$> get_participant (w_db w) 7) = Some 1.
Proof. vm_compute. done. Qed.

Lemma rating_accepted_at_any_stage_witness :
  let u := alex in
  let s := enter world_at_video_0 alex in
  let p := alex_at_video_0 in
  let v := alex_first_video in
  likert_score "likert_5" = Some 5 ∧
  get_participant (st_db s) (u_id u) = Some p ∧
  truthy (completed p) = false ∧
  get_video_by_position (st_db s) (u_id u) (current_video_idx p) = Some v ∧
  let d := st_db s in
  let d' := st_db (handle_likert u "likert_5" s).2 in
  let old := get_answer d (u_id u) (current_video_idx p) in
  (∃ a, get_answer d' (u_id u) (current_video_idx p) = Some a ∧
        scenario_rating a = Some 5 ∧
        description a = old ≫= description ∧
        adv_behavior a = old ≫= adv_behavior ∧
        adv_choice a = old ≫= adv_choice) ∧
  ∃ p', get_participant d' (u_id u) = Some p' ∧
        current_video_idx p' = current_video_idx p + 1.
Proof.
  assert (H1 : likert_score "likert_5" = Some 5) by reflexivity.
  assert (H2 : get_participant (st_db (enter world_at_video_0 alex)) (u_id alex)
               = Some alex_at_video_0) by (vm_compute; reflexivity).
  assert (H3 : truthy (completed alex_at_video_0) = false) by reflexivity.
  assert (H4 : get_video_by_position (st_db (enter world_at_video_0 alex))
                 (u_id alex) (current_video_idx alex_at_video_0)
               = Some alex_first_video) by (vm_compute; reflexivity).
  split; [exact H1|]. split; [exact H2|]. split; [exact H3|].
  split; [exact H4|].
  exact (rating_accepted_at_any_stage alex "likert_5"
           (enter world_at_video_0 alex) 5 alex_at_video_0 alex_first_video
           H1 H2 H3 H4).
Defined.

(** ** Answers behind the position *)

Lemma step_position_grows {py : Python} w x user_id p :
  get_participant (w_db w) user_id = Some p →
  ∃ p', get_participant (w_db (step w x)) user_id = Some p' ∧
        current_video_idx p ≤ current_video_idx p'.
Proof.
  unfold get_participant. intros Hp.
  pose proof (step_db_step w x user_id) as Hstep. rewrite Hp in Hstep.
  destruct Hstep as (p' & Hp' & [(Hi & _)|(_ & _ & Hi & _)]);
    exists p'; (split; [done|]); lia.
Qed.

(** X19. The answer rows at positions a participant has left are final:
    no sequence of events, of this user or of others, changes the row at a
    position below the participant's current one. *)
Theorem past_answers_final {py : Python}
    (w : world) (user_id : Z) (p : participant)
    (pos : Z) (events : list (update * event)) :
  get_participant (w_db w) user_id = Some p →
  pos < current_video_idx p →
  get_answer (w_db (run_events w events)) user_id pos
  = get_answer (w_db w) user_id pos.
Proof.
  revert w p. induction events as [|[u e] events IH]; intros w p Hp Hpos;
    [done|].
  simpl. destruct (step_position_grows w (u, e) user_id p Hp) as (p1 & Hp1 & Hle).
  rewrite (IH _ p1 Hp1) by lia.
  unfold get_answer, step, leave. cbn [fst snd w_db].
  destruct (decide (u_id u = user_id)) as [<-|Hne].
  - destruct (dispatch_answers w u e p Hp) as [Heq _].
    apply Heq. intros [= ->]. lia.
  - by destruct (dispatch_same_elsewhere u e (enter w u) user_id)
      as (_ & _ & ->).
Qed.

Lemma past_answers_final_witness :
  get_participant (w_db world_at_last_rating) 7 = Some alex_at_last_rating ∧
  1 < current_video_idx alex_at_last_rating ∧
  get_answer
    (w_db (run_events world_at_last_rating
             [(alex, Ev_callback "likert_7");
              (alex, Ev_start true);
              (bea, Ev_text (Some "Bea"))])) 7 1
  = get_answer (w_db world_at_last_rating) 7 1.
Proof.
  assert (H1 : get_participant (w_db world_at_last_rating) 7
               = Some alex_at_last_rating) by (vm_compute; reflexivity).
  assert (H2 : 1 < current_video_idx alex_at_last_rating) by (simpl; lia).
  split; [exact H1|]. split; [exact H2|].
  exact (past_answers_final world_at_last_rating 7 alex_at_last_rating 1
           [(alex, Ev_callback "likert_7");
            (alex, Ev_start true);
            (bea, Ev_text (Some "Bea"))] H1 H2).
Defined.

(** ** Rejected ages and texts without a stage *)

(** X20. While the age is asked, a text that [int] rejects, or reads as a
    number below 1 or above 120, is answered by asking again.  The session is left
    as it was, and so are the participant's gender, age, condition,
    position, total and completed flag, the assignments and the answers. *)
Theorem invalid_age_asked_again {py : Python}
    (u : update) (text : string) (s : hstate) :
  stage (st_ud s) = Some ask_age →
  (∀ n, parse_int (strip text) = Some n → n < 1 ∨ 120 < n) →
  let r := handle_text u (Some text) s in
  let d := st_db s in
  let d' := st_db r.2 in
  r.1 = Ok tt ∧ st_sent r.2 = R_ask_age_again :: st_sent s ∧
  st_ud r.2 = st_ud s ∧
  video_sequence d' = video_sequence d ∧ answers d' = answers d ∧
  ∀ p, get_participant d (u_id u) = Some p →
    ∃ p', get_participant d' (u_id u) = Some p' ∧
      gender p' = gender p ∧ age p' = age p ∧ condition p' = condition p ∧
      current_video_idx p' = current_video_idx p ∧
      total_videos p' = total_videos p ∧ completed p' = completed p.
Proof.
  intros Hstage Hbad. cbv zeta.
  rewrite (handle_text_invalid_age u text s Hstage Hbad). cbv zeta.
  cbn [fst snd st_db st_ud st_sent].
  repeat (split; [done|]).
  intros p Hp. unfold get_participant, create_participant in *.
  cbn [participants]. rewrite lookup_insert_eq, Hp. by eexists.
Qed.

Lemma invalid_age_asked_again_witness :
  let s := enter world_at_age alex in
  stage (st_ud s) = Some ask_age ∧
  (∀ n, parse_int (strip "121") = Some n → n < 1 ∨ 120 < n) ∧
  let r := handle_text alex (Some "121") s in
  let d := st_db s in
  let d' := st_db r.2 in
  r.1 = Ok tt ∧ st_sent r.2 = R_ask_age_again :: st_sent s ∧
  st_ud r.2 = st_ud s ∧
  video_sequence d' = video_sequence d ∧ answers d' = answers d ∧
  ∀ p, get_participant d (u_id alex) = Some p →
    ∃ p', get_participant d' (u_id alex) = Some p' ∧
      gender p' = gender p ∧ age p' = age p ∧ condition p' = condition p ∧
      current_video_idx p' = current_video_idx p ∧
      total_videos p' = total_videos p ∧ completed p' = completed p.
Proof.
  assert (H1 : stage (st_ud (enter world_at_age alex)) = Some ask_age)
    by (vm_compute; reflexivity).
  assert (H2 : ∀ n, parse_int (strip "121") = Some n → n < 1 ∨ 120 < n).
  { intros n Hn. change (parse_int (strip "121")) with (Some 121) in Hn.
    injection Hn as <-. right. lia. }
  split; [exact H1|]. split; [exact H2|].
  exact (invalid_age_asked_again alex "121" (enter world_at_age alex) H1 H2).
Defined.

(** X21. A text that arrives while the session has no stage, as before the
    start command or after a restart of the bot, is answered by pointing to
    the start command and changes nothing: store, commit list and session
    are as they were. *)
Theorem text_without_stage_ignored {py : Python}
    (u : update) (text : string) (s : hstate) :
  stage (st_ud s) = None →
  handle_text u (Some text) s
  = (Ok tt, mkH (st_db s) (st_commits s) (st_ud s)
              (R_press_start :: st_sent s)).
Proof. intros Hstage. unfold handle_text. run_monad. by rewrite Hstage. Qed.

Lemma text_without_stage_ignored_witness :
  stage (st_ud (enter world_restarted_at_age alex)) = None ∧
  handle_text alex (Some "29") (enter world_restarted_at_age alex)
  = (Ok tt,
     mkH (st_db (enter world_restarted_at_age alex))
       (st_commits (enter world_restarted_at_age alex))
       (st_ud (enter world_restarted_at_age alex))
       (R_press_start :: st_sent (enter world_restarted_at_age alex))).
Proof.
  assert (H : stage (st_ud (enter world_restarted_at_age alex)) = None)
    by reflexivity.
  split; [exact H|].
  exact (text_without_stage_ignored alex "29"
           (enter world_restarted_at_age alex) H).
Defined.

(** ** From one video to the next *)

Lemma handle_likert_next_session {py : Python} u data s score p v v' :
  likert_score data = Some score →
  get_participant (st_db s) (u_id u) = Some p →
  truthy (completed p) = false →
  get_video_by_position (st_db s) (u_id u) (current_video_idx p) = Some v →
  current_video_idx p + 1 < total_videos p →
  get_video_by_position (st_db s) (u_id u) (current_video_idx p + 1) = Some v' →
  let r := handle_likert u data s in
  let stg := determine_next_stage (st_db r.2) (u_id u) in
  st_ud r.2 = mkUD (Some stg) (ud_participant_name (st_ud s))
                (ud_gender (st_ud s)) ∧
  (stg = expect_description →
   st_sent r.2 =
     R_ask_description
       :: R_video (v_file_id v') (current_video_idx p + 2) (total_videos p)
       :: R_next_video :: st_sent s).
Proof.
  intros Hscore Hp Hc Hv Hlt Hv'. cbv zeta.
  destruct (handle_likert_commits u data s) as [_ Hdb]. rewrite Hdb.
  clear Hdb. unfold likert_commits. rewrite Hscore, Hp, Hc, Hv. cbn [hd].
  unfold likert_score in Hscore.
  unfold handle_likert, handle_likert_body. cbv zeta.
  destruct (startswith data "likert_"); [|done]. cbn [negb].
  destruct (after_first "_" data) as [digits|]; [|done].
  cbn [mbind option_bind] in Hscore.
  destruct (parse_int digits) as [score'|]; [|done].
  destruct ((score' <? 1) || (score' >? 10))%bool; [done|].
  injection Hscore as ->.
  run_monad. rewrite Hp, Hc, Hv.
  destruct (Z.geb_spec (current_video_idx p + 1) (total_videos p)); [lia|].
  cbn [st_db st_commits st_ud st_sent fst snd].
  set (d2 := update_participant_progress _ _ _ _).
  match goal with
  | |- context [continue_experiment u ?s0] => set (s2 := s0)
  end.
  assert (Hp2 : get_participant (st_db s2) (u_id u)
                = Some (progress_row (Some (current_video_idx p + 1)) None p)).
  { unfold get_participant, s2, d2, update_participant_progress,
      upsert_answer_field in *. cbn [st_db participants].
    by rewrite lookup_alter_eq, Hp. }
  destruct (continue_experiment_stage u s2 _ v' Hp2 Hc) as [Hud Hsent].
  { simpl. lia. }
  { exact Hv'. }
  destruct (read_only_continue_experiment u s2) as [Hd _].
  cbn [st_db] in Hd. change (st_db s2) with d2 in *.
  destruct (continue_experiment u s2) as [[[]|e] s3];
    cbn [fst snd st_db st_ud st_sent] in *.
  - split; [exact Hud|]. intros Hstg.
    destruct (Hsent Hstg) as [_ ->]. simpl.
    by replace (current_video_idx p + 1 + 1) with (current_video_idx p + 2) by lia.
  - split; [exact Hud|]. intros Hstg. by destruct (Hsent Hstg) as [? _].
Qed.

(** X22. In a reachable state, a valid rating of a participant who has not
    completed, has a video assigned at the current position and is not at
    the last one, leaves the session at the stage the resolver computes for
    the new position, keeping the session's name and gender; when that
    stage is the description, the messages sent are the thanks, the video
    of the new position and the question, in this order. *)
Theorem rating_prompts_next_video {py : Python}
    (w : world) (u : update) (data : string)
    (score : Z) (p : participant) (v : video_row) :
  reachable w →
  likert_score data = Some score →
  get_participant (w_db w) (u_id u) = Some p →
  truthy (completed p) = false →
  get_video_by_position (w_db w) (u_id u) (current_video_idx p) = Some v →
  current_video_idx p + 1 < total_videos p →
  let r := handle_likert u data (enter w u) in
  let stg := determine_next_stage (st_db r.2) (u_id u) in
  st_ud r.2 = mkUD (Some stg) (ud_participant_name (session_of w (u_id u)))
                (ud_gender (session_of w (u_id u))) ∧
  ∃ v', get_video_by_position (st_db r.2) (u_id u) (current_video_idx p + 1)
          = Some v' ∧
        (stg = expect_description →
         st_sent r.2 =
           [R_ask_description;
            R_video (v_file_id v') (current_video_idx p + 2) (total_videos p);
            R_next_video]).
Proof.
  intros Hw Hscore Hp Hc Hv Hlt. cbv zeta.
  destruct (reachable_ok w Hw (u_id u) p Hp) as [Ht Hrow].
  assert (∃ v', get_video_by_position (w_db w) (u_id u)
                  (current_video_idx p + 1) = Some v') as [v' Hv'].
  { unfold get_video_by_position in *.
    destruct (reachable_assignments_ok w Hw (u_id u))
      as [Hn|(c & o & Hc' & Ho & Hrows)]; [by rewrite Hn in Hv|].
    rewrite Hrows. apply assignment_row_is_Some; [done|done|].
    apply truthy_false in Hc. lia. }
  destruct (handle_likert_next_session u data (enter w u) score p v v'
              Hscore Hp Hc Hv Hlt Hv') as [Hud Hsent].
  split; [exact Hud|]. exists v'. split; [|exact Hsent].
  destruct (handle_likert_commits u data (enter w u)) as [_ ->].
  unfold likert_commits. cbn [enter st_db]. rewrite Hscore, Hp, Hc, Hv.
  exact Hv'.
Qed.

Lemma rating_prompts_next_video_witness :
  let w := world_at_first_rating in
  let u := alex in
  let p := alex_at_first_rating in
  reachable w ∧
  likert_score "likert_7" = Some 7 ∧
  get_participant (w_db w) (u_id u) = Some p ∧
  truthy (completed p) = false ∧
  get_video_by_position (w_db w) (u_id u) (current_video_idx p)
    = Some alex_first_video ∧
  current_video_idx p + 1 < total_videos p ∧
  let r := handle_likert u "likert_7" (enter w u) in
  let stg := determine_next_stage (st_db r.2) (u_id u) in
  st_ud r.2 = mkUD (Some stg) (ud_participant_name (session_of w (u_id u)))
                (ud_gender (session_of w (u_id u))) ∧
  ∃ v', get_video_by_position (st_db r.2) (u_id u) (current_video_idx p + 1)
          = Some v' ∧
        (stg = expect_description →
         st_sent r.2 =
           [R_ask_description;
            R_video (v_file_id v') (current_video_idx p + 2) (total_videos p);
            R_next_video]).
Proof.
  assert (H1 : reachable world_at_first_rating)
    by (do 2 apply reachable_run_events; apply reach_init).
  assert (H2 : likert_score "likert_7" = Some 7) by reflexivity.
  assert (H3 : get_participant (w_db world_at_first_rating) (u_id alex)
               = Some alex_at_first_rating) by (vm_compute; reflexivity).
  assert (H4 : truthy (completed alex_at_first_rating) = false) by reflexivity.
  assert (H5 : get_video_by_position (w_db world_at_first_rating) (u_id alex)
                 (current_video_idx alex_at_first_rating)
               = Some alex_first_video) by (vm_compute; reflexivity).
  assert (H6 : current_video_idx alex_at_first_rating + 1
               < total_videos alex_at_first_rating) by (simpl; lia).
  split; [exact H1|]. split; [exact H2|]. split; [exact H3|].
  split; [exact H4|]. split; [exact H5|]. split; [exact H6|].
  exact (rating_prompts_next_video world_at_first_rating alex "likert_7" 7
           alex_at_first_rating alex_first_video H1 H2 H3 H4 H5 H6).
Defined.

(** ** The export of a store the bot wrote *)

(** X23. In the answers sheet of every store the export can read, the
    snapshots committed in the middle of an event included, a row without
    video has no scenario and no answer, and a row with a video has a
    position from 0 to 3, a scenario of the scenario set and a recognized
    condition.  Between two events more holds: a row without video belongs
    to a participant without condition, and a participant with a condition
    has a row for each of the positions 0 to 3. *)
Theorem export_of_reachable {py : Python} (d : DB) :
  observable d →
  (∀ row, row ∈ load_answers d →
     match ae_video_position row with
     | None =>
         ae_video_scenario row = None ∧
         ae_answer_description row = None ∧
         ae_answer_adv_behavior row = None ∧
         ae_answer_adv_choice row = None ∧
         ae_answer_scenario_rating row = None
     | Some pos =>
         0 ≤ pos < 4 ∧
         (∃ cond, ae_condition row = Some cond ∧ cond ∈ VIDEO_CONDITIONS) ∧
         (∃ sc, ae_video_scenario row = Some sc ∧ sc ∈ SCENARIOS)
     end) ∧
  ∀ w, reachable w → d = w_db w →
    (∀ row, row ∈ load_answers d →
       ae_video_position row = None → ae_condition row = None) ∧
    (∀ user_id p cond pos,
       get_participant d user_id = Some p →
       condition p = Some cond → 0 ≤ pos < 4 →
       ∃ row, row ∈ load_answers d ∧ ae_user_id row = user_id ∧
              ae_video_position row = Some pos).
Proof.
  intros Hd. split.
  - intros row (uid & p & Hp & Hrow)%elem_of_load_answers.
    destruct (observable_before_rows d uid Hd) as [Hok Hc].
    unfold condition_of, get_participant in Hc. rewrite Hp in Hc. cbn in Hc.
    apply elem_of_joined_rows in Hrow as [[Hps ->]|(pos & v & Hv & ->)]; cbn.
    + done.
    + destruct Hc as (c & Hsome & Hrec); [by exists pos; rewrite Hv|].
      destruct Hok as [Hn|(c' & o & Hrec' & Ho & Hrows)];
        [by rewrite Hn in Hv|].
      rewrite Hrows in Hv.
      apply assignment_row_Some in Hv as (Hpos & _ & Hin & _).
      split; [done|]. split; [by exists c|].
      exists (v_scenario v). split; [done|]. by rewrite Ho in Hin.
  - intros w Hw ->. split.
    + intros row (uid & p & Hp & Hrow)%elem_of_load_answers.
      pose proof (reachable_condition_assigned w uid Hw) as HJ.
      unfold condition_assigned, condition_of, get_participant in HJ.
      rewrite Hp in HJ. cbn in HJ.
      apply elem_of_joined_rows in Hrow as [[Hps ->]|(pos & v & Hv & ->)]; cbn;
        [|done].
      intros _.
      destruct HJ as [[Hn _]|(c & o & Hsome & Hrec & Ho & Hrows)]; [done|].
      exfalso.
      assert (0 ∈ positions_of (w_db w) uid) as Hin.
      { apply elem_of_positions_of. rewrite Hrows.
        apply assignment_row_is_Some; [done|done|lia]. }
      rewrite Hps in Hin. by apply elem_of_nil in Hin.
    + intros uid p cond pos Hp Hcond Hpos.
      pose proof (reachable_condition_assigned w uid Hw) as HJ.
      unfold condition_assigned, condition_of in HJ. rewrite Hp in HJ.
      cbn in HJ. rewrite Hcond in HJ.
      destruct HJ as [[Hn _]|(c & o & Hsome & Hrec & Ho & Hrows)]; [done|].
      destruct (assignment_row_is_Some c o pos Hrec Ho Hpos) as [v Hv].
      exists (answer_export_row uid p (Some (pos, v))
                (answers (w_db w) !! (uid, pos))).
      split; [|done]. apply elem_of_load_answers. exists uid, p.
      split; [done|]. apply elem_of_joined_rows. right. exists pos, v.
      split; [|done]. by rewrite Hrows.
Qed.

Lemma export_of_reachable_witness :
  let d := alex_condition_stored in
  observable d ∧
  (∀ row, row ∈ load_answers d →
     match ae_video_position row with
     | None =>
         ae_video_scenario row = None ∧
         ae_answer_description row = None ∧
         ae_answer_adv_behavior row = None ∧
         ae_answer_adv_choice row = None ∧
         ae_answer_scenario_rating row = None
     | Some pos =>
         0 ≤ pos < 4 ∧
         (∃ cond, ae_condition row = Some cond ∧ cond ∈ VIDEO_CONDITIONS) ∧
         (∃ sc, ae_video_scenario row = Some sc ∧ sc ∈ SCENARIOS)
     end) ∧
  ∀ w, reachable w → d = w_db w →
    (∀ row, row ∈ load_answers d →
       ae_video_position row = None → ae_condition row = None) ∧
    (∀ user_id p cond pos,
       get_participant d user_id = Some p →
       condition p = Some cond → 0 ≤ pos < 4 →
       ∃ row, row ∈ load_answers d ∧ ae_user_id row = user_id ∧
              ae_video_position row = Some pos).
Proof.
  pose proof (H := alex_condition_stored_observable).
  split; [exact H|].
  exact (export_of_reachable alex_condition_stored H).
Defined.

(** The answers sheet read in that snapshot: one row, of a participant with
    a condition and without a video. *)
Example export_between_commits :
  (λ row, (ae_user_id row, ae_condition row, ae_video_position row))
    <$> load_answers alex_condition_stored
  = [(7, Some "с", None)].
Proof. vm_compute. reflexivity. Qed.

(** ** The last rating *)

(** X24. A valid rating at the last position or beyond, by a participant
    who has not completed and has a video assigned at the current position,
    ends without an exception, empties the session and sends one message,
    the final one; it names the participant name stored then, or the
    placeholder when that is null or empty. *)
Theorem last_rating_finalizes {py : Python}
    (u : update) (data : string) (s : hstate)
    (score : Z) (p : participant) (v : video_row) :
  likert_score data = Some score →
  get_participant (st_db s) (u_id u) = Some p →
  truthy (completed p) = false →
  get_video_by_position (st_db s) (u_id u) (current_video_idx p) = Some v →
  total_videos p ≤ current_video_idx p + 1 →
  let r := handle_likert u data s in
  r.1 = Ok tt ∧ st_ud r.2 = ud_clear ∧
  st_sent r.2 =
    R_final (if str_truthy (participant_name p)
             then or_empty (participant_name p)
             else "ваше имя/псевдоним") :: st_sent s.
Proof.
  intros Hscore Hp Hc Hv Hlast. cbv zeta.
  unfold likert_score in Hscore.
  unfold handle_likert, handle_likert_body. cbv zeta.
  destruct (startswith data "likert_"); [|done]. cbn [negb].
  destruct (after_first "_" data) as [digits|]; [|done].
  cbn [mbind option_bind] in Hscore.
  destruct (parse_int digits) as [score'|]; [|done].
  destruct ((score' <? 1) || (score' >? 10))%bool; [done|].
  run_monad. rewrite Hp, Hc, Hv.
  destruct (Z.geb_spec (current_video_idx p + 1) (total_videos p)); [|lia].
  cbn [st_db st_commits st_ud st_sent fst snd].
  unfold get_participant, update_participant_progress, upsert_answer_field
    in *.
  cbn [participants]. rewrite lookup_alter_eq, Hp. by cbn.
Qed.

Lemma last_rating_finalizes_witness :
  let s := enter world_at_last_rating alex in
  let p := alex_at_last_rating in
  likert_score "likert_7" = Some 7 ∧
  get_participant (st_db s) (u_id alex) = Some p ∧
  truthy (completed p) = false ∧
  get_video_by_position (st_db s) (u_id alex) (current_video_idx p)
    = Some alex_last_video ∧
  total_videos p ≤ current_video_idx p + 1 ∧
  let r := handle_likert alex "likert_7" s in
  r.1 = Ok tt ∧ st_ud r.2 = ud_clear ∧
  st_sent r.2 =
    R_final (if str_truthy (participant_name p)
             then or_empty (participant_name p)
             else "ваше имя/псевдоним") :: st_sent s.
Proof.
  assert (H1 : likert_score "likert_7" = Some 7) by reflexivity.
  assert (H2 : get_participant (st_db (enter world_at_last_rating alex))
                 (u_id alex) = Some alex_at_last_rating)
    by (vm_compute; reflexivity).
  assert (H3 : truthy (completed alex_at_last_rating) = false) by reflexivity.
  assert (H4 : get_video_by_position (st_db (enter world_at_last_rating alex))
                 (u_id alex) (current_video_idx alex_at_last_rating)
               = Some alex_last_video) by (vm_compute; reflexivity).
  assert (H5 : total_videos alex_at_last_rating
               ≤ current_video_idx alex_at_last_rating + 1) by (simpl; lia).
  split; [exact H1|]. split; [exact H2|]. split; [exact H3|].
  split; [exact H4|]. split; [exact H5|].
  exact (last_rating_finalizes alex "likert_7" (enter world_at_last_rating alex)
           7 alex_at_last_rating alex_last_video H1 H2 H3 H4 H5).
Defined.

(** ** [update_participant_progress] *)

(** X25. [update_participant_progress] with neither column given leaves
    the store as it is.  With columns given it changes, in the row of the
    user, those columns and nothing else, creates no row for a user who has
    none, and touches no other row and no other table. *)
Theorem update_participant_progress_frame (user_id : Z) (idx : option Z)
    (compl : option bool) (d : DB) :
  let d' := update_participant_progress user_id idx compl d in
  update_participant_progress user_id None None d = d ∧
  (get_participant d user_id = None → d' = d) ∧
  (∀ p, get_participant d user_id = Some p →
     ∃ p', get_participant d' user_id = Some p' ∧
       current_video_idx p' = default (current_video_idx p) idx ∧
       completed p'
         = default (completed p) ((λ c : bool, if c then 1 else 0) <$> compl) ∧
       total_videos p' = total_videos p ∧
       participant_name p' = participant_name p ∧ gender p' = gender p ∧
       age p' = age p ∧ condition p' = condition p ∧
       tg_username p' = tg_username p ∧ first_name p' = first_name p ∧
       created_at p' = created_at p) ∧
  (∀ other, other ≠ user_id →
     get_participant d' other = get_participant d other) ∧
  users d' = users d ∧ video_sequence d' = video_sequence d ∧
  answers d' = answers d.
Proof.
  cbv zeta. unfold get_participant, update_participant_progress.
  split; [|split; [|split; [|split]]].
  - destruct d as [us ps vs ans]. cbn. f_equal.
    apply map_eq. intros uid. rewrite lookup_alter.
    case_decide as Heq; [|done]. subst uid.
    by destruct (ps !! user_id) as [[]|].
  - intros Hn. destruct d as [us ps vs ans]. cbn in *. f_equal.
    apply map_eq. intros uid. rewrite lookup_alter.
    case_decide as Heq; [|done]. subst uid. by rewrite Hn.
  - intros p Hp. cbn [participants]. rewrite lookup_alter_eq, Hp.
    eexists. split; [done|]. by destruct idx, compl.
  - intros other Hne. cbn [participants]. by rewrite lookup_alter_ne.
  - done.
Qed.
